(** * antenati.py: the gallery downloader, embedded and verified

    A shallow embedding of [src/antenati.py] (class [AntenatiDownloader]).

    - Python [str] values are [string]s: sequences of code points below 256.
      On these, the regular-expression class [\d] is exactly ['0'..'9'].
    - Python [int] is [Z]; [bytes] is [list Byte.byte].
    - Every exception the program raises itself is a [RuntimeError] with a
      formatted message; exceptions of library calls are kept apart.
    - Effects (HTTP requests, files written in the working directory, the
      progress callbacks) are threaded through an explicit [world] by a
      small state-and-exception monad [M].
    - [run] has more than one thread.  It is a step function on
      configurations: the main thread and the workers of the executor take
      turns, one step at a time; a step of a worker is one stage of
      [__thread_main], and a unit that waits for a connection of the pool
      has no step until one is free.  An execution is a sequence of such
      steps, and the statements about [run] are about all of them.
    - What the Python standard library, urllib3 and python-slugify compute is
      not part of the repository: it enters through the class [Platform]. *)

From Stdlib Require Import ZArith String Ascii List Lia.
From stdpp Require Import base option list strings gmap pretty.

Open Scope Z_scope.

(** ** Text helpers: the string operations the downloader relies on *)

Module Text.

Definition code (c : ascii) : N := N_of_ascii c.

Definition in_range (lo hi : N) (c : ascii) : bool :=
  ((lo <=? code c) && (code c <=? hi))%N.

(** [\d] *)
Definition isdigit (c : ascii) : bool := in_range 48 57 c.
(** [A-Z] and [a-z] *)
Definition isupper (c : ascii) : bool := in_range 65 90 c.
Definition islower (c : ascii) : bool := in_range 97 122 c.

Definition all_chars (p : ascii → bool) (s : string) : bool :=
  forallb p (list_ascii_of_string s).

Definition snoc (s : string) (c : ascii) : string := s +:+ String c "".

(** A finished run of characters is reported unless it is empty. *)
Definition flush (run : string) : list string :=
  match run with
  | EmptyString => []
  | _ => [run]
  end.

(** [re.findall(r'(\d+)', s)]: the maximal runs of digits of [s], from
    left to right.  [run] is the run being read. *)
Fixpoint scan_digits (run : string) (s : string) : list string :=
  match s with
  | EmptyString => flush run
  | String c s' =>
      if isdigit c then scan_digits (snoc run c) s'
      else flush run ++ scan_digits "" s'
  end.

Definition findall_digits (s : string) : list string := scan_digits "" s.

(** The same notion, stated without reference to a scanner: [s] is cut
    into digit-free separators and non-empty digit tokens, each token
    followed by the end of the string or by a non-digit. *)
Definition starts_with_digit (s : string) : bool :=
  match s with
  | EmptyString => false
  | String c _ => isdigit c
  end.

Inductive digit_runs : string → list string → Prop :=
| runs_done s :
    all_chars (λ c, negb (isdigit c)) s = true →
    digit_runs s []
| runs_token pre tok rest toks :
    all_chars (λ c, negb (isdigit c)) pre = true →
    tok ≠ ""%string →
    all_chars isdigit tok = true →
    starts_with_digit rest = false →
    digit_runs rest toks →
    digit_runs (pre +:+ tok +:+ rest) (tok :: toks).

(** [needle in hay] *)
Fixpoint contains (needle hay : string) : bool :=
  String.prefix needle hay ||
  match hay with
  | EmptyString => false
  | String _ hay' => contains needle hay'
  end.

(** The line boundaries of [str.splitlines] below code point 256:
    LF, VT, FF, CR, FS, GS, RS and NEL. *)
Definition is_linebreak (c : ascii) : bool :=
  in_range 10 13 c || in_range 28 30 c || (code c =? 133)%N.

(** [str.splitlines()]: CR LF is one boundary, and a boundary at the very
    end opens no further line. *)
Fixpoint splitlines_from (line : string) (s : string) : list string :=
  match s with
  | EmptyString => flush line
  | String c s' =>
      if is_linebreak c then
        line :: match s' with
                | String c' s'' =>
                    if (code c =? 13)%N && (code c' =? 10)%N
                    then splitlines_from "" s''
                    else splitlines_from "" s'
                | EmptyString => []
                end
      else splitlines_from (snoc line c) s'
  end.

Definition splitlines (s : string) : list string := splitlines_from "" s.

(** The class [[A-Za-z0-9.:/-]] *)
Definition is_url_char (c : ascii) : bool :=
  isupper c || islower c || isdigit c ||
  (code c =? 46)%N || (code c =? 58)%N || (code c =? 47)%N || (code c =? 45)%N.

Definition is_quote (c : ascii) : bool := (code c =? 39)%N.

(** After an opening quote: the longest run of class characters, which
    has to be followed by the closing quote.  The quote is not in the
    class, so no shorter run can match either. *)
Fixpoint quoted_body (s : string) : option string :=
  match s with
  | EmptyString => None
  | String c s' =>
      if is_quote c then Some EmptyString
      else if is_url_char c then String c <$> quoted_body s'
      else None
  end.

(** [re.search] for a quote, any number of class characters and a quote;
    group 1 of the leftmost match. *)
Fixpoint search_quoted (s : string) : option string :=
  match s with
  | EmptyString => None
  | String c s' =>
      match (if is_quote c then quoted_body s' else None) with
      | Some group => Some group
      | None => search_quoted s'
      end
  end.

(** The double quote character, as a string. *)
Definition dquote : string := String (ascii_of_N 34) EmptyString.

End Text.

(** ** Exceptions and results *)

Inductive exn : Type :=
| RuntimeError (msg : string)
| KeyError (key : string)
| LibraryError (what : string).

Inductive res (A : Type) : Type :=
| Ok (a : A)
| Raise (e : exn).
Arguments Ok {A} a.
Arguments Raise {A} e.

(** Python's truth value of an optional string: [None] and [''] are false. *)
Definition truthy (o : option string) : option string :=
  match o with
  | Some EmptyString => None
  | _ => o
  end.

(** ** Data model *)

Definition bytes : Type := list Byte.byte.

(** A canvas of the manifest, at the two paths the downloader reads:
    [canvas['label']] and [canvas['images'][0]['resource']['@id']]. *)
Record Canvas := {
  canvas_label : string;
  image_id : string
}.

(** An entry of [manifest['metadata']]. *)
Record MetadataEntry := {
  label : string;
  value : string
}.

(** The IIIF manifest: [manifest['metadata']] and
    [manifest['sequences'][0]['canvases']]. *)
Record Manifest := {
  metadata : list MetadataEntry;
  sequence_canvases : list Canvas
}.

(** An HTTP reply of urllib3: [status], [headers['Content-Type']] when the
    header is there, and [data]. *)
Record HTTPResponse := {
  status : Z;
  content_type_header : option string;
  data : bytes
}.

#[global] Instance Canvas_eq_dec : EqDecision Canvas.
Proof. solve_decision. Defined.

(** ** The world the program acts on *)

Inductive client : Type := PoolManager | HTTPSConnectionPool.

Inductive event : Type :=
| Request (via : client) (url : string)   (* [pool.request('GET', url)] *)
| Submit (canvas : Canvas)                (* [executor.submit(...)] *)
| SetTotal (total : Z)                    (* [progress.set_total(total)] *)
| Update                                  (* [progress.update()] *)
| PoolClosed                              (* the pool's [__exit__] *)
| ExecutorJoined.                         (* the executor's [__exit__] returned *)

Record world := World {
  files : gmap string bytes;    (* the working directory *)
  log : list event;             (* what happened, oldest first *)
  pending : list Canvas;        (* the queue of the executor *)
  pool_closed : bool            (* the image pool has been closed *)
}.

(** What the libraries compute. *)
Class Platform := {
  (** [PoolManager.request('GET', url)] *)
  manager_request : string → res HTTPResponse;
  (** [HTTPSConnectionPool.request('GET', url)]; the flag tells whether the
      pool had been closed when the unit ran *)
  https_request : bool → string → res HTTPResponse;
  (** [email.message.Message]: [get_content_type] and
      [get_content_charset] of a message with this Content-Type *)
  message_content_type : string → string;
  message_content_charset : string → option string;
  (** [bytes.decode(charset)] *)
  decode : option string → bytes → res string;
  (** [json.loads], read at the paths of [Manifest] *)
  loads : string → res Manifest;
  (** [mimetypes.guess_extension] *)
  guess_extension : string → option string;
  (** [slugify.slugify] *)
  slugify : string → string
}.

(** ** State and exceptions *)

Definition M (A : Type) : Type := world → res A * world.

#[global] Instance M_ret : MRet M := λ A a w, (Ok a, w).

#[global] Instance M_bind : MBind M := λ A B f m w,
  match m w with
  | (Ok a, w') => f a w'
  | (Raise e, w') => (Raise e, w')
  end.

Definition raise {A} (e : exn) : M A := λ w, (Raise e, w).

Definition lift {A} (r : res A) : M A := λ w, (r, w).

Definition emit (ev : event) : M unit := λ w,
  (Ok tt, World (files w) (log w ++ [ev]) (pending w) (pool_closed w)).

(** [with open(filename, 'wb') as f: f.write(data)] *)
Definition write_file (filename : string) (content : bytes) : M unit := λ w,
  (Ok tt, World (<[filename := content]> (files w)) (log w) (pending w) (pool_closed w)).

Definition is_pool_closed : M bool := λ w, (Ok (pool_closed w), w).

(** [for x in xs: f(x)] *)
Fixpoint for_each {A} (f : A → M unit) (xs : list A) : M unit :=
  match xs with
  | [] => mret tt
  | x :: xs' => f x;; for_each f xs'
  end.

(** ** The CSV file *)

Module Csv.

Import Text.

Definition is_delimiter (c : ascii) : bool := (code c =? 59)%N.
Definition is_dquote (c : ascii) : bool := (code c =? 34)%N.
Definition is_cr (c : ascii) : bool := (code c =? 13)%N.
Definition is_lf (c : ascii) : bool := (code c =? 10)%N.

(** The characters that make [csv.writer] quote a field: the delimiter,
    the quote character, and the characters of the line terminator. *)
Definition is_special (c : ascii) : bool :=
  is_delimiter c || is_dquote c || is_cr c || is_lf c.

Fixpoint needs_quotes (field : string) : bool :=
  match field with
  | EmptyString => false
  | String c field' => is_special c || needs_quotes field'
  end.

(** Every quote character of the field is doubled. *)
Fixpoint double_quotes (field : string) : string :=
  match field with
  | EmptyString => EmptyString
  | String c field' =>
      if is_dquote c then String c (String c (double_quotes field'))
      else String c (double_quotes field')
  end.

Definition write_field (field : string) : string :=
  if needs_quotes field then dquote +:+ double_quotes field +:+ dquote
  else field.

Fixpoint join (fields : list string) : string :=
  match fields with
  | [] => EmptyString
  | [field] => field
  | field :: fields' => field +:+ ";" +:+ join fields'
  end.

Definition crlf : string := String (ascii_of_N 13) (String (ascii_of_N 10) EmptyString).

(** [writer.writerow(row)] for [csv.writer(f, delimiter=';')] and a row of
    strings: minimal quoting, and a row that is one empty field is written
    as an empty quoted field. *)
Definition writerow (row : list string) : string :=
  match row with
  | [EmptyString] => dquote +:+ dquote +:+ crlf
  | _ => join (write_field <$> row) +:+ crlf
  end.

Fixpoint writerows (rows : list (list string)) : string :=
  match rows with
  | [] => EmptyString
  | row :: rows' => writerow row +:+ writerows rows'
  end.

(** UTF-8, for code points below 256: one byte below 128, two from there. *)
Definition utf8_char (c : ascii) : bytes :=
  if (code c <? 128)%N then [byte_of_ascii c]
  else [byte_of_ascii (ascii_of_N (192 + code c / 64));
        byte_of_ascii (ascii_of_N (128 + code c mod 64))].

Fixpoint utf8 (s : string) : bytes :=
  match s with
  | EmptyString => []
  | String c s' => utf8_char c ++ utf8 s'
  end.

(** What [utf8] encodes, decoded: a byte below 128 is a character, two
    bytes from 192 and from 128 are one. *)
Fixpoint un_utf8 (b : bytes) : string :=
  match b with
  | [] => EmptyString
  | x :: b' =>
      let n := Text.code (ascii_of_byte x) in
      if (n <? 128)%N then String (ascii_of_byte x) (un_utf8 b')
      else
        match b' with
        | [] => EmptyString
        | y :: b'' =>
            String (ascii_of_N ((n - 192) * 64 + (Text.code (ascii_of_byte y) - 128)))
                   (un_utf8 b'')
        end
  end.

(** A reader for what [writerow] writes: fields up to the delimiter or the
    line terminator; a field that begins with a quote runs to the next
    single quote, a doubled quote standing for one. *)
Inductive state : Type :=
| RowStart      (* nothing read of the row *)
| FieldStart    (* after a delimiter *)
| Unquoted      (* in a field without quotes *)
| Quoted        (* in a quoted field *)
| QuoteSeen     (* a quote in a quoted field: its end, or half of a doubled quote *)
| RowEnd        (* CR read after a field *)
| EmptyRowEnd.  (* CR read at the start of a row *)

Fixpoint read (st : state) (field : string) (row : list string) (text : string)
    : list (list string) :=
  match text with
  | EmptyString => []
  | String c text' =>
      match st with
      | RowStart | FieldStart =>
          if is_dquote c then read Quoted EmptyString row text'
          else if is_delimiter c then read FieldStart EmptyString (row ++ [EmptyString]) text'
          else if is_cr c then
            match st with
            | RowStart => read EmptyRowEnd EmptyString row text'
            | _ => read RowEnd EmptyString row text'
            end
          else read Unquoted (String c EmptyString) row text'
      | Unquoted =>
          if is_delimiter c then read FieldStart EmptyString (row ++ [field]) text'
          else if is_cr c then read RowEnd field row text'
          else read Unquoted (snoc field c) row text'
      | Quoted =>
          if is_dquote c then read QuoteSeen field row text'
          else read Quoted (snoc field c) row text'
      | QuoteSeen =>
          if is_dquote c then read Quoted (snoc field c) row text'
          else if is_delimiter c then read FieldStart EmptyString (row ++ [field]) text'
          else if is_cr c then read RowEnd field row text'
          else []
      | RowEnd =>
          if is_lf c then (row ++ [field]) :: read RowStart EmptyString [] text'
          else []
      | EmptyRowEnd =>
          if is_lf c then [] :: read RowStart EmptyString [] text'
          else []
      end
  end.

Definition reader (text : string) : list (list string) :=
  read RowStart EmptyString [] text.

End Csv.

(** ** The downloader *)

Definition DEFAULT_N_THREADS : Z := 8.
Definition DEFAULT_N_CONNECTIONS : Z := 4.

Module AntenatiDownloader.

Record t := {
  url : string;
  archive_id : string;
  manifest : Manifest;
  canvases : list Canvas;
  dirname : string;
  gallery_length : Z
}.

(** [seq[first:last]] for an [int] first and an optional last, step 1:
    a negative index counts from the end, and both are clamped. *)
Definition slice_index (len : Z) (i : Z) : Z :=
  if i <? 0 then Z.max (i + len) 0 else Z.min i len.

Definition slice {A} (l : list A) (first : Z) (last : option Z) : list A :=
  let len := Z.of_nat (length l) in
  let start := slice_index len first in
  let stop := match last with
              | None => len
              | Some last => slice_index len last
              end in
  take (Z.to_nat (stop - start)) (drop (Z.to_nat start) l).

(** [__get_archive_id]: the second numeric token of the URL. *)
Definition get_archive_id (url : string) : res string :=
  let archive_id_pattern := Text.findall_digits url in
  if (length archive_id_pattern <? 2)%nat
  then Raise (RuntimeError ("Cannot get archive ID from " +:+ url))
  else match archive_id_pattern !! 1%nat with
       | Some archive_id => Ok archive_id
       | None => Raise (LibraryError "IndexError")
       end.

(** How far the unit of a future has come. *)
Inductive phase : Type :=
| Queued                               (* in the queue of the executor *)
| Started                              (* taken by a worker *)
| Called                               (* [pool.request] is called *)
| Waiting                              (* in the queue of the pool *)
| Holding                              (* has a connection *)
| Replied (reply : res HTTPResponse)   (* [pool.request] is over *)
| Done (result : res Z).               (* the future is set *)

(** Where the main thread is in [run]. *)
Inductive pc : Type :=
| Entering                                         (* before the [with] *)
| Submitting (rest : list Canvas)                  (* line 215, then 216 *)
| Looping (gallery_size : Z) (not_yielded : list nat)   (* lines 218 to 222 *)
| Leaving (outcome : res Z)                        (* the body is over *)
| Joining (outcome : res Z)                        (* the pool is closed *)
| Returned (outcome : res Z).

(** [run] at work. *)
Record config := Config {
  now : world;
  main : pc;
  future_img : list (Canvas * phase);   (* the futures, in the order of submission *)
  yielded : list nat;                   (* those [as_completed] has handed over, oldest first *)
  idle_connections : nat;               (* what the queue of the pool holds *)
  n_threads : nat;                      (* the worker threads of the executor *)
  idle_semaphore : nat                  (* [executor._idle_semaphore] *)
}.

(** Whose turn it is. *)
Inductive action : Type :=
| Statement            (* the main thread: its next statement *)
| Yield (i : nat)      (* the main thread: [as_completed] hands over future [i] *)
| Work (i : nat).      (* a worker: the next step of the unit of future [i] *)

Section with_platform.
Context `{Platform}.

(** [headers['Content-Type']]: the header is looked up by its name in lower
    case, and that is the key a [KeyError] names. *)
Definition content_type_of (reply : HTTPResponse) : res string :=
  match content_type_header reply with
  | Some v => Ok v
  | None => Raise (KeyError "content-type")
  end.

(** [__get_content_type] *)
Definition get_content_type (reply : HTTPResponse) : M string :=
  v ← lift (content_type_of reply);
  mret (message_content_type v).

(** [__get_content_charset] *)
Definition get_content_charset (reply : HTTPResponse) : M (option string) :=
  v ← lift (content_type_of reply);
  mret (message_content_charset v).

Definition request (via : client) (url : string) : M HTTPResponse :=
  emit (Request via url);;
  match via with
  | PoolManager => lift (manager_request url)
  | HTTPSConnectionPool =>
      closed ← is_pool_closed;
      lift (https_request closed url)
  end.

(** [__get_iiif_manifest] *)
Definition get_iiif_manifest (url : string) : M Manifest :=
  http_reply ← request PoolManager url;
  if negb (status http_reply =? 200)
  then raise (RuntimeError (url +:+ ": HTTP error " +:+ pretty (status http_reply)))
  else
    charset ← get_content_charset http_reply;
    text ← lift (decode charset (data http_reply));
    let html_content := Text.splitlines text in
    let manifest_line := truthy (find (Text.contains "manifestId") html_content) in
    match manifest_line with
    | None => raise (RuntimeError ("No IIIF manifest found at " +:+ url))
    | Some manifest_line =>
        match Text.search_quoted manifest_line with
        | None => raise (RuntimeError ("Invalid IIIF manifest line found at " +:+ url))
        | Some manifest_url =>
            http_reply ← request PoolManager manifest_url;
            if negb (status http_reply =? 200)
            then raise (RuntimeError (url +:+ ": HTTP error " +:+ pretty (status http_reply)))
            else
              charset ← get_content_charset http_reply;
              text ← lift (decode charset (data http_reply));
              lift (loads text)
        end
    end.

(** [__get_metadata_content] *)
Definition get_metadata_content (manifest : Manifest) (lbl : string) : M string :=
  match find (λ i, String.eqb (label i) lbl) (metadata manifest) with
  | Some i => mret (value i)
  | None => raise (RuntimeError ("Cannot get " +:+ lbl +:+ " from manifest"))
  end.

(** [__generate_dirname] *)
Definition generate_dirname (manifest : Manifest) (archive_id : string) : M string :=
  context ← get_metadata_content manifest "Contesto archivistico";
  year ← get_metadata_content manifest "Titolo";
  typology ← get_metadata_content manifest "Tipologia";
  mret (slugify (context +:+ "-" +:+ year +:+ "-" +:+ typology +:+ "-" +:+ archive_id)).

(** [__init__] *)
Definition init (url : string) (first : Z) (last : option Z) : M t :=
  archive_id ← lift (get_archive_id url);
  manifest ← get_iiif_manifest url;
  let canvases := slice (sequence_canvases manifest) first last in
  dirname ← generate_dirname manifest archive_id;
  mret {| url := url; archive_id := archive_id; manifest := manifest;
          canvases := canvases; dirname := dirname;
          gallery_length := Z.of_nat (length canvases) |}.

(** [__thread_main] *)
Definition thread_main (canvas : Canvas) : M Z :=
  let url := image_id canvas in
  http_reply ← request HTTPSConnectionPool url;
  if negb (status http_reply =? 200)
  then raise (RuntimeError (url +:+ ": HTTP error " +:+ pretty (status http_reply)))
  else
    content_type ← get_content_type http_reply;
    match truthy (guess_extension content_type) with
    | None =>
        raise (RuntimeError (url +:+ ": Unable to guess extension "
                             +:+ Text.dquote +:+ content_type +:+ Text.dquote))
    | Some extension =>
        let label := slugify (canvas_label canvas) in
        let filename := label +:+ extension in
        write_file filename (data http_reply);;
        let http_reply_size := Z.of_nat (length (data http_reply)) in
        mret http_reply_size
    end.

(** [__thread_main] from line 176 on: what the unit does with the reply
    of [pool.request]. *)
Definition save_image (canvas : Canvas) (http_reply : HTTPResponse) : M Z :=
  let url := image_id canvas in
  if negb (status http_reply =? 200)
  then raise (RuntimeError (url +:+ ": HTTP error " +:+ pretty (status http_reply)))
  else
    content_type ← get_content_type http_reply;
    match truthy (guess_extension content_type) with
    | None =>
        raise (RuntimeError (url +:+ ": Unable to guess extension "
                             +:+ Text.dquote +:+ content_type +:+ Text.dquote))
    | Some extension =>
        let label := slugify (canvas_label canvas) in
        let filename := label +:+ extension in
        write_file filename (data http_reply);;
        let http_reply_size := Z.of_nat (length (data http_reply)) in
        mret http_reply_size
    end.

(** [__thread_main] once [pool.request] is over: what the request raised
    is what the unit raises, and a reply is saved. *)
Definition after_request (canvas : Canvas) (reply : res HTTPResponse) : M Z :=
  http_reply ← lift reply;
  save_image canvas http_reply.

(** *** The executor and the pool *)

(** [self.__executor(max_workers)]: a new executor, nothing submitted to
    it.  [ThreadPoolExecutor] refuses a bound that is not positive. *)
Definition executor (max_workers : Z) : M unit := λ w,
  if max_workers <=? 0 then (Raise (LibraryError "ValueError"), w)
  else (Ok tt, World (files w) (log w) [] (pool_closed w)).

(** [self.__pool(maxsize)]: a new pool, open, with [block=True].  What is
    returned is the number of connections in its queue: [maxsize] of them,
    and none when [maxsize] is not positive.  A request takes one out of
    the queue and waits as long as there is none. *)
Definition pool (maxsize : Z) : M nat := λ w,
  (Ok (Z.to_nat maxsize), World (files w) (log w) (pending w) false).

(** [executor.submit(self.__thread_main, pool, i)], as far as the world
    goes: the work item is put at the end of the queue. *)
Definition submit (canvas : Canvas) : M unit := λ w,
  (Ok tt, World (files w) (log w ++ [Submit canvas]) (pending w ++ [canvas]) (pool_closed w)).

(** [work_queue.get()] in a worker: the oldest work item leaves the
    queue. *)
Definition get_work : M unit := λ w,
  (Ok tt, World (files w) (log w) (tail (pending w)) (pool_closed w)).

(** [_adjust_thread_count], called by [submit]: no thread is started when
    the semaphore of idle workers can be taken, nor when there are
    [max_workers] threads already. *)
Definition adjust_thread_count (max_workers : Z) (n_threads idle_semaphore : nat)
    : nat * nat :=
  match idle_semaphore with
  | S idle => (n_threads, idle)
  | O => if Z.of_nat n_threads <? max_workers then (S n_threads, O) else (n_threads, O)
  end.

(** The pool's [__exit__]: [pool.close()]. *)
Definition close_pool : M unit := λ w,
  (Ok tt, World (files w) (log w ++ [PoolClosed]) (pending w) true).

(** *** The threads of [run]

    [run] is run by several threads: the main thread, which goes through
    the body of [run], and the workers of the executor, each of which
    takes a work item from the queue, runs [__thread_main] on its canvas
    and sets the future.  One step is one thread doing the next thing
    that the other threads can notice; which thread takes the next step
    is not up to the program.

    A worker goes through [__thread_main] in these steps: it takes the
    item ([Started]); it calls [pool.request] ([Called]); the request
    looks at the pool, and is refused when the pool is closed, or else
    waits in the pool's queue ([Waiting]) until it gets a connection
    ([Holding]); the reply arrives and the connection goes back to the
    pool, unless the pool has been closed in between ([Replied]); the
    rest of [__thread_main] runs and the future is set ([Done]).  A
    request is one exchange over one connection. *)

Definition is_queued (ph : phase) : bool :=
  match ph with Queued => true | _ => false end.

Definition is_done (ph : phase) : bool :=
  match ph with Done _ => true | _ => false end.

(** A worker is at work on the unit. *)
Definition is_busy (ph : phase) : bool :=
  match ph with Queued | Done _ => false | _ => true end.

Definition is_holding (ph : phase) : bool :=
  match ph with Holding => true | _ => false end.

Fixpoint count (p : phase → bool) (fs : list (Canvas * phase)) : nat :=
  match fs with
  | [] => O
  | f :: fs' => ((if p f.2 then 1 else 0) + count p fs')%nat
  end.

Section threads.
Variable self : t.
Variables n_workers n_connections : Z.

(** The next step of the worker that has, or takes, the unit of future
    [i]. *)
Definition worker (i : nat) (c : config) : option config :=
  let 'Config w m fs ys idle nt sem := c in
  match fs !! i with
  | None => None
  | Some (canvas, ph) =>
      let url := image_id canvas in
      let become ph' := <[i := (canvas, ph')]> fs in
      match ph with
      | Queued =>
          (* the oldest item of the queue, and a thread that has nothing to do *)
          if forallb (λ f, negb (is_queued f.2)) (take i fs)
             && (count is_busy fs <? nt)%nat
          then Some (Config (snd (get_work w)) m (become Started) ys idle nt sem)
          else None
      | Started =>
          Some (Config (snd (emit (Request HTTPSConnectionPool url) w)) m
                       (become Called) ys idle nt sem)
      | Called =>
          if pool_closed w
          then Some (Config w m (become (Replied (https_request true url))) ys idle nt sem)
          else Some (Config w m (become Waiting) ys idle nt sem)
      | Waiting =>
          match idle with
          | O => None
          | S idle' => Some (Config w m (become Holding) ys idle' nt sem)
          end
      | Holding =>
          Some (Config w m (become (Replied (https_request false url))) ys
                       (if pool_closed w then idle else S idle) nt sem)
      | Replied reply =>
          let '(result, w') := after_request canvas reply w in
          Some (Config w' m (become (Done result)) ys idle nt (S sem))
      | Done _ => None
      end
  end.

(** One round of [for future in as_completed(future_img)], lines 218 to
    221, with future [i].  [as_completed] hands over the futures that were
    finished when it was called in no particular order, and the others as
    they finish; here it may hand over any finished future that it has
    not handed over yet, which covers both. *)
Definition as_completed (i : nat) (c : config) : option config :=
  let 'Config w m fs ys idle nt sem := c in
  match m with
  | Looping gallery_size not_yielded =>
      match fs !! i with
      | Some (canvas, Done result) =>
          if bool_decide (i ∈ not_yielded) then
            let w' := snd (emit Update w) in
            let m' := match result with
                      | Ok size =>
                          Looping (gallery_size + size) (filter (λ j, j ≠ i) not_yielded)
                      | Raise e => Leaving (Raise e)
                      end in
            Some (Config w' m' fs (ys ++ [i]) idle nt sem)
          else None
      | _ => None
      end
  | _ => None
  end.

(** The next statement of the main thread in [run], the loop apart. *)
Definition main_thread (c : config) : option config :=
  let 'Config w m fs ys idle nt sem := c in
  match m with
  | Entering =>
      (* [with self.__executor(n_workers) as executor, self.__pool(n_connections) as pool] *)
      match (executor n_workers;; pool n_connections) w with
      | (Ok idle', w') => Some (Config w' (Submitting (canvases self)) [] [] idle' 0 0)
      | (Raise e, w') => Some (Config w' (Returned (Raise e)) fs ys idle nt sem)
      end
  | Submitting (canvas :: rest) =>
      (* the next [executor.submit] of line 215 *)
      let '(nt', sem') := adjust_thread_count n_workers nt sem in
      Some (Config (snd (submit canvas w)) (Submitting rest)
                   (fs ++ [(canvas, Queued)]) ys idle nt' sem')
  | Submitting [] =>
      (* [progress.set_total(self.gallery_length)], then [gallery_size = 0] *)
      Some (Config (snd (emit (SetTotal (gallery_length self)) w))
                   (Looping 0 (seq 0 (length fs))) fs ys idle nt sem)
  | Looping gallery_size [] =>
      (* [return gallery_size] *)
      Some (Config w (Leaving (Ok gallery_size)) fs ys idle nt sem)
  | Looping _ (_ :: _) => None
  | Leaving outcome =>
      (* the pool's [__exit__]: the queue of the pool is emptied *)
      Some (Config (snd (close_pool w)) (Joining outcome) fs ys O nt sem)
  | Joining outcome =>
      (* the executor's [__exit__], [shutdown(wait=True)]: the workers go
         through all of the queue before they end *)
      if forallb (λ f, is_done f.2) fs
      then Some (Config (snd (emit ExecutorJoined w)) (Returned outcome) fs ys idle nt sem)
      else None
  | Returned _ => None
  end.

Definition fire (a : action) (c : config) : option config :=
  match a with
  | Statement => main_thread c
  | Yield i => as_completed i c
  | Work i => worker i c
  end.

(** The steps of a schedule, one after the other; there is no result when
    one of them cannot be taken. *)
Fixpoint exec (schedule : list action) (c : config) : option config :=
  match schedule with
  | [] => Some c
  | a :: schedule' => fire a c ≫= exec schedule'
  end.

End threads.

(** [run] is called. *)
Definition call (w : world) : config := Config w Entering [] [] 0 0 0.

(** [run], with the threads taking their steps as [schedule] says: what
    [run] returns or raises and the world it leaves, when the schedule
    takes it that far. *)
Definition run (self : t) (n_workers n_connections : Z) (schedule : list action)
    (w : world) : option (res Z * world) :=
  c ← exec self n_workers n_connections schedule (call w);
  match main c with
  | Returned outcome => Some (outcome, now c)
  | _ => None
  end.

(** [save_csv_file]: the header and the rows, written by [csv.writer]
    with the semicolon as delimiter, to a file opened with [newline='']
    and encoded as UTF-8. *)
Definition save_csv_file (filename : string) (header : list string)
    (body : list (list string)) : M unit :=
  write_file filename (Csv.utf8 (Csv.writerows (header :: body))).

(** [run_cli]: [run] with the progress bar of tqdm, whose [reset] takes
    the total and whose [update] takes a tick. *)
Definition run_cli (self : t) (n_workers n_connections : Z) (schedule : list action)
    (w : world) : option (res Z * world) :=
  run self n_workers n_connections schedule w.

(** [gallery_info]: the dictionary, as the list of its items in the order
    of insertion.  The values are computed in that order. *)
Definition gallery_info (self : t) : M (list (string * string)) :=
  subtitles ← get_metadata_content (manifest self) "Titolo";
  category ← get_metadata_content (manifest self) "Tipologia";
  director ← get_metadata_content (manifest self) "Datazione";
  comments ← get_metadata_content (manifest self) "Contesto archivistico";
  actors ← get_metadata_content (manifest self) "Conservato da";
  mret [("url", url self); ("subtitles", subtitles); ("category", category);
        ("director", director); ("comments", comments); ("actors", actors)]%string.

(** [' ' * n] *)
Fixpoint spaces (n : nat) : string :=
  match n with
  | O => EmptyString
  | S n' => String " " (spaces n')
  end.

(** [f'{s:<25}']: [s], filled with spaces on the right up to the width;
    a longer [s] is left as it is. *)
Definition ljust (width : nat) (s : string) : string :=
  s +:+ spaces (width - String.length s).

(** [print_gallery_info]: the lines it prints. *)
Definition print_gallery_info (self : t) : list string :=
  ((λ i, ljust 25 (label i) +:+ value i) <$> metadata (manifest self))
  ++ [pretty (gallery_length self) +:+ " images found."].

(** The table [main] hands to [save_csv_file]: [p1] and [body2], then the
    header, for which [gallery_info] is called again, and the body. *)
Definition info_table (self : t) : M (list string * list (list string)) :=
  info ← gallery_info self;
  let p1 := snd <$> info in
  let body2 := (λ x, [slugify (canvas_label x); image_id x]) <$> canvases self in
  info' ← gallery_info self;
  let header := (fst <$> info') ++ ["mediatype"; "Languages"]%string in
  let body := (λ p2, p1 ++ p2) <$> body2 in
  mret (header, body).

End with_platform.

End AntenatiDownloader.

(** ** The failures, by the names the specification gives them *)

Definition MalformedLocator (url : string) : exn :=
  RuntimeError ("Cannot get archive ID from " +:+ url).

Definition UpstreamError (url : string) (status : Z) : exn :=
  RuntimeError (url +:+ ": HTTP error " +:+ pretty status).

Definition MetadataFieldMissing (lbl : string) : exn :=
  RuntimeError ("Cannot get " +:+ lbl +:+ " from manifest").

Definition UnknownContentType (url raw : string) : exn :=
  RuntimeError (url +:+ ": Unable to guess extension " +:+ Text.dquote +:+ raw +:+ Text.dquote).

(** ** python-slugify *)

Module Slugify.

Import Text.

Definition is_dash (c : ascii) : bool := (code c =? 45)%N.

(** ASCII letters, digits and the hyphen *)
Definition is_allowed (c : ascii) : bool :=
  isupper c || islower c || isdigit c || is_dash c.

Definition lower_char (c : ascii) : ascii :=
  if isupper c then ascii_of_N (code c + 32) else c.

Fixpoint map_chars (f : ascii → ascii) (s : string) : string :=
  match s with
  | EmptyString => EmptyString
  | String c s' => String (f c) (map_chars f s')
  end.

Fixpoint concat_map (f : ascii → string) (s : string) : string :=
  match s with
  | EmptyString => EmptyString
  | String c s' => f c +:+ concat_map f s'
  end.

(** Every maximal run of characters that are not allowed becomes one
    hyphen. *)
Fixpoint replace_disallowed (in_run : bool) (s : string) : string :=
  match s with
  | EmptyString => EmptyString
  | String c s' =>
      if is_allowed c then String c (replace_disallowed false s')
      else if in_run then replace_disallowed true s'
      else String "-" (replace_disallowed true s')
  end.

(** Two or more hyphens in a row become one. *)
Fixpoint collapse_dashes (after_dash : bool) (s : string) : string :=
  match s with
  | EmptyString => EmptyString
  | String c s' =>
      if is_dash c then
        if after_dash then collapse_dashes true s'
        else String c (collapse_dashes true s')
      else String c (collapse_dashes false s')
  end.

Fixpoint lstrip_dashes (s : string) : string :=
  match s with
  | EmptyString => EmptyString
  | String c s' => if is_dash c then lstrip_dashes s' else s
  end.

Fixpoint rstrip_dashes (s : string) : string :=
  match s with
  | EmptyString => EmptyString
  | String c s' =>
      match rstrip_dashes s' with
      | EmptyString => if is_dash c then EmptyString else String c EmptyString
      | r => String c r
      end
  end.

Definition strip_dashes (s : string) : string := rstrip_dashes (lstrip_dashes s).

Section with_transliteration.

(** The ASCII rendering of one character (unidecode's table). *)
Variable transliterate : ascii → string.

(** Modelled from the spec: [slugify.slugify] of the python-slugify
    package, which the repository imports and does not contain.  The
    specification describes it as transliterating a label to ASCII,
    folding case, and normalising separators, with a result made of
    ASCII letters, digits and hyphens only: every character is
    transliterated, the text is lower-cased, each run of other
    characters becomes a hyphen, repeated hyphens become one, and
    hyphens at both ends are removed. *)
Definition slugify (text : string) : string :=
  let text := concat_map transliterate text in
  let text := map_chars lower_char text in
  let text := replace_disallowed false text in
  strip_dashes (collapse_dashes false text).

End with_transliteration.

(** What a slug looks like: lower-case letters, digits and single
    hyphens, none of them at either end. *)
Definition is_slug_char (c : ascii) : bool := islower c || isdigit c || is_dash c.

Fixpoint no_double_dash (after_dash : bool) (s : string) : bool :=
  match s with
  | EmptyString => true
  | String c s' =>
      if is_dash c then negb after_dash && no_double_dash true s'
      else no_double_dash false s'
  end.

Definition starts_with_dash (s : string) : bool :=
  match s with
  | String c _ => is_dash c
  | EmptyString => false
  end.

Fixpoint ends_with_dash (s : string) : bool :=
  match s with
  | EmptyString => false
  | String c EmptyString => is_dash c
  | String _ s' => ends_with_dash s'
  end.

Definition is_slug (s : string) : bool :=
  all_chars is_slug_char s && no_double_dash false s &&
  negb (starts_with_dash s) && negb (ends_with_dash s).

End Slugify.

(** ** The Python standard library, where an example needs it *)

Module CPython.

Import Text.

(** [str.lower()] below code point 256: A-Z, and the capital letters of
    Latin-1 (all of 192..222 but the multiplication sign). *)
Definition lower_char (c : ascii) : ascii :=
  if isupper c || in_range 192 214 c || in_range 216 222 c
  then ascii_of_N (code c + 32) else c.

Definition lower (s : string) : string := Slugify.map_chars lower_char s.

(** White space for [str.strip()] below code point 256. *)
Definition is_space (c : ascii) : bool :=
  in_range 9 13 c || in_range 28 32 c || (code c =? 133)%N || (code c =? 160)%N.

Fixpoint lstrip (s : string) : string :=
  match s with
  | EmptyString => EmptyString
  | String c s' => if is_space c then lstrip s' else s
  end.

Fixpoint rstrip (s : string) : string :=
  match s with
  | EmptyString => EmptyString
  | String c s' =>
      match rstrip s' with
      | EmptyString => if is_space c then EmptyString else String c EmptyString
      | r => String c r
      end
  end.

(** [s.partition(';')[0]] *)
Fixpoint before_semicolon (s : string) : string :=
  match s with
  | EmptyString => EmptyString
  | String c s' => if (code c =? 59)%N then EmptyString else String c (before_semicolon s')
  end.

Fixpoint count_slash (s : string) : nat :=
  match s with
  | EmptyString => 0%nat
  | String c s' => ((if (code c =? 47)%N then 1 else 0) + count_slash s')%nat
  end.

(** [email.message.Message.get_content_type] for a message whose
    Content-Type is [v]: the text before the first semicolon, stripped
    and lower-cased, or [text/plain] when that has not one slash. *)
Definition get_content_type (v : string) : string :=
  let ctype := lower (rstrip (lstrip (before_semicolon v))) in
  if (count_slash ctype =? 1)%nat then ctype else "text/plain".

(** Entries of [mimetypes.types_map], in the order of the table:
    all those of the media types named here. *)
Definition types_map : list (string * string) :=
  [ (".json", "application/json");
    (".bin", "application/octet-stream");
    (".a", "application/octet-stream");
    (".dll", "application/octet-stream");
    (".exe", "application/octet-stream");
    (".o", "application/octet-stream");
    (".obj", "application/octet-stream");
    (".so", "application/octet-stream");
    (".pdf", "application/pdf");
    (".gif", "image/gif");
    (".jpg", "image/jpeg");
    (".jpe", "image/jpeg");
    (".jpeg", "image/jpeg");
    (".png", "image/png");
    (".tiff", "image/tiff");
    (".tif", "image/tiff");
    (".html", "text/html");
    (".htm", "text/html") ]%string.

(** [mimetypes.guess_extension(type)]: the first extension the table
    lists for the type. *)
Definition guess_extension (type : string) : option string :=
  fst <$> find (λ entry, String.eqb (snd entry) (lower type)) types_map.

End CPython.

(** ** A gallery to run the program on *)

Module Example.

Import Byte.

Definition nl : string := String (ascii_of_N 10) EmptyString.

Definition landing_url : string :=
  "https://antenati.cultura.gov.it/ark:/12657/an_ua19944535/w9DWR8x".

Definition manifest_url : string :=
  "https://dam-antenati.cultura.gov.it/antenati/containers/w9DWR8x/manifest".

Definition landing_page : string :=
  "<script>" +:+ nl +:+
  "  let mirador = Mirador.viewer({" +:+ nl +:+
  "    manifestId: '" +:+ manifest_url +:+ "'," +:+ nl +:+
  "  });" +:+ nl +:+
  "</script>" +:+ nl.

Definition manifest_text : string := "{...}".

Definition image_url (page : string) : string :=
  "https://iiif-antenati.cultura.gov.it/iiif/2/" +:+ page +:+ "/full/full/0/default.jpg".

Definition page (n : string) : Canvas :=
  {| canvas_label := "Pagina " +:+ n; image_id := image_url n |}.

Definition gallery : Manifest :=
  {| metadata :=
       [ {| label := "Titolo"; value := "Registro 1810" |};
         {| label := "Tipologia"; value := "Nati" |};
         {| label := "Contesto archivistico"; value := "Stato civile napoleonico > Firenze" |};
         {| label := "Datazione"; value := "1810" |};
         {| label := "Conservato da"; value := "Archivio di Stato di Firenze" |} ];
     sequence_canvases := [page "1"; page "2"; page "3"] |}.

(** The pages of the example are ASCII text: one byte per character,
    whatever the charset, and decoding needs a charset to be named. *)
Definition encode_ascii (s : string) : bytes := list_byte_of_string s.

Definition decode_ascii (charset : option string) (b : bytes) : res string :=
  match charset with
  | Some _ => Ok (string_of_list_byte b)
  | None => Raise (LibraryError "TypeError")
  end.

Definition html (text : string) : HTTPResponse :=
  {| status := 200; content_type_header := Some "text/html; charset=utf-8"%string;
     data := encode_ascii text |}.

Definition json (text : string) : HTTPResponse :=
  {| status := 200; content_type_header := Some "application/json;charset=UTF-8"%string;
     data := encode_ascii text |}.

Definition ten_bytes : bytes := [xff; xd8; xff; xe0; x00; x10; x4a; x46; x49; x46].

Definition image (content_type : string) : HTTPResponse :=
  {| status := 200; content_type_header := Some content_type; data := ten_bytes |}.

Definition error (code : Z) : HTTPResponse :=
  {| status := code; content_type_header := Some "text/html"%string; data := [] |}.

(** unidecode, on the few accented letters of the labels *)
Definition transliterate (c : ascii) : string :=
  let n := Text.code c in
  if (n <? 128)%N then String c EmptyString
  else if (n =? 224)%N then "a"
  else if (n =? 232)%N || (n =? 233)%N then "e"
  else if (n =? 236)%N then "i"
  else if (n =? 242)%N then "o"
  else if (n =? 249)%N then "u"
  else EmptyString.

(** The libraries, over a server for the portal ([manager]) and one for the
    image host ([https], which is told whether the pool was closed). *)
Definition platform (manager : string → res HTTPResponse)
    (https : bool → string → res HTTPResponse) : Platform :=
  {| manager_request := manager;
     https_request := https;
     message_content_type := CPython.get_content_type;
     message_content_charset := λ _, Some "utf-8"%string;
     decode := decode_ascii;
     loads := λ text, if String.eqb text manifest_text then Ok gallery
                      else Raise (LibraryError "JSONDecodeError");
     guess_extension := CPython.guess_extension;
     slugify := Slugify.slugify transliterate |}.

(** The portal: the landing page, then the manifest, answered with
    [manifest_status]. *)
Definition portal (manifest_status : Z) (url : string) : res HTTPResponse :=
  if String.eqb url landing_url then Ok (html landing_page)
  else if String.eqb url manifest_url then
    Ok (if manifest_status =? 200 then json manifest_text else error manifest_status)
  else Ok (error 404).

(** The image host: every page is a ten-byte image of type [content_type],
    except [missing], which is not found.  A closed pool refuses. *)
Definition image_host (content_type : string) (missing : string)
    (closed : bool) (url : string) : res HTTPResponse :=
  if closed then Raise (LibraryError "ClosedPoolError")
  else if String.eqb url (image_url missing) then Ok (error 404)
  else Ok (image content_type).

Definition cpython (content_type missing : string) : Platform :=
  platform (portal 200) (image_host content_type missing).

(** A downloader over the three pages, as [__init__] leaves it. *)
Definition downloader (pages : list Canvas) : AntenatiDownloader.t :=
  {| AntenatiDownloader.url := landing_url;
     AntenatiDownloader.archive_id := "19944535";
     AntenatiDownloader.manifest := gallery;
     AntenatiDownloader.canvases := pages;
     AntenatiDownloader.dirname := "stato-civile-napoleonico-firenze-registro-1810-nati-19944535";
     AntenatiDownloader.gallery_length := Z.of_nat (length pages) |}.

(** An empty working directory and nothing done yet. *)
Definition start : world :=
  {| files := ∅; log := []; pending := []; pool_closed := false |}.

End Example.

(** ** Notions the statements use *)

Section notions.
Import AntenatiDownloader.
Context `{Platform}.

(** The unit of [canvas] returns [size], or raises [e], whenever it runs
    on an open pool. *)
Definition returns (canvas : Canvas) (size : Z) : Prop :=
  ∀ w, pool_closed w = false → fst (thread_main canvas w) = Ok size.

Definition raises (canvas : Canvas) (e : exn) : Prop :=
  ∀ w, pool_closed w = false → fst (thread_main canvas w) = Raise e.

(** The unit of [canvas] writes [content] to [filename]. *)
Definition writes (canvas : Canvas) (filename : string) (content : bytes) : Prop :=
  ∀ w, pool_closed w = false →
       files (snd (thread_main canvas w)) = <[filename := content]> (files w).

(** The media type is one the extension table does not know. *)
Definition no_extension (content_type : string) : Prop :=
  truthy (guess_extension content_type) = None.

End notions.

Definition total (sizes : list Z) : Z := foldr Z.add 0 sizes.

(** The progress sink is initialised before any unit is scheduled: in the
    log, every [SetTotal] comes before every [Submit]. *)
Definition sink_initialised_before_scheduling (l : list event) : Prop :=
  ∀ i j total canvas,
    l !! i = Some (SetTotal total) → l !! j = Some (Submit canvas) → (i < j)%nat.

Definition is_submit (ev : event) : bool :=
  match ev with Submit _ => true | _ => false end.

Definition is_set_total (ev : event) : bool :=
  match ev with SetTotal _ => true | _ => false end.

Definition is_request (ev : event) : bool :=
  match ev with Request _ _ => true | _ => false end.

(** ** Notions about the threads of [run] *)

Section executions.
Import AntenatiDownloader.
Context `{Platform}.
Variable self : t.
Variables n_workers n_connections : Z.

(** Some thread takes a step. *)
Definition step (c c' : config) : Prop :=
  ∃ a, fire self n_workers n_connections a c = Some c'.

(** No thread can take a step: [run] has returned, or it never will. *)
Definition halted (c : config) : Prop :=
  ∀ a, fire self n_workers n_connections a c = None.

(** The same, computed: it is enough to try the main thread and every
    future. *)
Definition is_halted (c : config) : bool :=
  forallb (λ a, bool_decide (fire self n_workers n_connections a c = None))
          (Statement :: (Yield <$> seq 0 (length (future_img c)))
                     ++ (Work <$> seq 0 (length (future_img c)))).

(** How many steps a unit in this phase has before it. *)
Definition rank (ph : phase) : nat :=
  match ph with
  | Queued => 6
  | Started => 5
  | Called => 4
  | Waiting => 3
  | Holding => 2
  | Replied _ => 1
  | Done _ => 0
  end.

Fixpoint work_left (fs : list (Canvas * phase)) : nat :=
  match fs with
  | [] => O
  | f :: fs' => (rank f.2 + work_left fs')%nat
  end.

(** A bound on the steps that are left. *)
Definition steps_left (c : config) : nat :=
  (work_left (future_img c) +
   match main c with
   | Entering => 8 * length (canvases self) + 5
   | Submitting rest => 8 * length rest + length (future_img c) + 4
   | Looping _ not_yielded => length not_yielded + 3
   | Leaving _ => 2
   | Joining _ => 1
   | Returned _ => 0
   end)%nat.

(** The future holds what the unit of [canvas] gives on an open pool. *)
Definition settled (canvas : Canvas) (result : res Z) : Prop :=
  match result with
  | Ok size => returns canvas size
  | Raise e => raises canvas e
  end.

(** A unit that went through the open pool: its reply is the one of the
    open pool, and when it is done its future is settled and the file
    it had to write is there. *)
Definition went_well (fs : gmap string bytes) (f : Canvas * phase) : Prop :=
  match f.2 with
  | Replied reply => reply = https_request false (image_id f.1)
  | Done result =>
      settled f.1 result ∧
      ∀ name content, writes f.1 name content → is_Some (fs !! name)
  | _ => True
  end.

(** The future [i] is done and its unit went through the open pool. *)
Definition handed (fs : list (Canvas * phase)) (fl : gmap string bytes) (i : nat) : Prop :=
  ∃ canvas result, fs !! i = Some (canvas, Done result) ∧ went_well fl (canvas, Done result).

(** A worker is in the middle of a unit and needs nothing to go on. *)
Definition is_running (ph : phase) : bool :=
  match ph with
  | Started | Called | Holding | Replied _ => true
  | _ => false
  end.

Definition is_waiting (ph : phase) : bool :=
  match ph with Waiting => true | _ => false end.

(** The unit has called [pool.request]. *)
Definition has_called (ph : phase) : bool :=
  match ph with
  | Queued | Started => false
  | _ => true
  end.

Definition request_of (f : Canvas * phase) : list event :=
  if has_called f.2 then [Request HTTPSConnectionPool (image_id f.1)] else [].

(** The requests of the units that have called the pool, in the order of
    the canvas list. *)
Definition requests_of (fs : list (Canvas * phase)) : list event :=
  flat_map request_of fs.

(** The futures [js] are done and hold a size. *)
Definition all_ok (fs : list (Canvas * phase)) (js : list nat) : Prop :=
  Forall (λ j, ∃ canvas size, fs !! j = Some (canvas, Done (Ok size))) js.

(** What the loop has met: nothing yet, no failure so far, or the failure
    it was left with. *)
Definition met (m : pc) : option (option exn) :=
  match m with
  | Entering | Submitting _ => None
  | Looping _ _ => Some None
  | Leaving r | Joining r | Returned r =>
      match r with
      | Ok _ => Some None
      | Raise e => Some (Some e)
      end
  end.

(** The futures handed over all hold a size, but for the last one when
    the loop was left with what that future raised. *)
Definition yields_ok (fs : list (Canvas * phase)) (ys : list nat) (o : option exn) : Prop :=
  match o with
  | None => all_ok fs ys
  | Some e =>
      ∃ done i canvas,
        ys = done ++ [i] ∧ fs !! i = Some (canvas, Done (Raise e)) ∧ all_ok fs done
  end.

(** *** What every step of [run] keeps *)

(** Where the main thread is tells what has been submitted and whether
    the pool is open. *)
Definition shape (c : config) : Prop :=
  match main c with
  | Entering => future_img c = []
  | Submitting rest =>
      (future_img c).*1 ++ rest = canvases self ∧ pool_closed (now c) = false ∧
      yielded c = []
  | Looping _ not_yielded =>
      (future_img c).*1 = canvases self ∧ pool_closed (now c) = false ∧
      (∀ i, i ∈ not_yielded → i < length (future_img c))%nat
  | Leaving _ => (future_img c).*1 = canvases self ∧ pool_closed (now c) = false
  | Joining _ | Returned _ => (future_img c).*1 = canvases self ∧ pool_closed (now c) = true
  end.

(** The run of an empty gallery, step by step. *)
Definition empty_run (w : world) (c : config) : Prop :=
  future_img c = [] ∧ yielded c = [] ∧ files (now c) = files w ∧ pending (now c) = [] ∧
  match main c with
  | Entering => False
  | Submitting rest => rest = [] ∧ log (now c) = log w ∧ pool_closed (now c) = false
  | Looping gallery_size not_yielded =>
      gallery_size = 0 ∧ not_yielded = [] ∧
      log (now c) = log w ++ [SetTotal 0] ∧ pool_closed (now c) = false
  | Leaving outcome =>
      outcome = Ok 0 ∧ log (now c) = log w ++ [SetTotal 0] ∧ pool_closed (now c) = false
  | Joining outcome =>
      outcome = Ok 0 ∧ log (now c) = log w ++ [SetTotal 0; PoolClosed] ∧
      pool_closed (now c) = true
  | Returned outcome =>
      outcome = Ok 0 ∧ log (now c) = log w ++ [SetTotal 0; PoolClosed; ExecutorJoined] ∧
      pool_closed (now c) = true
  end.

(** What the main thread has logged, by where it is. *)
Definition main_log (c : config) : list event :=
  match main c with
  | Entering => []
  | Submitting rest => Submit <$> (future_img c).*1
  | Looping _ _ | Leaving _ =>
      (Submit <$> canvases self) ++
      SetTotal (gallery_length self) :: replicate (length (yielded c)) Update
  | Joining _ =>
      (Submit <$> canvases self) ++
      SetTotal (gallery_length self) :: replicate (length (yielded c)) Update ++ [PoolClosed]
  | Returned _ =>
      (Submit <$> canvases self) ++
      SetTotal (gallery_length self) :: replicate (length (yielded c)) Update ++
      [PoolClosed; ExecutorJoined]
  end.

(** As long as the pool is open, every connection is in its queue or
    with a unit. *)
Definition connections_kept (c : config) : Prop :=
  main c ≠ Entering →
  pool_closed (now c) = false →
  (idle_connections c + count is_holding (future_img c))%nat = Z.to_nat n_connections.

(** Once something is submitted there is a worker thread. *)
Definition threads_started (c : config) : Prop :=
  main c ≠ Entering →
  (future_img c = [] → n_threads c = O ∧ idle_semaphore c = O) ∧
  (future_img c ≠ [] → (1 ≤ n_threads c)%nat).

(** While the pool is open every unit went through the open pool, and so
    did every unit whose future has been handed over. *)
Definition futures_well (c : config) : Prop :=
  main c ≠ Entering →
  (pool_closed (now c) = false → Forall (went_well (files (now c))) (future_img c)) ∧
  Forall (handed (future_img c) (files (now c))) (yielded c).

(** The loop keeps the sum: what it has added up and what the futures it
    still waits for will give is the total of [sizes]. *)
Definition loop_kept (sizes : list Z) (c : config) : Prop :=
  (∀ g pend, main c = Looping g pend →
     NoDup pend ∧
     g + total ((λ i, sizes !!! i) <$> pend) = total sizes ∧
     (length (yielded c) + length pend)%nat = length (future_img c) ∧
     ∀ i, (i < length (future_img c))%nat → i ∈ pend ∨ i ∈ yielded c) ∧
  (∀ r, main c = Leaving r ∨ main c = Joining r ∨ main c = Returned r →
     r = Ok (total sizes) ∧
     length (yielded c) = length (future_img c) ∧
     ∀ i, (i < length (future_img c))%nat → i ∈ yielded c).

(** What the loop has been handed is as [yields_ok] says, and where [run]
    has returned every unit has come to its end and the executor was
    joined last. *)
Definition yields_kept (c : config) : Prop :=
  (∀ o, met (main c) = Some o → yields_ok (future_img c) (yielded c) o) ∧
  (∀ r, main c = Returned r →
     Forall (λ f, is_done f.2 = true) (future_img c) ∧
     last (log (now c)) = Some ExecutorJoined).

(** Once the unit of page [i] is done on the open pool, and from when its
    future is handed over, the file holds what the unit wrote. *)
Definition page_kept (i : nat) (canvas : Canvas) (name : string) (content : bytes)
    (c : config) : Prop :=
  (pool_closed (now c) = false →
   ∀ result, future_img c !! i = Some (canvas, Done result) →
             files (now c) !! name = Some content) ∧
  (i ∈ yielded c → files (now c) !! name = Some content).

End executions.

(** The events of the main thread and those of the workers. *)
Definition main_events (l : list event) : list event :=
  List.filter (λ ev, negb (is_request ev)) l.

Definition worker_events (l : list event) : list event :=
  List.filter is_request l.

(** ** The remaining failures of the discovery, by the names of the specification *)

Definition ManifestNotFound (url : string) : exn :=
  RuntimeError ("No IIIF manifest found at " +:+ url).

Definition MalformedManifestLine (url : string) : exn :=
  RuntimeError ("Invalid IIIF manifest line found at " +:+ url).

(** ** More servers to run the program against *)

Module Cases.

Import Example.

(** A portal that answers the landing page with [page] and knows nothing
    else. *)
Definition portal_with (page : HTTPResponse) (url : string) : res HTTPResponse :=
  if String.eqb url landing_url then Ok page else Ok (error 404).

Definition images : bool → string → res HTTPResponse := image_host "image/jpeg" "".

(** An image host that does not name the type of what it sends. *)
Definition untyped_host (closed : bool) (url : string) : res HTTPResponse :=
  Ok {| status := 200; content_type_header := None; data := ten_bytes |}.

(** An image host that cannot be reached. *)
Definition unreachable_host (closed : bool) (url : string) : res HTTPResponse :=
  Raise (LibraryError "MaxRetryError").

(** A page with the marker and no quoted locator on its line. *)
Definition page_without_locator : string :=
  "<script>" +:+ nl +:+ "    manifestId: undefined," +:+ nl +:+ "</script>" +:+ nl.

(** A gallery whose manifest says neither when the register was made nor
    who keeps it. *)
Definition sparse_gallery : Manifest :=
  {| metadata :=
       [ {| label := "Titolo"; value := "Registro 1810" |};
         {| label := "Tipologia"; value := "Nati" |};
         {| label := "Contesto archivistico"; value := "Stato civile" |} ];
     sequence_canvases := [] |}.

(** The portal of the example, serving [sparse_gallery] with three pages. *)
Definition sparse_pages : Manifest :=
  {| metadata := metadata sparse_gallery;
     sequence_canvases := [page "1"; page "2"; page "3"] |}.

Definition sparse_platform : Platform :=
  {| manager_request := portal 200;
     https_request := images;
     message_content_type := CPython.get_content_type;
     message_content_charset := λ _, Some "utf-8"%string;
     decode := decode_ascii;
     loads := λ _, Ok sparse_pages;
     guess_extension := CPython.guess_extension;
     slugify := Slugify.slugify transliterate |}.

End Cases.

(** ** Some executions of [run] *)

Module Schedules.

Import AntenatiDownloader Example.

Definition three_pages : list Canvas := [page "1"; page "2"; page "3"].

Definition six_pages : list Canvas :=
  [page "1"; page "2"; page "3"; page "4"; page "5"; page "6"].

(** A unit from the queue to its end, with no other thread in between:
    it is taken from the queue, calls the pool, waits for a connection,
    gets it, gets its reply, and saves the image. *)
Definition whole_unit (i : nat) : list action := replicate 6 (Work i).

(** One page: the main thread enters the block, submits the page and
    initialises the sink; the unit runs; its future is handed over; the
    main thread leaves the loop, closes the pool and joins the executor. *)
Definition one_page : list action :=
  replicate 3 Statement ++ whole_unit 0 ++ [Yield 0%nat] ++ replicate 3 Statement.

(** Three pages, one unit after the other, all done before the main
    thread looks at the futures, which it is given in the order 3, 1, 2. *)
Definition out_of_order : list action :=
  replicate 5 Statement ++ whole_unit 0 ++ whole_unit 1 ++ whole_unit 2 ++
  [Yield 2; Yield 0; Yield 1]%nat ++ replicate 3 Statement.

(** Three pages of which the second is handed over as soon as it has
    failed: the main thread closes the pool, the third unit runs into the
    closed pool, and the executor is joined. *)
Definition second_fails : list action :=
  replicate 5 Statement ++ whole_unit 0 ++ [Yield 0%nat] ++ whole_unit 1 ++
  [Yield 1%nat; Statement] ++ replicate 4 (Work 2) ++ [Statement].

(** Six pages, eight workers and four connections.  The first four units
    get the four connections; the fifth waits for one; the first unit
    gets its reply and gives its connection back, the fifth takes it; the
    sixth waits; the first unit fails and its future is handed over; the
    main thread closes the pool; the units that hold a connection come to
    their end, and their connections are discarded. *)
Definition sixth_waits : list action :=
  replicate 8 Statement ++
  replicate 4 (Work 0) ++ replicate 4 (Work 1) ++ replicate 4 (Work 2) ++
  replicate 4 (Work 3) ++ replicate 3 (Work 4) ++
  [Work 0; Work 4]%nat ++ replicate 3 (Work 5) ++
  [Work 0; Yield 0; Statement]%nat ++
  [Work 1; Work 1; Work 2; Work 2; Work 3; Work 3; Work 4; Work 4]%nat.

End Schedules.

(** * Verification *)

Section text_facts.
Import Text.

Lemma append_nil s : "" +:+ s = s.
Proof. reflexivity. Qed.

Lemma append_cons c s t : String c s +:+ t = String c (s +:+ t).
Proof. reflexivity. Qed.

Lemma app_snoc run c s : snoc run c +:+ s = run +:+ String c s.
Proof.
  unfold snoc. induction run as [|a run IH]; [done|].
  rewrite !append_cons. by f_equal.
Qed.

Lemma app_empty_r s : s +:+ "" = s.
Proof. induction s as [|a s IH]; [done|]. rewrite append_cons. by f_equal. Qed.

Lemma app_assoc' a b c : (a +:+ b) +:+ c = a +:+ (b +:+ c).
Proof. induction a as [|x a IH]; [done|]. rewrite !append_cons. by f_equal. Qed.

Lemma scan_no_digit s :
  all_chars (λ c, negb (isdigit c)) s = true → scan_digits "" s = [].
Proof.
  unfold all_chars. induction s as [|c s IH]; simpl; [done|].
  intros [Hc Hs]%andb_prop. apply negb_true_iff in Hc. rewrite Hc. simpl. auto.
Qed.

Lemma scan_skip pre s :
  all_chars (λ c, negb (isdigit c)) pre = true →
  scan_digits "" (pre +:+ s) = scan_digits "" s.
Proof.
  unfold all_chars. induction pre as [|c pre IH]; simpl; [done|].
  intros [Hc Hs]%andb_prop. apply negb_true_iff in Hc.
  rewrite Hc. auto.
Qed.

Lemma scan_token tok : ∀ run s,
  all_chars isdigit tok = true →
  scan_digits run (tok +:+ s) = scan_digits (run +:+ tok) s.
Proof.
  unfold all_chars. induction tok as [|c tok IH]; simpl; intros run s H.
  - by rewrite append_nil, app_empty_r.
  - apply andb_prop in H as [Hc Hs].
    rewrite Hc, IH by done. by rewrite app_snoc.
Qed.

Lemma scan_close run rest :
  run ≠ ""%string → starts_with_digit rest = false →
  scan_digits run rest = run :: scan_digits "" rest.
Proof.
  intros Hrun Hrest. destruct rest as [|c rest]; simpl in *.
  - by destruct run.
  - rewrite Hrest. by destruct run.
Qed.

(** The scanner computes the digit runs. *)
Lemma findall_digits_runs s toks : digit_runs s toks → findall_digits s = toks.
Proof.
  unfold findall_digits. induction 1 as [s H|pre tok rest toks Hpre Hne Htok Hrest _ IH].
  - by apply scan_no_digit.
  - rewrite scan_skip, scan_token by done. rewrite append_nil.
    rewrite scan_close by done. by rewrite IH.
Qed.

Lemma all_chars_cons p c s : all_chars p (String c s) = p c && all_chars p s.
Proof. reflexivity. Qed.

Lemma all_chars_app p s t : all_chars p (s +:+ t) = all_chars p s && all_chars p t.
Proof.
  induction s as [|c s IH]; [done|].
  rewrite append_cons, !all_chars_cons, IH. by rewrite andb_assoc.
Qed.

Lemma digit_runs_skip c s toks :
  isdigit c = false → digit_runs s toks → digit_runs (String c s) toks.
Proof.
  intros Hc [s' Hs|pre tok rest toks' Hpre Hne Htok Hrest Hruns].
  - apply runs_done. by rewrite all_chars_cons, Hc, Hs.
  - rewrite <- append_cons. apply runs_token; try done.
    by rewrite all_chars_cons, Hc, Hpre.
Qed.

Lemma digit_runs_scan s :
  digit_runs s (scan_digits "" s) ∧
  ∀ run, run ≠ ""%string → all_chars isdigit run = true →
         digit_runs (run +:+ s) (scan_digits run s).
Proof.
  induction s as [|c s [IH0 IH]].
  - split; [by apply runs_done|]. intros run Hne Hrun. simpl.
    destruct run as [|a run]; [done|]. simpl.
    change (digit_runs ("" +:+ String a run +:+ "") [String a run]).
    apply runs_token; try done. by apply runs_done.
  - destruct (isdigit c) eqn:Hc.
    + assert (Hsnoc : ∀ run, all_chars isdigit run = true →
                digit_runs (run +:+ String c s) (scan_digits (snoc run c) s)).
      { intros run Hrun. rewrite <- app_snoc. apply IH.
        - unfold snoc. by destruct run.
        - unfold snoc. by rewrite all_chars_app, Hrun, all_chars_cons, Hc. }
      split.
      * simpl. rewrite Hc. by apply (Hsnoc "").
      * intros run _ Hrun. simpl. rewrite Hc. by apply Hsnoc.
    + assert (H0 : digit_runs (String c s) (scan_digits "" s))
        by by apply digit_runs_skip.
      split.
      * simpl. by rewrite Hc.
      * intros run Hne Hrun. simpl. rewrite Hc.
        destruct run as [|a run]; [done|]. simpl.
        change (digit_runs ("" +:+ String a run +:+ String c s)
                  (String a run :: scan_digits "" s)).
        apply runs_token; try done; simpl; by rewrite Hc.
Qed.

(** Every string has its digit runs, and the scanner finds them. *)
Lemma digit_runs_findall s : digit_runs s (findall_digits s).
Proof. apply digit_runs_scan. Qed.

End text_facts.

Section text_examples.
Import Text.

Example findall_digits_locator :
  findall_digits "https://antenati.cultura.gov.it/ark:/12657/an_ua19944535/w9DWR8x"
    = ["12657"; "19944535"; "9"; "8"]%string.
Proof. reflexivity. Qed.

Example findall_digits_edges :
  findall_digits "" = [] ∧ findall_digits "abc" = [] ∧
  findall_digits "2022" = ["2022"%string] ∧
  findall_digits "a1b" = ["1"%string] ∧
  findall_digits "007/x/42" = ["007"; "42"]%string.
Proof. by repeat split. Qed.

Example splitlines_boundaries :
  splitlines "" = [] ∧
  splitlines (String (ascii_of_N 10) "") = [""%string] ∧
  splitlines ("a" +:+ String (ascii_of_N 13) (String (ascii_of_N 10) "b")
              +:+ String (ascii_of_N 10) "")
    = ["a"; "b"]%string.
Proof. by repeat split. Qed.

Example search_quoted_line :
  search_quoted "  manifestId: 'https://host/containers/x1/manifest'," =
    Some "https://host/containers/x1/manifest"%string ∧
  search_quoted "it's 'a b' and 'c-d'" = Some "c-d"%string ∧
  search_quoted "no quote here" = None ∧
  search_quoted "an 'open quote" = None.
Proof. by repeat split. Qed.

Example content_type_parameters :
  CPython.get_content_type "Image/JPEG; charset=binary" = "image/jpeg"%string ∧
  CPython.get_content_type "application/octet-stream" = "application/octet-stream"%string ∧
  CPython.get_content_type "garbage" = "text/plain"%string.
Proof. by repeat split. Qed.

Example guess_extension_table :
  CPython.guess_extension "image/jpeg" = Some ".jpg"%string ∧
  CPython.guess_extension "application/octet-stream" = Some ".bin"%string ∧
  CPython.guess_extension "application/x-antenati" = None.
Proof. by repeat split. Qed.

Example slugify_labels :
  Slugify.slugify Example.transliterate "Pagina 1" = "pagina-1"%string ∧
  Slugify.slugify Example.transliterate "  Stato civile -- Firenze > 1810 " =
    "stato-civile-firenze-1810"%string ∧
  Slugify.slugify Example.transliterate "---" = ""%string.
Proof. by repeat split. Qed.

End text_examples.

Section archive_id.
Import Text AntenatiDownloader.

(** C4. A locator with fewer than two numeric substrings is refused with
    the malformed-locator failure; a locator with two or more yields its
    second numeric substring as the archive identifier.  The numeric
    substrings are the maximal digit runs of the locator, in order. *)
Theorem get_archive_id_second_token (url : string) (toks : list string) :
  digit_runs url toks →
  ((length toks < 2)%nat → get_archive_id url = Raise (MalformedLocator url)) ∧
  ((2 ≤ length toks)%nat →
     ∃ archive_id, toks !! 1%nat = Some archive_id ∧
                   get_archive_id url = Ok archive_id).
Proof.
  intros Hruns. apply findall_digits_runs in Hruns.
  unfold get_archive_id. rewrite Hruns. split; intros Hlen.
  - apply Nat.ltb_lt in Hlen. by rewrite Hlen.
  - destruct toks as [|t0 [|t1 toks]]; simpl in *; try lia.
    by exists t1.
Qed.

Lemma get_archive_id_second_token_witness :
  digit_runs "https://antenati.cultura.gov.it/ark:/12657/an_ua19944535/w9DWR8x"
             ["12657"; "19944535"; "9"; "8"]%string ∧
  get_archive_id "https://antenati.cultura.gov.it/ark:/12657/an_ua19944535/w9DWR8x"
    = Ok "19944535"%string.
Proof.
  assert (Hruns : digit_runs
            "https://antenati.cultura.gov.it/ark:/12657/an_ua19944535/w9DWR8x"
            ["12657"; "19944535"; "9"; "8"]%string)
    by exact (digit_runs_findall
                "https://antenati.cultura.gov.it/ark:/12657/an_ua19944535/w9DWR8x").
  split; [exact Hruns|].
  destruct (get_archive_id_second_token _ _ Hruns) as [_ Hsecond].
  destruct Hsecond as (archive_id & Hlookup & Hget); [simpl; lia|].
  simpl in Hlookup. congruence.
Defined.

End archive_id.

Section item_range.
Import AntenatiDownloader.

(** C5. For non-negative [first ≤ last ≤ len(canvases)] the slice
    [canvases[first:last]] has exactly [last - first] items, and with
    [last] absent (the end of the sequence standing in for it) it has
    [len(canvases) - first] items. *)
Theorem slice_count {A} (l : list A) (first : Z) (last : option Z) :
  let len := Z.of_nat (length l) in
  let stop := default len last in
  0 ≤ first → first ≤ stop → stop ≤ len →
  Z.of_nat (length (slice l first last)) = stop - first.
Proof.
  intros len stop Hfirst Hstop Hlen. unfold slice, slice_index.
  fold len. rewrite length_take, length_drop.
  destruct (Z.ltb_spec first 0) as [?|_]; [lia|].
  destruct last as [last|]; simpl in stop; subst stop.
  - destruct (Z.ltb_spec last 0) as [?|_]; lia.
  - lia.
Qed.

Example slice_clamps :
  let pages := ["a"; "b"; "c"; "d"; "e"]%string in
  slice pages 1 (Some 4) = ["b"; "c"; "d"]%string ∧
  slice pages 2 None = ["c"; "d"; "e"]%string ∧
  slice pages 0 (Some 0) = [] ∧
  slice pages 3 (Some 99) = ["d"; "e"]%string ∧
  slice pages 7 None = [] ∧
  slice pages (-2) None = ["d"; "e"]%string ∧
  slice pages 4 (Some 2) = [].
Proof. by repeat split. Qed.

Lemma slice_count_witness :
  let pages := ["a"; "b"; "c"; "d"; "e"]%string in
  Z.of_nat (length (slice pages 1 (Some 4))) = 3 ∧
  Z.of_nat (length (slice pages 2 None)) = 3.
Proof.
  intros pages. split.
  - apply (slice_count pages 1 (Some 4)); simpl; lia.
  - apply (slice_count pages 2 None); simpl; lia.
Defined.

End item_range.

Section metadata_lookup.
Import AntenatiDownloader.

Lemma find_first_match {A} (p : A → bool) (l : list A) (x : A) :
  find p l = Some x ↔
  ∃ before after, l = before ++ x :: after ∧
                  Forall (λ y, p y = false) before ∧ p x = true.
Proof.
  induction l as [|y l IH]; simpl.
  - split; [done|]. intros (before & after & Heq & _). by destruct before.
  - destruct (p y) eqn:Hy.
    + split.
      * intros [= ->]. by exists [], l.
      * intros ([|z before] & after & Heq & Hbefore & Hx); simplify_eq/=; [done|].
        apply Forall_cons in Hbefore as [Hz _]. congruence.
    + rewrite IH. split.
      * intros (before & after & -> & Hbefore & Hx).
        exists (y :: before), after. by repeat constructor.
      * intros ([|z before] & after & Heq & Hbefore & Hx); simplify_eq/=.
        -- congruence.
        -- apply Forall_cons in Hbefore as [_ Hbefore]. by exists before, after.
Qed.

Lemma find_no_match {A} (p : A → bool) (l : list A) :
  find p l = None ↔ Forall (λ y, p y = false) l.
Proof.
  induction l as [|y l IH]; simpl; [by split|].
  destruct (p y) eqn:Hy.
  - split; [done|]. intros [? _]%Forall_cons. congruence.
  - rewrite IH. split; [by constructor|]. by intros [_ ?]%Forall_cons.
Qed.

(** C6. The metadata lookup returns a value exactly when that value
    belongs to the first entry whose label equals the requested one, it
    fails with the missing-field failure exactly when no entry has that
    label, and it leaves the world as it found it, so that asking again
    gives the same answer. *)
Theorem get_metadata_content_first_match (manifest : Manifest) (lbl : string) (w : world) :
  (∀ v, get_metadata_content manifest lbl w = (Ok v, w) ↔
        ∃ before entry after,
          metadata manifest = before ++ entry :: after ∧
          Forall (λ e, label e ≠ lbl) before ∧
          label entry = lbl ∧ value entry = v) ∧
  (get_metadata_content manifest lbl w = (Raise (MetadataFieldMissing lbl), w) ↔
     Forall (λ e, label e ≠ lbl) (metadata manifest)) ∧
  (∀ r w', get_metadata_content manifest lbl w = (r, w') →
           w' = w ∧ get_metadata_content manifest lbl w' = (r, w')).
Proof.
  assert (Hne : ∀ l, Forall (λ e, String.eqb (label e) lbl = false) l ↔
                     Forall (λ e, label e ≠ lbl) l).
  { intros l. apply Forall_proper; [|done]. intros e. apply String.eqb_neq. }
  unfold get_metadata_content.
  destruct (find _ (metadata manifest)) as [entry|] eqn:Hfind.
  - pose proof Hfind as Hsplit.
    apply find_first_match in Hsplit as (before & after & Hmeta & Hbefore & Hentry).
    apply String.eqb_eq in Hentry. apply Hne in Hbefore.
    split; [|split].
    + intros v. split.
      * intros [= <-]. by exists before, entry, after.
      * intros (before' & entry' & after' & Hmeta' & Hbefore' & Hlabel' & <-).
        assert (find (λ i, String.eqb (label i) lbl) (metadata manifest) = Some entry') as Hfind'.
        { apply find_first_match. exists before', after'.
          split; [done|]. split; [by apply Hne|]. by apply String.eqb_eq. }
        by simplify_eq.
    + split; [done|]. intros Hnone%Hne%find_no_match. congruence.
    + intros r w' [= <- <-]. done.
  - pose proof Hfind as Hnone. apply find_no_match, Hne in Hnone.
    split; [|split].
    + intros v. split; [done|].
      intros (before & entry & after & Hmeta & _ & Hlabel & _).
      rewrite Hmeta in Hnone. apply Forall_app in Hnone as [_ Hnone].
      by apply Forall_cons in Hnone as [? _].
    + done.
    + intros r w' [= <- <-]. done.
Qed.

End metadata_lookup.

(** Unfolding the monad. *)
Ltac run_monad :=
  unfold mbind, M_bind, mret, M_ret, raise, lift, emit, write_file, is_pool_closed in *;
  simpl in *.

Lemma bind_run {A B} (m : M A) (f : A → M B) (w : world) :
  (m ≫= f) w =
    match m w with
    | (Ok a, w') => f a w'
    | (Raise e, w') => (Raise e, w')
    end.
Proof. reflexivity. Qed.

Section units.
Import AntenatiDownloader.
Context `{Platform}.

Lemma request_https url w :
  request HTTPSConnectionPool url w =
    (https_request (pool_closed w) url,
     World (files w) (log w ++ [Request HTTPSConnectionPool url]) (pending w) (pool_closed w)).
Proof. unfold request. run_monad. by destruct (https_request _ _). Qed.

Lemma request_manager url w :
  request PoolManager url w =
    (manager_request url,
     World (files w) (log w ++ [Request PoolManager url]) (pending w) (pool_closed w)).
Proof. unfold request. run_monad. by destruct (manager_request _). Qed.

End units.

Section content_type.
Import AntenatiDownloader.

(** C3, as the program has it.  A unit whose reply has status 200 and a
    media type for which the extension table has no entry fails with the
    unknown-content-type failure, which carries that media type, and
    writes no file. *)
Theorem thread_main_unknown_content_type `{Platform}
    (canvas : Canvas) (reply : HTTPResponse) (header : string) (w : world) :
  https_request (pool_closed w) (image_id canvas) = Ok reply →
  status reply = 200 →
  content_type_header reply = Some header →
  no_extension (message_content_type header) →
  thread_main canvas w =
    (Raise (UnknownContentType (image_id canvas) (message_content_type header)),
     World (files w) (log w ++ [Request HTTPSConnectionPool (image_id canvas)])
           (pending w) (pool_closed w)).
Proof.
  intros Hreply Hstatus Hheader Hext. unfold thread_main.
  unfold mbind at 1, M_bind at 1. rewrite request_https, Hreply, Hstatus.
  unfold get_content_type, content_type_of. rewrite Hheader.
  unfold no_extension in Hext. run_monad. by rewrite Hext.
Qed.

Lemma thread_main_unknown_content_type_witness :
  let P := Example.cpython "application/x-antenati" "" in
  fst (thread_main (H := P) (Example.page "1") Example.start) =
    Raise (UnknownContentType (Example.image_url "1") "application/x-antenati") ∧
  files (snd (thread_main (H := P) (Example.page "1") Example.start)) = ∅.
Proof.
  intros P.
  rewrite (thread_main_unknown_content_type (H := P) (Example.page "1")
             (Example.image "application/x-antenati") "application/x-antenati"
             Example.start);
    [split; reflexivity|reflexivity..].
Defined.

(** C3, as it is stated, fails on the standard table: the table gives
    [application/octet-stream] the extension [.bin], so a unit with that
    media type succeeds and writes its file. *)
Lemma octet_stream_has_extension :
  let P := Example.cpython "application/octet-stream" "" in
  guess_extension (Platform := P) "application/octet-stream" = Some ".bin"%string ∧
  ¬ no_extension (H := P) "application/octet-stream" ∧
  fst (thread_main (H := P) (Example.page "1") Example.start)
    ≠ Raise (UnknownContentType (Example.image_url "1") "application/octet-stream") ∧
  fst (thread_main (H := P) (Example.page "1") Example.start) = Ok 10 ∧
  files (snd (thread_main (H := P) (Example.page "1") Example.start))
    !! "pagina-1.bin"%string = Some Example.ten_bytes.
Proof.
  intros P. repeat split; try (vm_compute; congruence).
Qed.

End content_type.

Section manifest_errors.
Import AntenatiDownloader.

Lemma length_append s t :
  String.length (s +:+ t) = (String.length s + String.length t)%nat.
Proof. induction s as [|c s IH]; [done|]. rewrite append_cons. simpl. by rewrite IH. Qed.

Lemma append_cancel_r s1 s2 t : s1 +:+ t = s2 +:+ t → s1 = s2.
Proof.
  revert s2. induction s1 as [|c s1 IH]; intros [|c2 s2] Heq; [done|..].
  - apply (f_equal String.length) in Heq.
    rewrite append_nil, append_cons in Heq. simpl in Heq.
    rewrite length_append in Heq. lia.
  - apply (f_equal String.length) in Heq.
    rewrite append_nil, append_cons in Heq. simpl in Heq.
    rewrite length_append in Heq. lia.
  - rewrite !append_cons in Heq. injection Heq as -> Heq. f_equal. by apply IH.
Qed.

Lemma UpstreamError_inj url1 url2 code :
  UpstreamError url1 code = UpstreamError url2 code → url1 = url2.
Proof. unfold UpstreamError. intros [= Heq]. by apply append_cancel_r in Heq. Qed.

(** C10. When the landing page was read and the manifest reference was
    found in it, and the second request, the one for the manifest, is
    answered with a status other than 200, the failure raised is the
    upstream failure built from the landing-page locator and that status.
    The request that failed, the last one logged, went to the manifest's
    locator; when the two locators differ, the failure raised is not the
    one that would name the manifest's locator. *)
Theorem get_iiif_manifest_second_error `{Platform}
    (url : string) (page : HTTPResponse) (header text line manifest_url : string)
    (reply : HTTPResponse) (w : world) :
  manager_request url = Ok page →
  status page = 200 →
  content_type_header page = Some header →
  decode (message_content_charset header) (data page) = Ok text →
  find (Text.contains "manifestId") (Text.splitlines text) = Some line →
  Text.search_quoted line = Some manifest_url →
  manager_request manifest_url = Ok reply →
  status reply ≠ 200 →
  get_iiif_manifest url w =
    (Raise (UpstreamError url (status reply)),
     World (files w)
           (log w ++ [Request PoolManager url; Request PoolManager manifest_url])
           (pending w) (pool_closed w)) ∧
  (url ≠ manifest_url →
   UpstreamError url (status reply) ≠ UpstreamError manifest_url (status reply)).
Proof.
  intros Hpage Hstatus Hheader Hdecode Hline Hsearch Hreply Hcode. split.
  - unfold get_iiif_manifest.
    unfold mbind at 1, M_bind at 1. rewrite request_manager, Hpage, Hstatus.
    unfold get_content_charset, content_type_of. rewrite Hheader.
    run_monad. rewrite Hdecode, Hline.
    assert (truthy (Some line) = Some line) as ->.
    { apply find_some in Hline as [_ Hcontains]. by destruct line. }
    rewrite Hsearch, Hreply.
    apply Z.eqb_neq in Hcode. rewrite Hcode. simpl.
    unfold UpstreamError. by rewrite <- app_assoc.
  - intros Hne Heq. by apply UpstreamError_inj in Heq.
Qed.

Lemma get_iiif_manifest_second_error_witness :
  let P := Example.platform (Example.portal 503) (Example.image_host "image/jpeg" "") in
  get_iiif_manifest (H := P) Example.landing_url Example.start =
    (Raise (UpstreamError Example.landing_url 503),
     World ∅ [Request PoolManager Example.landing_url;
              Request PoolManager Example.manifest_url] [] false) ∧
  UpstreamError Example.landing_url 503 ≠ UpstreamError Example.manifest_url 503.
Proof.
  intros P.
  destruct (get_iiif_manifest_second_error (H := P)
              Example.landing_url (Example.html Example.landing_page)
              "text/html; charset=utf-8" Example.landing_page
              ("    manifestId: '" +:+ Example.manifest_url +:+ "',")
              Example.manifest_url (Example.error 503) Example.start)
    as [Hrun Hne]; try (vm_compute; congruence).
  split; [exact Hrun|]. apply Hne. vm_compute. congruence.
Defined.

End manifest_errors.

Section engine.
Import AntenatiDownloader.
Context `{Platform}.

(** *** One unit *)

Lemma thread_main_world canvas w :
  ∃ r fs,
    thread_main canvas w =
      (r, World fs (log w ++ [Request HTTPSConnectionPool (image_id canvas)])
                (pending w) (pool_closed w)) ∧
    ∀ name, is_Some (files w !! name) → is_Some (fs !! name).
Proof.
  unfold thread_main. unfold mbind at 1, M_bind at 1. rewrite request_https.
  destruct (https_request _ _) as [reply|e];
    [|eexists _, _; split; [reflexivity|done]].
  destruct (negb _); [eexists _, _; split; [reflexivity|done]|].
  unfold get_content_type, content_type_of.
  destruct (content_type_header reply); run_monad;
    [|eexists _, _; split; [reflexivity|done]].
  destruct (truthy _); eexists _, _; (split; [reflexivity|]); [|done].
  intros name Hname. rewrite lookup_insert. by case_decide.
Qed.

Lemma thread_main_result canvas w1 w2 :
  pool_closed w1 = pool_closed w2 →
  fst (thread_main canvas w1) = fst (thread_main canvas w2).
Proof.
  intros Hclosed. unfold thread_main. rewrite !bind_run, !request_https, Hclosed.
  destruct (https_request _ _) as [reply|e]; [|done].
  destruct (negb _); [done|].
  unfold get_content_type, content_type_of.
  destruct (content_type_header reply); run_monad; [|done].
  by destruct (truthy _).
Qed.

End engine.

Section run_claims.
Import AntenatiDownloader.

Lemma total_permutation sizes sizes' : sizes ≡ₚ sizes' → total sizes = total sizes'.
Proof.
  unfold total. induction 1 as [|x l l' _ IH|x y l|l l' l'' _ IH1 _ IH2]; simpl; lia.
Qed.

(** A unit whose reply is a 200 with a media type the table knows
    returns the length of the payload and writes the payload to the
    file named by the slug of the label and the extension. *)
Lemma thread_main_succeeds `{Platform} canvas reply header extension :
  https_request false (image_id canvas) = Ok reply →
  status reply = 200 →
  content_type_header reply = Some header →
  truthy (guess_extension (message_content_type header)) = Some extension →
  returns canvas (Z.of_nat (length (data reply))) ∧
  writes canvas (slugify (canvas_label canvas) +:+ extension) (data reply).
Proof.
  intros Hreply Hstatus Hheader Hext.
  assert (∀ w, pool_closed w = false →
            thread_main canvas w =
              (Ok (Z.of_nat (length (data reply))),
               World (<[slugify (canvas_label canvas) +:+ extension := data reply]> (files w))
                     (log w ++ [Request HTTPSConnectionPool (image_id canvas)])
                     (pending w) (pool_closed w))) as Hrun.
  { intros w Hw. unfold thread_main. rewrite bind_run, request_https, Hw, Hreply, Hstatus.
    unfold get_content_type, content_type_of. rewrite Hheader.
    run_monad. by rewrite Hext. }
  split; intros w Hw; by rewrite Hrun.
Qed.

(** A unit whose reply has another status than 200 raises the upstream
    failure. *)
Lemma thread_main_upstream_error `{Platform} canvas reply :
  https_request false (image_id canvas) = Ok reply →
  status reply ≠ 200 →
  raises canvas (UpstreamError (image_id canvas) (status reply)).
Proof.
  intros Hreply Hstatus w Hw. apply Z.eqb_neq in Hstatus.
  unfold thread_main. by rewrite bind_run, request_https, Hw, Hreply, Hstatus.
Qed.

(** Opening the example gallery: two requests, then the downloader. *)
Example init_example :
  let P := Example.cpython "image/jpeg" "" in
  init (H := P) Example.landing_url 0 None Example.start =
    (Ok (Example.downloader (sequence_canvases Example.gallery)),
     World ∅ [Request PoolManager Example.landing_url;
              Request PoolManager Example.manifest_url] [] false).
Proof. by vm_compute. Qed.

Example get_archive_id_examples :
  get_archive_id Example.landing_url = Ok "19944535"%string ∧
  get_archive_id "https://antenati.cultura.gov.it/ark:/12657/an_ua/x" =
    Raise (MalformedLocator "https://antenati.cultura.gov.it/ark:/12657/an_ua/x") ∧
  get_archive_id "" = Raise (MalformedLocator "").
Proof. by repeat split. Qed.

(** Every unit either returns or raises, and which of the two depends on
    the unit alone. *)
Lemma unit_outcome `{Platform} canvas :
  (∃ size, returns canvas size) ∨ (∃ e, raises canvas e).
Proof.
  destruct (fst (thread_main canvas (World ∅ [] [] false))) as [size|e] eqn:Hrun.
  - left. exists size. intros w Hw. rewrite <- Hrun. by apply thread_main_result.
  - right. exists e. intros w Hw. rewrite <- Hrun. by apply thread_main_result.
Qed.

(** Among units of which one fails, there is a first one that does. *)
Lemma first_failure `{Platform} order :
  Exists (λ c, ∃ e, raises c e) order →
  ∃ done canvas rest e,
    order = done ++ canvas :: rest ∧
    Forall (λ c, ∃ size, returns c size) done ∧
    raises canvas e.
Proof.
  induction order as [|c order IH]; intros Hfails; [by apply Exists_nil in Hfails|].
  destruct (unit_outcome c) as [Hc|[e He]].
  - apply Exists_cons in Hfails as [[e He]|Hfails].
    + destruct Hc as [size Hsize].
      specialize (Hsize (World ∅ [] [] false) eq_refl).
      specialize (He (World ∅ [] [] false) eq_refl). congruence.
    + destruct (IH Hfails) as (done & canvas & rest & e & -> & Hdone & He).
      exists (c :: done), canvas, rest, e. split; [done|]. split; [|done].
      by constructor.
  - by exists [], c, order, e.
Qed.

Lemma init_gallery_length `{Platform} url first last w self w' :
  init url first last w = (Ok self, w') →
  gallery_length self = Z.of_nat (length (canvases self)).
Proof.
  unfold init. rewrite bind_run. unfold lift at 1.
  destruct (get_archive_id url); [|done]. rewrite bind_run.
  destruct (get_iiif_manifest url w) as [[m|e] w1]; [|done]. rewrite bind_run.
  destruct (generate_dirname m a w1) as [[d|e] w2]; [|done].
  by intros [= <- <-].
Qed.

End run_claims.

(** ** The threads of [run], step by step *)

(** All the steps a configuration can take. *)
Ltac step_cases Hstep :=
  let a := fresh "a" in
  destruct Hstep as [a Hstep];
  unfold AntenatiDownloader.call in Hstep;
  destruct a as [|?i|?i]; simpl in Hstep;
  unfold AntenatiDownloader.main_thread, AntenatiDownloader.as_completed,
    AntenatiDownloader.worker in Hstep;
  try done;
  repeat (case_match; simplify_eq/=; try done).

Section executions.
Import AntenatiDownloader.
Context `{Platform}.
Variable self : t.
Variables n_workers n_connections : Z.

Lemma work_left_app fs fs' :
  work_left (fs ++ fs') = (work_left fs + work_left fs')%nat.
Proof. induction fs as [|f fs IH]; simpl; lia. Qed.

Lemma work_left_insert fs i canvas ph ph' :
  fs !! i = Some (canvas, ph) →
  (rank ph' < rank ph)%nat →
  (work_left (<[i := (canvas, ph')]> fs) < work_left fs)%nat.
Proof.
  revert i. induction fs as [|f fs IH]; intros [|i] Hi Hrank; simplify_eq/=; [lia|].
  specialize (IH i Hi Hrank). lia.
Qed.

(** Every step brings the end nearer. *)
Lemma step_steps_left c c' :
  step self n_workers n_connections c c' →
  (steps_left self c' < steps_left self c)%nat.
Proof.
  intros Hstep. step_cases Hstep; unfold steps_left; simpl;
    rewrite ?work_left_app, ?length_app, ?length_seq, ?length_insert; simpl;
    try lia.
  - apply bool_decide_eq_true_1 in H1.
    pose proof (length_filter_lt (λ j : nat, j ≠ i) not_yielded i H1) as Hlt.
    assert (¬ i ≠ i) as Hi by (by intros ?). specialize (Hlt Hi). lia.
  - assert (work_left (<[i:=(c, Started)]> future_img0) < work_left future_img0)%nat
      by (eapply work_left_insert; [done|simpl; lia]). lia.
  - assert (work_left (<[i:=(c, Called)]> future_img0) < work_left future_img0)%nat
      by (eapply work_left_insert; [done|simpl; lia]). lia.
  - assert (work_left (<[i:=(c, Replied (https_request true (image_id c)))]> future_img0)
            < work_left future_img0)%nat
      by (eapply work_left_insert; [done|simpl; lia]). lia.
  - assert (work_left (<[i:=(c, Waiting)]> future_img0) < work_left future_img0)%nat
      by (eapply work_left_insert; [done|simpl; lia]). lia.
  - assert (work_left (<[i:=(c, Holding)]> future_img0) < work_left future_img0)%nat
      by (eapply work_left_insert; [done|simpl; lia]). lia.
  - assert (work_left (<[i:=(c, Replied (https_request false (image_id c)))]> future_img0)
            < work_left future_img0)%nat
      by (eapply work_left_insert; [done|simpl; lia]). lia.
  - assert (work_left (<[i:=(c, Replied (https_request false (image_id c)))]> future_img0)
            < work_left future_img0)%nat
      by (eapply work_left_insert; [done|simpl; lia]). lia.
  - assert (work_left (<[i:=(c, Done r)]> future_img0) < work_left future_img0)%nat
      by (eapply work_left_insert; [done|simpl; lia]). lia.
Qed.

Lemma nsteps_steps_left k c c' :
  nsteps (step self n_workers n_connections) k c c' →
  (steps_left self c' + k ≤ steps_left self c)%nat.
Proof.
  induction 1 as [c|k c c1 c' Hstep _ IH]; [lia|].
  apply step_steps_left in Hstep. lia.
Qed.

(** No execution of [run] is longer than eight steps for each canvas and
    five more. *)
Lemma run_bound k w c :
  nsteps (step self n_workers n_connections) k (call w) c →
  (k ≤ 8 * length (canvases self) + 5)%nat.
Proof. intros Hrun%nsteps_steps_left. unfold steps_left in Hrun. simpl in Hrun. lia. Qed.

(** What holds when [run] is called and is kept by every step holds all
    along. *)
Lemma reach_ind (I : config → Prop) (c0 : config) :
  I c0 →
  (∀ k c c', nsteps (step self n_workers n_connections) k c0 c → I c →
             step self n_workers n_connections c c' → I c') →
  ∀ k c, nsteps (step self n_workers n_connections) k c0 c → I c.
Proof.
  intros Hstart Hkeep k. induction k as [|k IH]; intros c Hrun.
  - by inversion Hrun; subst.
  - apply nsteps_inv_r in Hrun as (c1 & Hrun & Hstep). eauto.
Qed.

(** A schedule that can be taken is an execution. *)
Lemma exec_nsteps schedule : ∀ c c',
  exec self n_workers n_connections schedule c = Some c' →
  nsteps (step self n_workers n_connections) (length schedule) c c'.
Proof.
  induction schedule as [|a schedule IH]; intros c c' Hexec; simpl in Hexec.
  - injection Hexec as ->. constructor.
  - destruct (fire self n_workers n_connections a c) as [c1|] eqn:Hfire; [|done].
    simpl in Hexec. econstructor; [by exists a|by apply IH].
Qed.

Lemma worker_beyond i c :
  (length (future_img c) ≤ i)%nat → worker i c = None.
Proof.
  intros Hi. destruct c as [w m fs ys idle nt sem]. simpl in *.
  by rewrite (lookup_ge_None_2 fs i).
Qed.

Lemma as_completed_beyond i c :
  (length (future_img c) ≤ i)%nat → as_completed i c = None.
Proof.
  intros Hi. destruct c as [w m fs ys idle nt sem]. simpl in *.
  destruct m; try done. by rewrite (lookup_ge_None_2 fs i).
Qed.

Lemma is_halted_halted c :
  is_halted self n_workers n_connections c = true → halted self n_workers n_connections c.
Proof.
  unfold is_halted. intros Hall%Is_true_true_2%forallb_True.
  rewrite Forall_forall in Hall. intros a.
  assert (∀ a', a' ∈ Statement :: (Yield <$> seq 0 (length (future_img c)))
                        ++ (Work <$> seq 0 (length (future_img c))) →
                fire self n_workers n_connections a' c = None) as Hnone.
  { intros a' Ha'. specialize (Hall a' Ha'). by apply bool_decide_unpack in Hall. }
  destruct a as [|i|i].
  - apply Hnone. by left.
  - destruct (decide (i < length (future_img c))%nat) as [Hi|Hi].
    + apply Hnone. right. apply elem_of_app. left.
      apply list_elem_of_fmap. exists i. split; [done|]. apply elem_of_seq. lia.
    + apply as_completed_beyond. lia.
  - destruct (decide (i < length (future_img c))%nat) as [Hi|Hi].
    + apply Hnone. right. apply elem_of_app. right.
      apply list_elem_of_fmap. exists i. split; [done|]. apply elem_of_seq. lia.
    + apply worker_beyond. lia.
Qed.

(** *** Entering the [with] block *)

Lemma enter_cases w r w' :
  (executor n_workers ≫= λ _, pool n_connections) w = (r, w') →
  (n_workers ≤ 0 ∧ r = Raise (LibraryError "ValueError") ∧ w' = w) ∨
  (0 < n_workers ∧ r = Ok (Z.to_nat n_connections) ∧
   w' = World (files w) (log w) [] false).
Proof.
  rewrite bind_run. unfold executor, pool.
  destruct (n_workers <=? 0) eqn:Hworkers; intros [= <- <-].
  - left. by apply Z.leb_le in Hworkers.
  - right. by apply Z.leb_gt in Hworkers.
Qed.

(** *** The end of a unit *)

Lemma after_request_cases canvas reply w :
  (∃ e, after_request canvas reply w = (Raise e, w)) ∨
  (∃ http_reply header extension,
     reply = Ok http_reply ∧
     status http_reply = 200 ∧
     content_type_header http_reply = Some header ∧
     guess_extension (message_content_type header) = Some extension ∧
     extension ≠ ""%string ∧
     after_request canvas reply w =
       (Ok (Z.of_nat (length (data http_reply))),
        World (<[slugify (canvas_label canvas) +:+ extension := data http_reply]> (files w))
              (log w) (pending w) (pool_closed w))).
Proof.
  unfold after_request. rewrite bind_run. unfold lift at 1.
  destruct reply as [http_reply|e]; [|left; by eexists].
  unfold save_image.
  destruct (status http_reply =? 200) eqn:Hstatus; simpl; [|left; by eexists].
  apply Z.eqb_eq in Hstatus.
  unfold get_content_type, content_type_of.
  destruct (content_type_header http_reply) as [header|] eqn:Hheader; run_monad;
    [|left; by eexists].
  destruct (guess_extension (message_content_type header)) as [[|ch extension]|] eqn:Hext;
    simpl; [left; by eexists| |left; by eexists].
  right. exists http_reply, header, (String ch extension).
  rewrite Hheader, Hstatus. simpl. by rewrite Hext.
Qed.

(** The steps of a unit, put together, are [__thread_main]. *)
Lemma thread_main_after_request canvas w :
  thread_main canvas w =
    after_request canvas (https_request (pool_closed w) (image_id canvas))
      (World (files w) (log w ++ [Request HTTPSConnectionPool (image_id canvas)])
             (pending w) (pool_closed w)).
Proof.
  unfold thread_main, after_request. rewrite !bind_run, request_https.
  unfold lift at 1. by destruct (https_request _ _).
Qed.

Lemma after_request_result canvas reply w1 w2 :
  fst (after_request canvas reply w1) = fst (after_request canvas reply w2).
Proof.
  unfold after_request, save_image. rewrite !bind_run. unfold lift.
  destruct reply as [http_reply|e]; [|done].
  destruct (negb _); [done|].
  unfold get_content_type, content_type_of.
  destruct (content_type_header http_reply); run_monad; [|done].
  by destruct (truthy _).
Qed.

Lemma after_request_world canvas reply w :
  log (snd (after_request canvas reply w)) = log w ∧
  pending (snd (after_request canvas reply w)) = pending w ∧
  pool_closed (snd (after_request canvas reply w)) = pool_closed w.
Proof.
  by destruct (after_request_cases canvas reply w)
    as [[e ->]|(r & h & x & _ & _ & _ & _ & _ & ->)].
Qed.

Lemma after_request_files canvas reply w1 w2 :
  files w1 = files w2 →
  files (snd (after_request canvas reply w1)) = files (snd (after_request canvas reply w2)).
Proof.
  intros Hfiles. pose proof (after_request_result canvas reply w1 w2) as Hsame.
  destruct (after_request_cases canvas reply w1)
    as [[e1 H1]|(r1 & h1 & x1 & Hr1 & _ & Hh1 & Hx1 & _ & H1)];
  destruct (after_request_cases canvas reply w2)
    as [[e2 H2]|(r2 & h2 & x2 & Hr2 & _ & Hh2 & Hx2 & _ & H2)];
    rewrite H1, H2 in *; simpl in *; try done.
  simplify_eq. by rewrite Hfiles.
Qed.

(** A unit that has got its connection from the open pool ends as
    [__thread_main] does on an open pool. *)
Lemma after_request_returns canvas size w :
  returns canvas size →
  fst (after_request canvas (https_request false (image_id canvas)) w) = Ok size.
Proof.
  intros Hreturns. specialize (Hreturns (World ∅ [] [] false) eq_refl).
  rewrite thread_main_after_request in Hreturns. simpl in Hreturns.
  rewrite <- Hreturns. apply after_request_result.
Qed.

Lemma after_request_raises canvas e w :
  raises canvas e →
  fst (after_request canvas (https_request false (image_id canvas)) w) = Raise e.
Proof.
  intros Hraises. specialize (Hraises (World ∅ [] [] false) eq_refl).
  rewrite thread_main_after_request in Hraises. simpl in Hraises.
  rewrite <- Hraises. apply after_request_result.
Qed.

Lemma after_request_writes canvas name content w :
  writes canvas name content →
  files (snd (after_request canvas (https_request false (image_id canvas)) w)) =
    <[name := content]> (files w).
Proof.
  intros Hwrites. specialize (Hwrites (World (files w) [] [] false) eq_refl).
  rewrite thread_main_after_request in Hwrites. simpl in Hwrites.
  rewrite <- Hwrites. by apply after_request_files.
Qed.

Lemma returns_after_request canvas size w :
  fst (after_request canvas (https_request false (image_id canvas)) w) = Ok size →
  returns canvas size.
Proof.
  intros Hrun w' Hopen. rewrite thread_main_after_request, Hopen, <- Hrun.
  apply after_request_result.
Qed.

Lemma raises_after_request canvas e w :
  fst (after_request canvas (https_request false (image_id canvas)) w) = Raise e →
  raises canvas e.
Proof.
  intros Hrun w' Hopen. rewrite thread_main_after_request, Hopen, <- Hrun.
  apply after_request_result.
Qed.

Lemma after_request_other_names canvas reply w name :
  (∀ extension, name ≠ slugify (canvas_label canvas) +:+ extension) →
  files (snd (after_request canvas reply w)) !! name = files w !! name.
Proof.
  intros Hname.
  destruct (after_request_cases canvas reply w)
    as [[e ->]|(r & h & x & _ & _ & _ & _ & _ & ->)]; [done|].
  simpl. rewrite lookup_insert_ne; [done|]. intros Heq. by apply (Hname x).
Qed.

Lemma after_request_keeps canvas reply w name :
  is_Some (files w !! name) → is_Some (files (snd (after_request canvas reply w)) !! name).
Proof.
  intros Hname.
  destruct (after_request_cases canvas reply w)
    as [[e ->]|(r & h & x & _ & _ & _ & _ & _ & ->)]; [done|].
  simpl. rewrite lookup_insert. by case_decide.
Qed.

End executions.

(** What the last step of a unit leaves of the world as it was. *)
Ltac after_request_facts :=
  repeat match goal with
  | Hrun : AntenatiDownloader.after_request ?c ?r ?w = (_, _) |- _ =>
      let Hlog := fresh "Hlog" in
      let Hpending := fresh "Hpending" in
      let Hclosed := fresh "Hclosed" in
      destruct (after_request_world c r w) as (Hlog & Hpending & Hclosed);
      apply (f_equal snd) in Hrun as Hworld; simpl in Hworld;
      rewrite Hworld in Hlog, Hpending, Hclosed;
      revert Hrun
  end; intros.

(** Entering the block, with what is known of the bound on the workers. *)
Ltac enter_facts :=
  repeat match goal with
  | Hrun : (AntenatiDownloader.executor _ ≫= _) _ = _ |- _ =>
      apply enter_cases in Hrun as [(? & ? & ?)|(? & ? & ?)]; simplify_eq/=; try lia
  end.

Ltac routine :=
  try done; try (destruct_and?; split_and?; first [done|congruence|auto]; fail).

Section run_shape.
Import AntenatiDownloader.
Context `{Platform}.
Variable self : t.
Variables n_workers n_connections : Z.

Lemma halted_nsteps k c c' :
  halted self n_workers n_connections c →
  nsteps (step self n_workers n_connections) k c c' → k = 0%nat ∧ c' = c.
Proof.
  intros Hhalted Hrun. inversion Hrun as [|k' c0 c1 c2 [a Hstep] Hrest]; subst; [done|].
  by rewrite Hhalted in Hstep.
Qed.

Lemma fmap_fst_insert (fs : list (Canvas * phase)) i canvas ph ph' :
  fs !! i = Some (canvas, ph) → (<[i := (canvas, ph')]> fs).*1 = fs.*1.
Proof.
  intros Hi. rewrite list_fmap_insert. simpl. apply list_insert_id.
  by rewrite list_lookup_fmap, Hi.
Qed.

Lemma run_shape k w c :
  0 < n_workers →
  nsteps (step self n_workers n_connections) k (call w) c → shape self c.
Proof.
  intros Hworkers. apply reach_ind; [done|]. clear k c.
  intros _ c c' _ Hshape Hstep. unfold shape in *.
  step_cases Hstep; simpl in *; after_request_facts; enter_facts;
    rewrite ?length_insert; try (erewrite fmap_fst_insert by done); routine.
  - destruct Hshape as (<- & ? & ?). rewrite app_nil_r. split; [done|]. split; [done|].
    intros i Hi%elem_of_seq. lia.
  - destruct Hshape as (<- & ? & ?). by rewrite fmap_app, <- app_assoc.
  - destruct Hshape as (? & ? & Hin). split; [done|]. split; [done|].
    intros j Hj%list_elem_of_filter. apply Hin, Hj.
Qed.

Lemma looping_open w k c gallery_size not_yielded :
  0 < n_workers →
  nsteps (step self n_workers n_connections) k (call w) c →
  main c = Looping gallery_size not_yielded →
  pool_closed (now c) = false ∧ (future_img c).*1 = canvases self ∧
  (∀ i, i ∈ not_yielded → i < length (future_img c))%nat.
Proof.
  intros Hworkers Hrun%run_shape Hmain; [|done]. unfold shape in Hrun.
  rewrite Hmain in Hrun. tauto.
Qed.

Lemma submitted_all w k c :
  0 < n_workers →
  nsteps (step self n_workers n_connections) k (call w) c →
  main c ≠ Entering →
  (∀ rest, main c ≠ Submitting rest) →
  (future_img c).*1 = canvases self.
Proof.
  intros Hworkers Hrun%run_shape Hmain Hsub; [|done]. unfold shape in Hrun.
  destruct (main c); try tauto. by destruct (Hsub rest).
Qed.

Lemma submitted_some w k c :
  0 < n_workers →
  nsteps (step self n_workers n_connections) k (call w) c →
  main c ≠ Entering →
  ∃ rest, (future_img c).*1 ++ rest = canvases self.
Proof.
  intros Hworkers Hrun%run_shape Hmain; [|done]. unfold shape in Hrun.
  destruct (main c); try done; try (exists []; rewrite app_nil_r; tauto).
  exists rest. tauto.
Qed.

Lemma pool_open_or_closed w k c :
  0 < n_workers →
  nsteps (step self n_workers n_connections) k (call w) c →
  main c ≠ Entering →
  pool_closed (now c) = true ↔ (∃ outcome, main c = Joining outcome ∨ main c = Returned outcome).
Proof.
  intros Hworkers Hrun%run_shape Hmain; [|done]. unfold shape in Hrun.
  destruct (main c); try done; destruct_and?; split;
    try (intros (? & [?|?]); done); try congruence; intros _; eauto.
Qed.

End run_shape.

Section run_without_units.
Import AntenatiDownloader.
Context `{Platform}.

Lemma returned_halted self n_workers n_connections w outcome ys idle nt sem :
  halted self n_workers n_connections (Config w (Returned outcome) [] ys idle nt sem).
Proof. by intros [|i|i]. Qed.

(** Without a positive number of workers there is no run: the one step
    that can be taken is the one in which the executor is refused, and
    nothing is submitted, asked for, reported or written, with or without
    the progress bar. *)
Theorem run_refused_without_workers (self : t) (n_workers n_connections : Z)
    (w : world) (k : nat) (c : config) :
  n_workers ≤ 0 →
  nsteps (step self n_workers n_connections) k (call w) c →
  now c = w ∧
  (k = 0%nat ∧ c = call w ∨
   k = 1%nat ∧ main c = Returned (Raise (LibraryError "ValueError"))) ∧
  run self n_workers n_connections [Statement] w =
    Some (Raise (LibraryError "ValueError"), w) ∧
  run_cli self n_workers n_connections [Statement] w =
    Some (Raise (LibraryError "ValueError"), w).
Proof.
  intros Hnone Hrun.
  assert (fire self n_workers n_connections Statement (call w) =
            Some (Config w (Returned (Raise (LibraryError "ValueError"))) [] [] 0 0 0))
    as Henter.
  { simpl. destruct ((executor n_workers ≫= λ _, pool n_connections) w) as [r w'] eqn:Hr.
    apply enter_cases in Hr as [(_ & -> & ->)|(? & _)]; [done|lia]. }
  split_and!.
  - inversion Hrun as [|k' c0 c1 c2 [a Hstep] Hrest]; subst; [done|].
    destruct a as [|i|i]; [|done..]. rewrite Henter in Hstep.
    injection Hstep as <-. apply halted_nsteps in Hrest as [_ ->]; [done|].
    apply returned_halted.
  - inversion Hrun as [|k' c0 c1 c2 [a Hstep] Hrest]; subst; [by left|]. right.
    destruct a as [|i|i]; [|done..]. rewrite Henter in Hstep.
    injection Hstep as <-. apply halted_nsteps in Hrest as [-> ->]; [done|].
    apply returned_halted.
  - unfold run. cbn [exec]. by rewrite Henter.
  - unfold run_cli, run. cbn [exec]. by rewrite Henter.
Qed.

Lemma run_empty_steps self n_workers n_connections w k c :
  0 < n_workers →
  canvases self = [] →
  gallery_length self = Z.of_nat (length (canvases self)) →
  nsteps (step self n_workers n_connections) k (call w) c →
  c = call w ∨ empty_run w c.
Proof.
  intros Hworkers Hempty Hlength. rewrite Hempty in Hlength. simpl in Hlength.
  apply (reach_ind _ _ _ (λ c, c = call w ∨ empty_run w c)); [by left|]. clear k c.
  intros _ c c' _ [->|Hinv] Hstep.
  - right. step_cases Hstep; enter_facts. unfold empty_run. simpl. by rewrite Hempty.
  - right. unfold empty_run in *.
    step_cases Hstep; simpl in *; destruct_and?; simplify_eq/=;
      rewrite <- ?app_assoc; simpl; rewrite ?Hlength; routine.
  all: match goal with Hl : log _ = _ |- _ => rewrite Hl end;
    by rewrite <- ?app_assoc.
Qed.

(** C9. With no canvas selected (and a positive bound on the workers, as
    the executor demands), every execution of [run] has five steps, all of
    them of the main thread, and returns 0: the progress sink is
    initialised with 0 and the [with] block is left; no unit is submitted,
    no request is made, and no file is touched. *)
Theorem run_empty (self : t) (n_workers n_connections : Z)
    (w : world) (k : nat) (c : config) :
  0 < n_workers →
  canvases self = [] →
  gallery_length self = Z.of_nat (length (canvases self)) →
  nsteps (step self n_workers n_connections) k (call w) c →
  (k ≤ 5)%nat ∧
  future_img c = [] ∧
  files (now c) = files w ∧
  (∃ l, log (now c) = log w ++ l ∧ l `prefix_of` [SetTotal 0; PoolClosed; ExecutorJoined]) ∧
  (halted self n_workers n_connections c →
   main c = Returned (Ok 0) ∧
   now c = World (files w) (log w ++ [SetTotal 0; PoolClosed; ExecutorJoined]) [] true) ∧
  run self n_workers n_connections [Statement; Statement; Statement; Statement; Statement] w =
    Some (Ok 0, World (files w) (log w ++ [SetTotal 0; PoolClosed; ExecutorJoined]) [] true).
Proof.
  intros Hworkers Hempty Hlength Hrun.
  pose proof (run_bound _ _ _ _ _ _ Hrun) as Hbound. rewrite Hempty in Hbound.
  simpl in Hbound.
  assert (run self n_workers n_connections
            [Statement; Statement; Statement; Statement; Statement] w =
          Some (Ok 0, World (files w) (log w ++ [SetTotal 0; PoolClosed; ExecutorJoined])
                            [] true)) as Hfive.
  { unfold run, call. simpl. rewrite bind_run. unfold executor.
    apply Z.leb_gt in Hworkers. rewrite Hworkers. simpl. rewrite Hempty. simpl.
    rewrite Hlength, Hempty. simpl. by rewrite <- !app_assoc. }
  destruct (run_empty_steps _ _ _ _ _ _ Hworkers Hempty Hlength Hrun) as [->|Hinv].
  { split_and!; [done..| | |done].
    - exists []. split; [by rewrite app_nil_r|apply prefix_nil].
    - intros Hhalted. specialize (Hhalted Statement). simpl in Hhalted.
      by destruct ((executor n_workers ≫= λ _, pool n_connections) w) as [[]]. }
  destruct Hinv as (Hfs & Hys & Hfiles & Hpending & Hmain).
  split_and!; [done|done|done| | |done].
  - destruct (main c); destruct_and?; try done.
    + exists []. split; [by rewrite app_nil_r|apply prefix_nil].
    + exists [SetTotal 0]. split; [done|]. by exists [PoolClosed; ExecutorJoined].
    + exists [SetTotal 0]. split; [done|]. by exists [PoolClosed; ExecutorJoined].
    + exists [SetTotal 0; PoolClosed]. split; [done|]. by exists [ExecutorJoined].
    + exists [SetTotal 0; PoolClosed; ExecutorJoined]. split; [done|]. by exists [].
  - intros Hhalted. specialize (Hhalted Statement).
    destruct c as [w' m fs ys idle nt sem]. simpl in *. subst fs.
    destruct m as [|[|canvas rest]|g [|i pend]|r|r|r]; destruct_and?; simplify_eq/=;
      try done.
    split; [done|]. destruct w'; simpl in *; congruence.
Qed.

End run_without_units.

Section run_without_units_witnesses.
Import AntenatiDownloader.

Lemma run_refused_without_workers_witness :
  let P := Example.cpython "image/jpeg" "" in
  let self := Example.downloader [Example.page "1"; Example.page "2"; Example.page "3"] in
  let c := Config Example.start (Returned (Raise (LibraryError "ValueError"))) [] [] 0 0 0 in
  now c = Example.start ∧
  (1%nat = 0%nat ∧ c = call Example.start ∨
   1%nat = 1%nat ∧ main c = Returned (Raise (LibraryError "ValueError"))) ∧
  run (H := P) self 0 4 [Statement] Example.start =
    Some (Raise (LibraryError "ValueError"), Example.start) ∧
  run_cli (H := P) self 0 4 [Statement] Example.start =
    Some (Raise (LibraryError "ValueError"), Example.start).
Proof.
  intros P self c.
  apply (run_refused_without_workers (H := P) self 0 4 Example.start 1 c); [lia|].
  apply (exec_nsteps (H := P) self 0 4 [Statement]). reflexivity.
Defined.

End run_without_units_witnesses.

Section unit_steps.
Import AntenatiDownloader.
Context `{Platform}.
Variable self : t.
Variables n_workers n_connections : Z.

(** *** The steps of a unit are [__thread_main] *)

Lemma after_request_pair canvas w :
  after_request canvas (https_request (pool_closed w) (image_id canvas))
    (World (files w) (log w ++ [Request HTTPSConnectionPool (image_id canvas)])
           (pending w) (pool_closed w)) =
  ((thread_main canvas w).1, (thread_main canvas w).2).
Proof. rewrite <- thread_main_after_request. by destruct (thread_main canvas w). Qed.

(** A unit that a worker has taken from the queue, left to itself with a
    connection free in the open pool, does what [__thread_main] does: in
    five steps (it calls the pool, waits, takes the connection, gets its
    reply and gives the connection back, saves the image) its future
    holds what [__thread_main] returns or raises, the world is the one
    [__thread_main] leaves, and the pool has its connection again.  On a
    closed pool there are three steps, and no connection is taken. *)
Theorem worker_runs_thread_main (i : nat) (canvas : Canvas) (w : world) (m : pc)
    (fs : list (Canvas * phase)) (ys : list nat) (idle nt sem : nat) :
  fs !! i = Some (canvas, Started) →
  (pool_closed w = false →
   exec self n_workers n_connections [Work i; Work i; Work i; Work i; Work i]
     (Config w m fs ys (S idle) nt sem) =
   Some (Config (thread_main canvas w).2 m
           (<[i := (canvas, Done (thread_main canvas w).1)]> fs) ys (S idle) nt (S sem))) ∧
  (pool_closed w = true →
   exec self n_workers n_connections [Work i; Work i; Work i]
     (Config w m fs ys idle nt sem) =
   Some (Config (thread_main canvas w).2 m
           (<[i := (canvas, Done (thread_main canvas w).1)]> fs) ys idle nt (S sem))).
Proof.
  intros Hi. pose proof (lookup_lt_Some _ _ _ Hi) as Hlt.
  pose proof (after_request_pair canvas w) as Hunit.
  split; intros Hw; rewrite Hw in Hunit; simpl; rewrite Hi; simpl;
    rewrite list_lookup_insert_eq by done; simpl; rewrite Hw; simpl;
    rewrite list_lookup_insert_eq by (by rewrite length_insert); simpl.
  - rewrite list_lookup_insert_eq by (by rewrite !length_insert). simpl.
    rewrite list_lookup_insert_eq by (by rewrite !length_insert). simpl.
    rewrite Hunit. simpl. by rewrite !list_insert_insert_eq.
  - rewrite Hunit. simpl. by rewrite !list_insert_insert_eq.
Qed.

End unit_steps.

Section run_files_and_log.
Import AntenatiDownloader.
Context `{Platform}.
Variable self : t.
Variables n_workers n_connections : Z.

(** *** The files of a run *)

Lemma run_other_names name w k c :
  Forall (λ canvas, ∀ extension, name ≠ slugify (canvas_label canvas) +:+ extension)
         (canvases self) →
  nsteps (step self n_workers n_connections) k (call w) c →
  files (now c) !! name = files w !! name ∧
  Forall (λ canvas, ∀ extension, name ≠ slugify (canvas_label canvas) +:+ extension)
         (future_img c).*1 ∧
  ∀ rest, main c = Submitting rest →
    Forall (λ canvas, ∀ extension, name ≠ slugify (canvas_label canvas) +:+ extension) rest.
Proof.
  intros Hnames.
  apply (reach_ind _ _ _ (λ c,
    files (now c) !! name = files w !! name ∧
    Forall (λ canvas, ∀ extension, name ≠ slugify (canvas_label canvas) +:+ extension)
           (future_img c).*1 ∧
    ∀ rest, main c = Submitting rest →
      Forall (λ canvas, ∀ extension, name ≠ slugify (canvas_label canvas) +:+ extension)
             rest)); [done|].
  clear k c. intros _ c c' _ (Hfiles & Hfs & Hrest) Hstep.
  step_cases Hstep; simpl in *;
    try (erewrite fmap_fst_insert by done); routine.
  - enter_facts. split_and!; [done|constructor|by intros ? [= <-]].
  - enter_facts. by split_and!.
  - specialize (Hrest _ eq_refl). apply Forall_cons in Hrest as [Hc Hrest].
    split_and!; [done| |by intros ? [= <-]].
    rewrite fmap_app. apply Forall_app. split; [done|]. by constructor.
  - split_and!; [|done..].
    rewrite <- Hfiles.
    match goal with Hrun : after_request ?c ?r ?w0 = _ |- _ =>
      rewrite <- (after_request_other_names c r w0 name), Hrun; [done|]
    end.
    rewrite Forall_lookup in Hfs. apply (Hfs i). by rewrite list_lookup_fmap, H0.
Qed.

(** A run leaves alone every file that is not named after one of its
    canvases: whatever the bounds, whichever way the threads take turns and
    however far the run has come, a name that does not begin with the slug
    of a canvas of the gallery holds what it held when [run] was called. *)
Theorem run_keeps_other_files (name : string) (w : world) (k : nat) (c : config) :
  Forall (λ canvas, ∀ extension, name ≠ slugify (canvas_label canvas) +:+ extension)
         (canvases self) →
  nsteps (step self n_workers n_connections) k (call w) c →
  files (now c) !! name = files w !! name.
Proof. intros Hnames Hrun. by apply (run_other_names name w k c). Qed.


(** *** The log of a run *)

Lemma main_events_snoc l ev :
  main_events (l ++ [ev]) = main_events l ++ (if is_request ev then [] else [ev]).
Proof. unfold main_events. rewrite List.filter_app. simpl. by destruct (is_request ev). Qed.

Lemma worker_events_snoc l ev :
  worker_events (l ++ [ev]) = worker_events l ++ (if is_request ev then [ev] else []).
Proof. unfold worker_events. rewrite List.filter_app. simpl. by destruct (is_request ev). Qed.

Lemma run_main_log w k c :
  0 < n_workers →
  nsteps (step self n_workers n_connections) k (call w) c →
  ∃ l, log (now c) = log w ++ l ∧ main_events l = main_log self c.
Proof.
  intros Hworkers.
  apply (reach_ind _ _ _ (λ c, ∃ l, log (now c) = log w ++ l ∧ main_events l = main_log self c)).
  { exists []. by rewrite app_nil_r. }
  clear k c. intros k c c' Hrun (l & Hlog & Hmain) Hstep.
  apply run_shape in Hrun; [|done]. unfold shape, main_log in *.
  step_cases Hstep; simpl in *; enter_facts; after_request_facts;
    try (erewrite fmap_fst_insert by done);
    repeat match goal with Hl : log _ = log _ |- _ => rewrite Hl end;
    rewrite ?Hlog;
    try (exists l; split; [done|]; done);
    try (eexists; split; [by rewrite <- app_assoc|];
         rewrite main_events_snoc, Hmain; simpl; rewrite ?app_nil_r);
    try done.
  - destruct Hrun as (<- & _ & ->). by rewrite app_nil_r.
  - by rewrite !fmap_app.
  - by rewrite <- !app_assoc.
  - rewrite <- !app_assoc. simpl. by rewrite <- !app_assoc.
  - rewrite length_app, Nat.add_1_r, replicate_S_end, <- !app_assoc. done.
  - rewrite length_app, Nat.add_1_r, replicate_S_end, <- !app_assoc. done.
Qed.

(** C7, as the program has it.  In every execution of [run], and at every
    point of it, what the main thread has done so far is the beginning of
    this: every unit is submitted, in the order of the canvas list; then
    the progress sink is initialised with the number of items, once; then
    it is ticked once for each future handed over; then the pool is closed
    and the executor joined.  So nothing is submitted after the sink is
    initialised, and no completion is reported before.  When [run] has
    returned, this is all of it. *)
Theorem run_submits_before_set_total (w : world) (k : nat) (c : config) :
  0 < n_workers →
  nsteps (step self n_workers n_connections) k (call w) c →
  ∃ l,
    log (now c) = log w ++ l ∧
    main_events l `prefix_of`
      (Submit <$> canvases self) ++
      SetTotal (gallery_length self) :: replicate (length (yielded c)) Update ++
      [PoolClosed; ExecutorJoined] ∧
    (∀ outcome, main c = Returned outcome →
       main_events l =
         (Submit <$> canvases self) ++
         SetTotal (gallery_length self) :: replicate (length (yielded c)) Update ++
         [PoolClosed; ExecutorJoined]).
Proof.
  intros Hworkers Hrun.
  destruct (run_main_log w k c Hworkers Hrun) as (l & Hlog & Hmain).
  apply run_shape in Hrun; [|done]. unfold shape, main_log in *.
  exists l. split; [done|]. rewrite Hmain.
  destruct (main c) as [|rest|g pend|r|r|r]; (split; [|done]).
  - apply prefix_nil.
  - destruct Hrun as (<- & _). rewrite fmap_app, <- app_assoc. by eexists.
  - exists [PoolClosed; ExecutorJoined]. by rewrite <- app_assoc.
  - exists [PoolClosed; ExecutorJoined]. by rewrite <- app_assoc.
  - exists [ExecutorJoined]. rewrite <- !app_assoc. simpl. by rewrite <- !app_assoc.
  - exists []. by rewrite app_nil_r.
Qed.


End run_files_and_log.

Section run_resources.
Import AntenatiDownloader.
Context `{Platform}.
Variable self : t.
Variables n_workers n_connections : Z.

(** *** Connections and threads *)

Lemma count_app p fs fs' : count p (fs ++ fs') = (count p fs + count p fs')%nat.
Proof. induction fs as [|f fs IH]; simpl; lia. Qed.

Lemma count_insert p fs i canvas ph ph' :
  fs !! i = Some (canvas, ph) →
  (count p (<[i := (canvas, ph')]> fs) + (if p ph then 1 else 0) =
   count p fs + (if p ph' then 1 else 0))%nat.
Proof.
  revert i. induction fs as [|f fs IH]; intros [|i] Hi; simplify_eq/=; [lia|].
  specialize (IH i Hi). lia.
Qed.

Lemma count_positive p fs :
  (0 < count p fs)%nat → ∃ i canvas ph, fs !! i = Some (canvas, ph) ∧ p ph = true.
Proof.
  induction fs as [|[canvas ph] fs IH]; simpl; [lia|]. intros Hcount.
  destruct (p ph) eqn:Hp.
  - by exists O, canvas, ph.
  - destruct IH as (i & canvas' & ph' & Hi & Hp'); [lia|]. by exists (S i), canvas', ph'.
Qed.

Lemma count_none p fs :
  Forall (λ f, p f.2 = false) fs → count p fs = O.
Proof. induction 1 as [|f fs Hf _ IH]; simpl; [done|]. by rewrite Hf, IH. Qed.

(** What a step of a unit does to a count of the units. *)
Ltac count_facts p :=
  match goal with
  | Hi : _ !! _ = Some _ |- context [<[_ := (_, ?ph')]> _] =>
      let Hcount := fresh "Hcount" in
      pose proof (count_insert p _ _ _ _ ph' Hi) as Hcount; simpl in Hcount
  end.

Lemma run_connections w k c :
  0 < n_workers →
  nsteps (step self n_workers n_connections) k (call w) c → connections_kept n_connections c.
Proof.
  intros Hworkers. apply reach_ind; [by intros Hne|]. clear k c.
  intros _ c c' _ Hkept Hstep. unfold connections_kept in *.
  step_cases Hstep; simpl in *; enter_facts; after_request_facts;
    rewrite ?count_app; simpl; rewrite ?Nat.add_0_r; routine.
  all: count_facts is_holding; specialize (Hkept ltac:(done) ltac:(congruence)); lia.
Qed.

Lemma insert_not_nil {A} (l : list A) i x : l ≠ [] → <[i := x]> l ≠ [].
Proof. destruct l, i; done. Qed.

Lemma insert_nil {A} (l : list A) i x : <[i := x]> l = [] → l = [].
Proof. destruct l, i; done. Qed.

Lemma run_threads w k c :
  0 < n_workers →
  nsteps (step self n_workers n_connections) k (call w) c → threads_started c.
Proof.
  intros Hworkers. apply reach_ind; [by intros Hne|]. clear k c.
  intros _ c c' _ Hthreads Hstep. unfold threads_started in *.
  step_cases Hstep; simpl in *; enter_facts; routine.
  2-8: intros Hmain; destruct (Hthreads Hmain) as [_ Hsome];
    assert (future_img0 ≠ []) as Hnil by (by intros ->);
    (split; [by intros Hempty%insert_nil|]); intros _; by apply Hsome.
  intros _. destruct (Hthreads ltac:(done)) as [Hnone Hsome].
  split; [intros Hnil; by destruct future_img0|]. intros _.
  unfold adjust_thread_count in *.
  destruct (decide (future_img0 = [])) as [Hnil|Hnil].
  - destruct (Hnone Hnil) as [-> ->]. simpl in *.
    destruct (_ <? _) eqn:Hlt; simplify_eq; [lia|].
    apply Z.ltb_ge in Hlt. simpl in Hlt. lia.
  - specialize (Hsome Hnil).
    destruct idle_semaphore0; [destruct (_ <? _)|]; simplify_eq; lia.
Qed.

(** *** What the futures hold *)

Lemma went_well_keeps fs fs' f :
  (∀ name, is_Some (fs !! name) → is_Some (fs' !! name)) →
  went_well fs f → went_well fs' f.
Proof.
  intros Hkeeps. unfold went_well. destruct f as [canvas []]; simpl; try done.
  intros [Hsettled Hwrites]. split; [done|]. intros name content Hname.
  by apply Hkeeps, (Hwrites name content).
Qed.

Lemma after_request_went_well canvas w r w' :
  after_request canvas (https_request false (image_id canvas)) w = (r, w') →
  went_well (files w') (canvas, Done r).
Proof.
  intros Hrun. unfold went_well. simpl. split.
  - destruct r as [size|e].
    + apply (returns_after_request canvas size w). by rewrite Hrun.
    + apply (raises_after_request canvas e w). by rewrite Hrun.
  - intros name content Hwrites.
    pose proof (after_request_writes canvas name content w Hwrites) as Hfiles.
    rewrite Hrun in Hfiles. simpl in Hfiles. by rewrite Hfiles, lookup_insert_eq.
Qed.

Lemma handed_insert fs fl ys i canvas ph ph' :
  fs !! i = Some (canvas, ph) →
  is_done ph = false →
  Forall (handed fs fl) ys → Forall (handed (<[i := (canvas, ph')]> fs) fl) ys.
Proof.
  intros Hi Hph Hall. eapply Forall_impl; [done|].
  intros j (canvas' & result & Hj & Hwell).
  exists canvas', result. split; [|done].
  rewrite list_lookup_insert_ne; [done|]. intros ->. by simplify_eq.
Qed.

Lemma handed_app fs fs' fl ys :
  Forall (handed fs fl) ys → Forall (handed (fs ++ fs') fl) ys.
Proof.
  intros Hall. eapply Forall_impl; [done|]. intros j (canvas & result & Hj & Hwell).
  exists canvas, result. split; [|done]. by apply lookup_app_l_Some.
Qed.

Lemma handed_keeps fs fl fl' ys :
  (∀ name, is_Some (fl !! name) → is_Some (fl' !! name)) →
  Forall (handed fs fl) ys → Forall (handed fs fl') ys.
Proof.
  intros Hkeeps Hall. eapply Forall_impl; [done|].
  intros j (canvas & result & Hj & Hwell).
  exists canvas, result. split; [done|]. by apply (went_well_keeps fl).
Qed.

Lemma run_futures_well w k c :
  0 < n_workers →
  nsteps (step self n_workers n_connections) k (call w) c → futures_well c.
Proof.
  intros Hworkers. apply reach_ind; [by intros Hne|]. clear k c.
  intros k c c' Hrun Hwell Hstep.
  pose proof (λ g p, looping_open _ _ _ w k c g p Hworkers Hrun) as Hloop.
  unfold futures_well in *.
  step_cases Hstep; simpl in *; enter_facts; intros Hmain;
    try (destruct (Hwell ltac:(done)) as [Hopen Hhanded]; clear Hwell).
  - by split; auto.
  - split; [|by apply handed_app]. intros Hnow. apply Forall_app. split; [auto|].
    by repeat constructor.
  - by split; auto.
  - by split; auto.
  - by split; auto.
  - destruct (Hloop _ _ eq_refl) as (Hnow & _). split; [done|].
    apply Forall_app. split; [done|]. constructor; [|done].
    eexists _, _. split; [done|]. by apply (Forall_lookup_1 _ _ _ _ (Hopen Hnow) H0).
  - destruct (Hloop _ _ eq_refl) as (Hnow & _). split; [done|].
    apply Forall_app. split; [done|]. constructor; [|done].
    eexists _, _. split; [done|]. by apply (Forall_lookup_1 _ _ _ _ (Hopen Hnow) H0).
  - split; [|by eapply handed_insert]. intros Hnow. by apply Forall_insert; [auto|].
  - split; [|by eapply handed_insert]. intros Hnow. by apply Forall_insert; [auto|].
  - split; [|by eapply handed_insert]. intros Hnow. congruence.
  - split; [|by eapply handed_insert]. intros Hnow. by apply Forall_insert; [auto|].
  - split; [|by eapply handed_insert]. intros Hnow. by apply Forall_insert; [auto|].
  - split; [|by eapply handed_insert]. intros Hnow. by apply Forall_insert; [auto|].
  - after_request_facts.
    assert (∀ name, is_Some (files now0 !! name) → is_Some (files w0 !! name)) as Hkeeps.
    { intros name Hname. rewrite <- Hworld. by apply after_request_keeps. }
    split; [|eapply handed_insert; [done..|]; by apply (handed_keeps _ (files now0))].
    intros Hnow. rewrite Hclosed in Hnow. specialize (Hopen Hnow).
    apply Forall_insert.
    + eapply Forall_impl; [done|]. intros f. by apply went_well_keeps.
    + pose proof (Forall_lookup_1 _ _ _ _ Hopen H0) as Hreply.
      unfold went_well in Hreply. simpl in Hreply. subst reply.
      by apply (after_request_went_well c now0).
Qed.

End run_resources.

Section run_progress.
Import AntenatiDownloader.
Context `{Platform}.
Variable self : t.
Variables n_workers n_connections : Z.

(** *** When no thread can take a step *)

Lemma worker_running w m fs ys idle nt sem i canvas ph :
  fs !! i = Some (canvas, ph) →
  is_running ph = true →
  is_Some (worker i (Config w m fs ys idle nt sem)).
Proof.
  intros Hi Hph. simpl. rewrite Hi.
  destruct ph; try done; try (by eexists).
  - by destruct (pool_closed w).
  - by destruct (after_request canvas reply w).
Qed.

Lemma count_busy_none fs :
  Forall (λ f, is_running f.2 = false) fs →
  Forall (λ f, is_waiting f.2 = false) fs →
  count is_busy fs = O.
Proof.
  intros Hrunning Hwaiting. apply count_none.
  apply Forall_forall. intros [canvas ph] Hin.
  rewrite Forall_forall in Hrunning, Hwaiting.
  specialize (Hrunning _ Hin). specialize (Hwaiting _ Hin). by destruct ph.
Qed.

(** As long as a unit is not done, some worker can take a step, unless a
    unit waits for a connection and the pool has none. *)
Lemma unfinished_unit w m fs ys idle nt sem :
  (1 ≤ nt)%nat →
  ¬ Forall (λ f, is_done f.2 = true) fs →
  (∃ i, is_Some (worker i (Config w m fs ys idle nt sem))) ∨
  (∃ i canvas, fs !! i = Some (canvas, Waiting) ∧ idle = O).
Proof.
  intros Hnt Hunfinished.
  destruct (list_find (λ f, is_running f.2 = true) fs) as [[i [canvas ph]]|] eqn:Hrunning.
  { apply list_find_Some in Hrunning as (Hi & Hph & _).
    left. exists i. by apply (worker_running _ _ _ _ _ _ _ _ canvas ph). }
  apply list_find_None in Hrunning.
  destruct (list_find (λ f, is_waiting f.2 = true) fs) as [[i [canvas ph]]|] eqn:Hwaiting.
  { apply list_find_Some in Hwaiting as (Hi & Hph & _).
    destruct ph; try done. destruct idle as [|idle].
    - right. by exists i, canvas.
    - left. exists i. simpl. rewrite Hi. by eexists. }
  apply list_find_None in Hwaiting.
  destruct (list_find (λ f, is_queued f.2 = true) fs) as [[i [canvas ph]]|] eqn:Hqueued.
  { apply list_find_Some in Hqueued as (Hi & Hph & Hfirst).
    destruct ph; try done. left. exists i. simpl. rewrite Hi.
    assert (forallb (λ f, negb (is_queued f.2)) (take i fs) = true) as ->.
    { apply Is_true_true_1, forallb_True, Forall_forall. intros f Hf.
      apply list_elem_of_lookup_1 in Hf as [j Hj].
      apply lookup_take_Some in Hj as [Hj Hlt].
      specialize (Hfirst j f Hj Hlt). simpl in Hfirst.
      apply not_true_is_false in Hfirst. by rewrite Hfirst. }
    rewrite count_busy_none.
    - assert ((0 <? nt)%nat = true) as -> by (apply Nat.ltb_lt; lia). simpl. by eexists.
    - eapply Forall_impl; [exact Hrunning|]. intros f Hf. simpl in Hf.
      by apply not_true_is_false.
    - eapply Forall_impl; [exact Hwaiting|]. intros f Hf. simpl in Hf.
      by apply not_true_is_false. }
  apply list_find_None in Hqueued.
  destruct Hunfinished. apply Forall_forall. intros [canvas ph] Hin.
  rewrite Forall_forall in Hrunning, Hwaiting, Hqueued.
  specialize (Hrunning _ Hin). specialize (Hwaiting _ Hin). specialize (Hqueued _ Hin).
  simpl in *. destruct ph; try done; by destruct Hrunning || by destruct Hwaiting
    || by destruct Hqueued.
Qed.

(** An execution of [run] that cannot go on has returned, or has a unit
    waiting for a connection of a pool that has none in its queue. *)
Lemma halted_cases w k c :
  0 < n_workers →
  nsteps (step self n_workers n_connections) k (call w) c →
  halted self n_workers n_connections c →
  (∃ outcome, main c = Returned outcome) ∨
  (∃ i canvas, future_img c !! i = Some (canvas, Waiting) ∧ idle_connections c = O).
Proof.
  intros Hworkers Hrun Hhalted.
  pose proof (run_threads _ _ _ _ _ _ Hworkers Hrun) as Hthreads.
  pose proof (λ g p, looping_open _ _ _ w k c g p Hworkers Hrun) as Hloop.
  unfold threads_started in Hthreads.
  destruct c as [w' m fs ys idle nt sem]. simpl in Hthreads, Hloop.
  pose proof (Hhalted Statement) as Hmain. simpl in Hmain.
  pose proof (λ i, Hhalted (Work i)) as Hworker.
  pose proof (λ i, Hhalted (Yield i)) as Hyield. cbn [fire] in Hworker, Hyield.
  assert (¬ Forall (λ f, is_done f.2 = true) fs →
          ∃ i canvas, fs !! i = Some (canvas, Waiting) ∧ idle = O) as Hblocked.
  { intros Hunfinished.
    assert (m ≠ Entering) as Hm.
    { intros ->. by destruct ((executor n_workers ≫= λ _, pool n_connections) w') as [[]]. }
    destruct (Hthreads Hm) as [_ Hnt].
    assert (fs ≠ []) as Hfs by (intros ->; by apply Hunfinished).
    destruct (unfinished_unit w' m fs ys idle nt sem (Hnt Hfs) Hunfinished)
      as [[i Hi]|Hwait]; [|done].
    rewrite Hworker in Hi. by destruct Hi. }
  destruct m as [|[|canvas rest]|g [|i pend]|r|r|r]; try done.
  - by destruct ((executor n_workers ≫= λ _, pool n_connections) w') as [[]].
  - by destruct (adjust_thread_count n_workers nt sem).
  - right. apply Hblocked. intros Hdone.
    destruct (Hloop _ _ eq_refl) as (_ & _ & Hin).
    specialize (Hin i ltac:(by left)).
    apply lookup_lt_is_Some_2 in Hin as [[canvas ph] Hi].
    pose proof (Forall_lookup_1 _ _ _ _ Hdone Hi) as Hph. simpl in Hph.
    destruct ph; try done.
    specialize (Hyield i). simpl in Hyield. rewrite Hi in Hyield.
    rewrite bool_decide_eq_true_2 in Hyield by by left. done.
  - right. apply Hblocked. intros Hdone.
    assert (forallb (λ f, is_done f.2) fs = true) as Hall.
    { apply Is_true_true_1, forallb_True.
      eapply Forall_impl; [done|]. intros f Hf. simpl in Hf. by rewrite Hf. }
    by rewrite Hall in Hmain.
  - left. by exists r.
Qed.

End run_progress.

Section run_total.
Import AntenatiDownloader.
Context `{Platform}.
Variable self : t.
Variables n_workers n_connections : Z.

(** *** The sum of the sizes *)

Lemma total_app l1 l2 : total (l1 ++ l2) = total l1 + total l2.
Proof. unfold total. induction l1 as [|x l1 IH]; simpl; lia. Qed.

Lemma total_cons x l : total (x :: l) = x + total l.
Proof. reflexivity. Qed.

Lemma filter_absent (i : nat) (l : list nat) :
  i ∉ l → filter (λ j, j ≠ i) l = l.
Proof.
  induction l as [|j l IH]; [done|]. intros Hi.
  rewrite filter_cons_True by (intros ->; apply Hi; by left).
  rewrite IH; [done|]. intros Hin. apply Hi. by right.
Qed.

Lemma total_without (f : nat → Z) (i : nat) (l : list nat) :
  NoDup l → i ∈ l →
  total (f <$> l) = f i + total (f <$> filter (λ j, j ≠ i) l).
Proof.
  induction 1 as [|j l Hj Hl IH]; [by intros ?%elem_of_nil|].
  intros [<-|Hin]%elem_of_cons.
  - rewrite filter_cons_False by (by intros ?).
    by rewrite filter_absent.
  - rewrite filter_cons_True by (by intros ->).
    rewrite !fmap_cons, !total_cons, IH by done. lia.
Qed.

Lemma length_without (i : nat) (l : list nat) :
  NoDup l → i ∈ l → S (length (filter (λ j, j ≠ i) l)) = length l.
Proof.
  induction 1 as [|j l Hj Hl IH]; [by intros ?%elem_of_nil|].
  intros [<-|Hin]%elem_of_cons.
  - rewrite filter_cons_False by (by intros ?).
    by rewrite filter_absent.
  - rewrite filter_cons_True by (by intros ->). simpl. by rewrite IH.
Qed.

Lemma lookup_total_seq (l : list Z) : (λ i, l !!! i) <$> seq 0 (length l) = l.
Proof.
  apply list_eq. intros i. rewrite list_lookup_fmap.
  destruct (decide (i < length l)%nat) as [Hi|Hi].
  - rewrite lookup_seq_lt by done. simpl.
    destruct (lookup_lt_is_Some_2 l i Hi) as [x Hx].
    by rewrite (list_lookup_total_correct _ _ _ Hx).
  - rewrite lookup_seq_ge by lia. simpl. symmetry. apply lookup_ge_None_2. lia.
Qed.

Lemma returns_unique canvas size size' : returns canvas size → returns canvas size' → size = size'.
Proof.
  intros Hsize Hsize'.
  specialize (Hsize (World ∅ [] [] false) eq_refl).
  specialize (Hsize' (World ∅ [] [] false) eq_refl). congruence.
Qed.

Lemma returns_not_raises canvas size e : returns canvas size → raises canvas e → False.
Proof.
  intros Hsize He.
  specialize (Hsize (World ∅ [] [] false) eq_refl).
  specialize (He (World ∅ [] [] false) eq_refl). congruence.
Qed.

Section with_sizes.
Variable sizes : list Z.
Hypothesis all_return : Forall2 returns (canvases self) sizes.

Lemma handed_size w k c i canvas r :
  0 < n_workers →
  nsteps (step self n_workers n_connections) k (call w) c →
  pool_closed (now c) = false →
  main c ≠ Entering →
  future_img c !! i = Some (canvas, Done r) →
  r = Ok (sizes !!! i).
Proof.
  intros Hworkers Hrun Hopen Hmain Hi.
  destruct (run_futures_well _ _ _ _ _ _ Hworkers Hrun Hmain) as [Hwell _].
  pose proof (Forall_lookup_1 _ _ _ _ (Hwell Hopen) Hi) as [Hsettled _]. simpl in Hsettled.
  destruct (submitted_some _ _ _ _ _ _ Hworkers Hrun Hmain) as [rest Hrest].
  assert (canvases self !! i = Some canvas) as Hcanvas.
  { rewrite <- Hrest. apply lookup_app_l_Some. by rewrite list_lookup_fmap, Hi. }
  destruct (Forall2_lookup_l _ _ _ _ _ all_return Hcanvas) as (size & Hsize & Hreturns).
  rewrite (list_lookup_total_correct _ _ _ Hsize).
  destruct r as [size'|e]; simpl in Hsettled.
  - f_equal. by apply (returns_unique canvas).
  - by destruct (returns_not_raises canvas size e).
Qed.

Lemma run_loop_kept w k c :
  0 < n_workers →
  nsteps (step self n_workers n_connections) k (call w) c → loop_kept sizes c.
Proof.
  intros Hworkers. apply reach_ind; [by split; [intros ??|intros ? [|[|]]]|]. clear k c.
  intros k c c' Hrun Hkept Hstep.
  pose proof (λ g p, looping_open _ _ _ w k c g p Hworkers Hrun) as Hloop.
  pose proof (handed_size w k c) as Hsize.
  pose proof (run_shape _ _ _ _ _ _ Hworkers Hrun) as Hshape.
  unfold loop_kept in *. destruct Hkept as [Hlooping Hleft].
  step_cases Hstep; simpl in *; enter_facts;
    rewrite ?length_insert; try (split; [intros ??|intros ? [|[|]]]; simplify_eq; eauto; fail);
    (split; [intros g' pend' [=]|intros r' [[=]|[[=]|[=]]]]); subst.
  - unfold shape in Hshape. simpl in Hshape. destruct Hshape as (Hfs & _ & ->).
    rewrite app_nil_r in Hfs.
    assert (length future_img0 = length sizes) as Hlength.
    { rewrite <- (Forall2_length _ _ _ all_return), <- Hfs. by rewrite length_fmap. }
    split_and!.
    + apply NoDup_seq.
    + rewrite Hlength, lookup_total_seq. lia.
    + by rewrite length_seq.
    + intros i Hi. left. apply elem_of_seq. lia.
  - destruct (Hlooping _ _ eq_refl) as (_ & Htotal & Hlength & Hcover).
    unfold total in Htotal at 1. simpl in *. split_and!.
    + f_equal. lia.
    + lia.
    + intros i Hi. destruct (Hcover i Hi) as [Hin|Hin]; [|done].
      by apply elem_of_nil in Hin.
  - by apply (Hleft r'); left.
  - by apply (Hleft r'); right; left.
  - destruct (Hlooping _ _ eq_refl) as (Hnodup & Htotal & Hlength & Hcover).
    destruct (Hloop _ _ eq_refl) as (Hopen & _).
    apply bool_decide_eq_true_1 in H1.
    pose proof (Hsize i c (Ok a) Hworkers Hrun Hopen ltac:(done) H0) as [= ->].
    split_and!.
    + by apply NoDup_filter.
    + rewrite (total_without _ i not_yielded) in Htotal by done. lia.
    + rewrite length_app. simpl. pose proof (length_without i not_yielded Hnodup H1). lia.
    + intros j Hj. destruct (decide (j = i)) as [->|Hne].
      * right. apply elem_of_app. right. by left.
      * destruct (Hcover j Hj) as [Hin|Hin].
        -- left. by apply list_elem_of_filter.
        -- right. apply elem_of_app. by left.
  - destruct (Hloop _ _ eq_refl) as (Hopen & _).
    by pose proof (Hsize i c (Raise e) Hworkers Hrun Hopen ltac:(done) H0).
Qed.

(** With both bounds positive and every unit succeeding, an execution
    that is over has returned the sum. *)
Lemma halted_returns_total w k c :
  0 < n_workers →
  0 < n_connections →
  nsteps (step self n_workers n_connections) k (call w) c →
  halted self n_workers n_connections c → main c = Returned (Ok (total sizes)).
Proof.
  intros Hworkers Hconnections Hrun Hhalted.
  destruct (run_loop_kept w k c Hworkers Hrun) as [_ Hleft].
  destruct (halted_cases _ _ _ _ _ _ Hworkers Hrun Hhalted)
    as [[outcome Hmain]|(i & canvas & Hi & Hidle)].
  { rewrite Hmain. f_equal. apply (Hleft outcome). by right; right. }
  assert (main c ≠ Entering) as Hentered.
  { intros Hmain. apply run_shape in Hrun; [|done]. unfold shape in Hrun.
    rewrite Hmain in Hrun. by rewrite Hrun in Hi. }
  destruct (pool_closed (now c)) eqn:Hclosed.
  - apply (pool_open_or_closed _ _ _ _ _ _ Hworkers Hrun Hentered) in Hclosed
      as [outcome Hmain].
    destruct (Hleft outcome) as (_ & _ & Hcover); [tauto|].
    destruct (run_futures_well _ _ _ _ _ _ Hworkers Hrun Hentered) as [_ Hhanded].
    rewrite Forall_forall in Hhanded.
    destruct (Hhanded i) as (canvas' & result & Hi' & _); [|congruence].
    apply Hcover. by apply lookup_lt_Some in Hi.
  - pose proof (run_connections _ _ _ _ _ _ Hworkers Hrun Hentered Hclosed) as Hkept.
    destruct (count_positive is_holding (future_img c)) as (j & canvas' & ph & Hj & Hph);
      [lia|].
    specialize (Hhalted (Work j)). cbn [fire] in Hhalted.
    destruct c as [w' m fs ys idle nt sem]. simpl in Hj.
    destruct (worker_running w' m fs ys idle nt sem j canvas' ph Hj) as [c' Hc'];
      [by destruct ph|]. congruence.
Qed.

(** Where [run] has returned a size, every future has been handed
    over, once: the order of completion is a permutation of the units. *)
Lemma returned_all_yielded w k c outcome :
  0 < n_workers →
  nsteps (step self n_workers n_connections) k (call w) c →
  main c = Returned outcome →
  yielded c ≡ₚ seq 0 (length (canvases self)).
Proof.
  intros Hworkers Hrun Hmain.
  destruct (run_loop_kept w k c Hworkers Hrun) as [_ Hleft].
  destruct (Hleft outcome) as (_ & Hlength & Hcover); [tauto|].
  assert ((future_img c).*1 = canvases self) as Hall.
  { apply (submitted_all self n_workers n_connections w k c); [done|done|..]; congruence. }
  rewrite <- Hall, length_fmap. symmetry.
  apply submseteq_length_Permutation; [|by rewrite length_seq, Hlength].
  apply NoDup_submseteq; [apply NoDup_seq|].
  intros i Hi%elem_of_seq. apply Hcover. lia.
Qed.

(** C2. When every unit succeeds, with byte counts [sizes] in the order
    of the canvas list, every execution of [run] returns their sum:
    whichever way the threads take turns, and so in whatever order the
    units complete, the execution is over after at most eight steps for
    each canvas and five more, and where it is over [run] has returned
    the sum, the futures having been handed over in an order that is a
    permutation of the units.  (Both bounds are positive: the executor
    refuses a bound on the workers that is not, and with no connection in
    the pool no unit ever completes.) *)
Theorem run_returns_total (w : world) (k : nat) (c : config) :
  0 < n_workers →
  0 < n_connections →
  nsteps (step self n_workers n_connections) k (call w) c →
  (k ≤ 8 * length (canvases self) + 5)%nat ∧
  (halted self n_workers n_connections c →
   main c = Returned (Ok (total sizes)) ∧
   yielded c ≡ₚ seq 0 (length (canvases self))).
Proof.
  intros Hworkers Hconnections Hrun.
  split; [by apply (run_bound self n_workers n_connections k w c)|].
  intros Hhalted.
  pose proof (halted_returns_total w k c Hworkers Hconnections Hrun Hhalted) as Hmain.
  split; [done|]. by apply (returned_all_yielded w k c (Ok (total sizes))).
Qed.

End with_sizes.
End run_total.

Section run_failure.
Import AntenatiDownloader.
Context `{Platform}.
Variable self : t.
Variables n_workers n_connections : Z.

(** *** The first failure *)

Lemma done_insert (fs : list (Canvas * phase)) i canvas ph ph' j canvas' r :
  fs !! i = Some (canvas, ph) →
  is_done ph = false →
  fs !! j = Some (canvas', Done r) →
  <[i := (canvas, ph')]> fs !! j = Some (canvas', Done r).
Proof.
  intros Hi Hph Hj. rewrite list_lookup_insert_ne; [done|]. intros ->. by simplify_eq.
Qed.

Lemma all_ok_insert fs js i canvas ph ph' :
  fs !! i = Some (canvas, ph) →
  is_done ph = false →
  all_ok fs js → all_ok (<[i := (canvas, ph')]> fs) js.
Proof.
  intros Hi Hph Hall. eapply Forall_impl; [done|]. intros j (canvas' & size & Hj).
  exists canvas', size. by apply (done_insert fs i canvas ph).
Qed.

Lemma all_ok_app fs fs' js : all_ok fs js → all_ok (fs ++ fs') js.
Proof.
  intros Hall. eapply Forall_impl; [done|]. intros j (canvas & size & Hj).
  exists canvas, size. by apply lookup_app_l_Some.
Qed.

Lemma yields_ok_insert fs ys o i canvas ph ph' :
  fs !! i = Some (canvas, ph) →
  is_done ph = false →
  yields_ok fs ys o → yields_ok (<[i := (canvas, ph')]> fs) ys o.
Proof.
  intros Hi Hph. destruct o as [e|]; simpl.
  - intros (done & j & canvas' & -> & Hj & Hdone). exists done, j, canvas'.
    split_and!; [done|by apply (done_insert fs i canvas ph)|by apply (all_ok_insert _ _ _ _ ph)].
  - by apply (all_ok_insert _ _ _ _ ph).
Qed.

Ltac worker_kept Hyields Hreturned :=
  split;
  [ intros o Ho; eapply yields_ok_insert; [done|done|by apply Hyields]
  | intros r Hr; destruct (Hreturned r Hr) as [Hall _];
    match goal with
    | Hi : _ !! _ = Some _ |- _ =>
        let Hdone := fresh "Hdone" in
        pose proof (Forall_lookup_1 _ _ _ _ Hall Hi) as Hdone; done
    end ].

Lemma run_yields_kept w k c :
  0 < n_workers →
  nsteps (step self n_workers n_connections) k (call w) c → yields_kept c.
Proof.
  intros Hworkers.
  apply reach_ind; [by split; [intros ?|intros ?]|].
  clear k c. intros k c c' Hrun Hkept Hstep.
  pose proof (run_shape _ _ _ _ _ _ Hworkers Hrun) as Hshape.
  unfold yields_kept in *. destruct Hkept as (Hyields & Hreturned).
  step_cases Hstep; simpl in *; enter_facts; after_request_facts;
    try (worker_kept Hyields Hreturned; fail);
    (split; [intros o Ho|intros r' Hr']); simplify_eq/=.
  - destruct Hshape as (_ & _ & Hys). simpl in Hys. subst. constructor.
  - by apply (Hyields None).
  - split; [|by rewrite last_snoc]. apply List.Forall_forall. by apply forallb_forall.
  - by apply (Hyields (Some e)).
  - split; [|by rewrite last_snoc]. apply List.Forall_forall. by apply forallb_forall.
  - apply Forall_app. split; [by apply (Hyields None)|].
    apply Forall_singleton. by exists c, a.
  - exists yielded0, i, c. split_and!; [done|done|by apply (Hyields None)].
  - eapply yields_ok_insert; [done|done|by apply Hyields].
  - destruct (Hreturned r' eq_refl) as [Hall _].
    by pose proof (Forall_lookup_1 _ _ _ _ Hall H0).
Qed.

End run_failure.

Section run_raises.
Import AntenatiDownloader.
Context `{Platform}.
Variable self : t.
Variables n_workers n_connections : Z.


End run_raises.

Section run_requests.
Import AntenatiDownloader.
Context `{Platform}.
Variable self : t.
Variables n_workers n_connections : Z.

(** *** The requests of the workers *)

Lemma requests_of_app fs fs' : requests_of (fs ++ fs') = requests_of fs ++ requests_of fs'.
Proof. apply flat_map_app. Qed.

Lemma requests_of_insert fs i canvas ph ph' :
  fs !! i = Some (canvas, ph) →
  has_called ph = has_called ph' →
  requests_of (<[i := (canvas, ph')]> fs) = requests_of fs.
Proof.
  revert i. induction fs as [|f fs IH]; intros [|i] Hi Hph; simplify_eq/=; try done.
  - unfold request_of. simpl. by rewrite Hph.
  - by rewrite (IH i).
Qed.

Lemma requests_of_called fs i canvas :
  fs !! i = Some (canvas, Started) →
  requests_of (<[i := (canvas, Called)]> fs) ≡ₚ
    requests_of fs ++ [Request HTTPSConnectionPool (image_id canvas)].
Proof.
  revert i. induction fs as [|f fs IH]; intros [|i] Hi; simplify_eq/=; try done.
  - unfold request_of. simpl. apply Permutation_cons_append.
  - rewrite (IH i) by done. by rewrite <- app_assoc.
Qed.

Lemma requests_of_done fs :
  Forall (λ f, is_done f.2 = true) fs →
  requests_of fs = (λ canvas, Request HTTPSConnectionPool (image_id canvas)) <$> fs.*1.
Proof.
  induction 1 as [|[canvas ph] fs Hph _ IH]; [done|]. simpl in *. rewrite IH.
  by destruct ph.
Qed.

Lemma run_requests w k c :
  nsteps (step self n_workers n_connections) k (call w) c →
  ∃ l, log (now c) = log w ++ l ∧ worker_events l ≡ₚ requests_of (future_img c).
Proof.
  apply (reach_ind _ _ _ (λ c, ∃ l, log (now c) = log w ++ l ∧
                                    worker_events l ≡ₚ requests_of (future_img c))).
  { exists []. by rewrite app_nil_r. }
  clear k c. intros k c c' Hrun (l & Hlog & Hrequests) Hstep.
  step_cases Hstep; simpl in *; enter_facts; after_request_facts;
    repeat match goal with Hl : log _ = log _ |- _ => rewrite Hl end;
    rewrite ?Hlog;
    try (exists l; split; [done|]; by erewrite requests_of_insert);
    try (eexists; split; [by rewrite <- app_assoc|];
         rewrite worker_events_snoc; simpl; rewrite ?app_nil_r);
    try (by exists l); try done.
  - apply run_shape in Hrun; [|done]. unfold shape in Hrun. simpl in Hrun. subst. exists l. by split.
  - by rewrite requests_of_app, app_nil_r.
  - by rewrite requests_of_called, Hrequests.
Qed.


Section with_sizes.
Variable sizes : list Z.
Hypothesis all_return : Forall2 returns (canvases self) sizes.

(** In a run in which every unit succeeds (both bounds positive), once
    no thread can take a step: the main thread has submitted every canvas
    in the order of the list, initialised the sink with the number of
    items, ticked it once for each canvas, closed the pool and joined the
    executor, and nothing else; the workers have made one request for
    each canvas, in some order; every future is done, and the file of
    every unit is there. *)
Theorem run_success_log (w : world) (k : nat) (c : config) :
  0 < n_workers →
  0 < n_connections →
  nsteps (step self n_workers n_connections) k (call w) c →
  halted self n_workers n_connections c →
  ∃ l,
    log (now c) = log w ++ l ∧
    main_events l =
      (Submit <$> canvases self) ++
      SetTotal (gallery_length self) ::
      replicate (length (canvases self)) Update ++ [PoolClosed; ExecutorJoined] ∧
    worker_events l ≡ₚ
      (λ canvas, Request HTTPSConnectionPool (image_id canvas)) <$> canvases self ∧
    Forall (λ f, is_done f.2 = true) (future_img c) ∧
    pool_closed (now c) = true ∧
    ∀ canvas name content,
      canvas ∈ canvases self → writes canvas name content →
      is_Some (files (now c) !! name).
Proof.
  intros Hworkers Hconnections Hrun Hhalted.
  pose proof (halted_returns_total self n_workers n_connections sizes all_return
                w k c Hworkers Hconnections Hrun Hhalted) as Hmain.
  pose proof (returned_all_yielded self n_workers n_connections sizes all_return
                w k c _ Hworkers Hrun Hmain) as Hyielded.
  destruct (run_yields_kept self n_workers n_connections w k c Hworkers Hrun)
    as [_ Hreturned].
  destruct (Hreturned _ Hmain) as [Hdone _].
  assert (main c ≠ Entering) as Hentered by congruence.
  assert ((future_img c).*1 = canvases self) as Hall.
  { apply (submitted_all self n_workers n_connections w k c); [done|done|..]; congruence. }
  destruct (run_main_log self n_workers n_connections w k c Hworkers Hrun)
    as (l & Hlog & Hevents).
  destruct (run_requests w k c Hrun) as (l' & Hlog' & Hrequests).
  rewrite Hlog in Hlog'. apply app_inv_head in Hlog' as <-.
  exists l. split_and!; [done| | |done| |].
  - rewrite Hevents. unfold main_log. rewrite Hmain.
    by rewrite (Permutation_length Hyielded), length_seq.
  - by rewrite Hrequests, requests_of_done, Hall.
  - apply (pool_open_or_closed self n_workers n_connections w k c); eauto.
  - intros canvas name content [i Hi]%list_elem_of_lookup Hwrites.
    destruct (run_futures_well _ _ _ _ _ _ Hworkers Hrun Hentered) as [_ Hhanded].
    rewrite Forall_forall in Hhanded.
    destruct (Hhanded i) as (canvas' & result & Hi' & _ & Hfiles).
    { rewrite Hyielded. apply elem_of_seq. apply lookup_lt_Some in Hi. lia. }
    apply (Hfiles name content).
    assert (canvases self !! i = Some canvas') as Hi''.
    { by rewrite <- Hall, list_lookup_fmap, Hi'. }
    by simplify_eq.
Qed.

End with_sizes.
End run_requests.

Section run_page_file.
Import AntenatiDownloader.
Context `{Platform}.
Variable self : t.
Variables n_workers n_connections : Z.

(** *** The file of a page *)

Section one_page.
Variable i : nat.
Variable canvas : Canvas.
Variable name : string.
Variable content : bytes.
Hypothesis the_canvas : canvases self !! i = Some canvas.
Hypothesis the_file : writes canvas name content.
Hypothesis no_other :
  ∀ j canvas', canvases self !! j = Some canvas' → j ≠ i →
               ∀ extension, name ≠ slugify (canvas_label canvas') +:+ extension.

Lemma lookup_insert_done (fs : list (Canvas * phase)) j canvas' ph result :
  is_done ph = false →
  <[j := (canvas', ph)]> fs !! i = Some (canvas, Done result) →
  fs !! i = Some (canvas, Done result).
Proof.
  intros Hph Hi. destruct (decide (j = i)) as [->|Hne].
  - apply list_lookup_insert_Some in Hi as [(_ & ? & _)|[? ?]]; [|done].
    by simplify_eq.
  - by rewrite list_lookup_insert_ne in Hi.
Qed.

Lemma run_page_kept w k c :
  0 < n_workers →
  nsteps (step self n_workers n_connections) k (call w) c → page_kept i canvas name content c.
Proof.
  intros Hworkers.
  apply reach_ind; [by split; [|intros ?%elem_of_nil]|]. clear k c.
  intros k c c' Hrun Hkept Hstep.
  pose proof (λ g p, looping_open _ _ _ w k c g p Hworkers Hrun) as Hloop.
  pose proof (run_shape _ _ _ _ _ _ Hworkers Hrun) as Hshape.
  pose proof (run_futures_well _ _ _ _ _ _ Hworkers Hrun) as Hwell.
  pose proof (submitted_some _ _ _ _ _ _ Hworkers Hrun) as Hsome.
  unfold page_kept in *. destruct Hkept as [Hopen Hyielded].
  step_cases Hstep; simpl in *; enter_facts;
    try (split; [intros Hnow result Hi|done];
         apply lookup_insert_done in Hi; [|done];
         first [by apply (Hopen Hnow result)|by apply (Hopen eq_refl result)|congruence]).
  - split; [intros _ result Hi; by rewrite lookup_nil in Hi|by intros ?%elem_of_nil].
  - split; [|done]. intros Hnow result [Hi|[_ Hi]]%lookup_app_Some; [by eauto|].
    by apply list_lookup_singleton_Some in Hi as [_ ?].
  - split; [done|]. intros [Hi|Hi]%elem_of_app; [by auto|].
    apply list_elem_of_singleton in Hi as <-.
    destruct (Hloop _ _ eq_refl) as (Hnow & Hall & _).
    assert (canvases self !! i = Some c) as Hc.
    { by rewrite <- Hall, list_lookup_fmap, H0. }
    assert (c = canvas) as -> by (rewrite the_canvas in Hc; by injection Hc).
    by apply (Hopen Hnow result).
  - after_request_facts.
    assert (main0 ≠ Entering) as Hentered.
    { intros ->. unfold shape in Hshape. simpl in Hshape. by subst. }
    destruct (Hsome Hentered) as [rest Hrest].
    assert (canvases self !! i0 = Some c) as Hc.
    { rewrite <- Hrest. apply lookup_app_l_Some. by rewrite list_lookup_fmap, H0. }
    destruct (Hwell Hentered) as [Hwent Hhanded]. simpl in Hwent, Hhanded.
    destruct (decide (i0 = i)) as [->|Hne].
    + assert (c = canvas) as -> by (rewrite the_canvas in Hc; by injection Hc). split.
      * intros Hnow _ _. rewrite Hclosed in Hnow.
        pose proof (Forall_lookup_1 _ _ _ _ (Hwent Hnow) H0) as Hreply.
        unfold went_well in Hreply. simpl in Hreply. subst reply.
        pose proof (after_request_writes canvas name content now0 the_file) as Hfiles.
        rewrite H1 in Hfiles. simpl in Hfiles. by rewrite Hfiles, lookup_insert_eq.
      * intros Hi. rewrite Forall_forall in Hhanded.
        destruct (Hhanded i Hi) as (canvas' & result & Hi' & _). congruence.
    + assert (files w0 !! name = files now0 !! name) as ->.
      { rewrite <- Hworld. apply after_request_other_names. by apply (no_other i0). }
      split; [|done]. intros Hnow result Hi. rewrite Hclosed in Hnow.
      rewrite list_lookup_insert_ne in Hi by done. by apply (Hopen Hnow result).
Qed.

(** A page whose file name no other page of the gallery can take keeps
    its file: from when its future has been handed over by
    [as_completed], whichever way the threads take turns and however the
    run goes on, the file holds the payload of the page. *)
Theorem run_holds_page (w : world) (k : nat) (c : config) :
  0 < n_workers →
  nsteps (step self n_workers n_connections) k (call w) c →
  i ∈ yielded c →
  files (now c) !! name = Some content.
Proof. intros Hworkers Hrun Hi. by apply (run_page_kept w k c). Qed.


End one_page.
End run_page_file.

Section run_examples.
Import AntenatiDownloader.

Lemma exec_app `{Platform} self n_workers n_connections schedule more c :
  exec self n_workers n_connections (schedule ++ more) c =
    exec self n_workers n_connections schedule c ≫= exec self n_workers n_connections more.
Proof.
  revert c. induction schedule as [|a schedule IH]; intros c; [done|]. simpl.
  destruct (fire self n_workers n_connections a c) as [c'|]; [|done]. simpl. apply IH.
Qed.

Lemma exec_halted `{Platform} self n_workers n_connections schedule c :
  halted self n_workers n_connections c →
  exec self n_workers n_connections schedule c = Some c ∧ schedule = [] ∨
  exec self n_workers n_connections schedule c = None.
Proof.
  intros Hhalted. destruct schedule as [|a schedule]; [by left|right].
  simpl. by rewrite Hhalted.
Qed.

(** An execution that has come to a point where no thread can take a
    step and [run] has not returned does not return, however it is
    continued. *)
Lemma run_blocked `{Platform} self n_workers n_connections schedule w c :
  exec self n_workers n_connections schedule (call w) = Some c →
  halted self n_workers n_connections c →
  (∀ outcome, main c ≠ Returned outcome) →
  ∀ more, run self n_workers n_connections (schedule ++ more) w = None.
Proof.
  intros Hexec Hhalted Hmain more. unfold run. rewrite exec_app, Hexec. simpl.
  destruct (exec_halted self n_workers n_connections more c Hhalted) as [[-> _]| ->];
    [|done].
  simpl. destruct (main c) eqn:Hc; try done. by destruct (Hmain outcome).
Qed.

(** C1, on the program as it is.  Six pages of which the first is not
    found, with the bounds the command line has by default: eight
    workers, four connections.  In the execution [sixth_waits] the first
    unit fails while the sixth waits for a connection.  The main thread
    is handed the failure, leaves the block and closes the pool before it
    joins the executor; the connections that come back are discarded, the
    sixth unit is never woken, and the executor is never joined: no
    thread can take a step, and [run] has not raised, nor will it,
    however the execution is continued. *)
Theorem run_failure_blocks :
  let P := Example.cpython "image/jpeg" "1" in
  let self := Example.downloader Schedules.six_pages in
  let failure := UpstreamError (Example.image_url "1") 404 in
  ∃ c,
    exec (H := P) self DEFAULT_N_THREADS DEFAULT_N_CONNECTIONS Schedules.sixth_waits
      (call Example.start) = Some c ∧
    raises (H := P) (Example.page "1") failure ∧
    main c = Joining (Raise failure) ∧
    yielded c = [0%nat] ∧
    (future_img c).*2 =
      [Done (Raise failure); Done (Ok 10); Done (Ok 10); Done (Ok 10); Done (Ok 10);
       Waiting] ∧
    idle_connections c = 0%nat ∧
    pool_closed (now c) = true ∧
    halted (H := P) self DEFAULT_N_THREADS DEFAULT_N_CONNECTIONS c ∧
    ∀ more,
      run (H := P) self DEFAULT_N_THREADS DEFAULT_N_CONNECTIONS
        (Schedules.sixth_waits ++ more) Example.start = None.
Proof.
  intros P self failure.
  set (c := default (call Example.start)
              (exec (H := P) self DEFAULT_N_THREADS DEFAULT_N_CONNECTIONS
                 Schedules.sixth_waits (call Example.start))).
  assert (exec (H := P) self DEFAULT_N_THREADS DEFAULT_N_CONNECTIONS
            Schedules.sixth_waits (call Example.start) = Some c) as Hexec
    by (vm_compute; reflexivity).
  assert (halted (H := P) self DEFAULT_N_THREADS DEFAULT_N_CONNECTIONS c) as Hhalted.
  { apply is_halted_halted. vm_compute. reflexivity. }
  assert (main c = Joining (Raise failure)) as Hmain by (vm_compute; reflexivity).
  exists c. split_and!.
  - exact Hexec.
  - apply (thread_main_upstream_error (H := P) (Example.page "1") (Example.error 404));
      [reflexivity|done].
  - exact Hmain.
  - vm_compute. reflexivity.
  - vm_compute. reflexivity.
  - vm_compute. reflexivity.
  - vm_compute. reflexivity.
  - exact Hhalted.
  - apply (run_blocked (H := P) self DEFAULT_N_THREADS DEFAULT_N_CONNECTIONS
             Schedules.sixth_waits Example.start c Hexec Hhalted).
    intros outcome. by rewrite Hmain.
Qed.

(** The executions of the examples, as steps. *)
Ltac by_exec P self n_workers n_connections schedule :=
  apply (exec_nsteps (H := P) self n_workers n_connections schedule);
  vm_compute; reflexivity.

Ltac by_is_halted := apply is_halted_halted; vm_compute; reflexivity.

Lemma page_returns_ten n missing :
  String.eqb (Example.image_url n) (Example.image_url missing) = false →
  let P := Example.cpython "image/jpeg" missing in
  returns (H := P) (Example.page n) 10 ∧
  writes (H := P) (Example.page n)
    (slugify (Platform := P) (canvas_label (Example.page n)) +:+ ".jpg") Example.ten_bytes.
Proof.
  intros Hn P.
  apply (thread_main_succeeds (H := P) (Example.page n) (Example.image "image/jpeg")
           "image/jpeg" ".jpg"); try reflexivity.
  change (Example.image_host "image/jpeg" missing false (Example.image_url n) =
            Ok (Example.image "image/jpeg")).
  unfold Example.image_host. by rewrite Hn.
Qed.

Lemma worker_runs_thread_main_witness :
  let P := Example.cpython "image/jpeg" "" in
  let self := Example.downloader [Example.page "1"] in
  let canvas := Example.page "1" in
  let w := Example.start in
  let fs := [(canvas, Started)] in
  (pool_closed w = false →
   exec (H := P) self 8 4 [Work 0; Work 0; Work 0; Work 0; Work 0]%nat
     (Config w (Looping 0 [0%nat]) fs [] 4 1 0) =
   Some (Config (thread_main (H := P) canvas w).2 (Looping 0 [0%nat])
           (<[0%nat := (canvas, Done (thread_main (H := P) canvas w).1)]> fs)
           [] 4 1 1)) ∧
  (pool_closed w = true →
   exec (H := P) self 8 4 [Work 0; Work 0; Work 0]%nat
     (Config w (Looping 0 [0%nat]) fs [] 3 1 0) =
   Some (Config (thread_main (H := P) canvas w).2 (Looping 0 [0%nat])
           (<[0%nat := (canvas, Done (thread_main (H := P) canvas w).1)]> fs)
           [] 3 1 1)).
Proof.
  intros P self canvas w fs.
  apply (worker_runs_thread_main (H := P) self 8 4 0 canvas w (Looping 0 [0%nat]) fs
           [] 3 1 0).
  reflexivity.
Defined.

Lemma run_returns_total_witness :
  let P := Example.cpython "image/jpeg" "" in
  let self := Example.downloader Schedules.three_pages in
  let c := default (call Example.start)
             (exec (H := P) self 2 1 Schedules.out_of_order (call Example.start)) in
  (29 ≤ 8 * length (canvases self) + 5)%nat ∧
  main c = Returned (Ok (total [10; 10; 10])) ∧
  yielded c = [2; 0; 1]%nat ∧
  yielded c ≡ₚ seq 0 (length (canvases self)).
Proof.
  intros P self c.
  destruct (run_returns_total (H := P) self 2 1 [10; 10; 10]) with
    (w := Example.start) (k := 29%nat) (c := c) as [Hbound Hhalted].
  - repeat constructor; by apply (page_returns_ten _ "").
  - lia.
  - lia.
  - by_exec P self 2 1 Schedules.out_of_order.
  - destruct Hhalted as [Hmain Hyielded]; [by_is_halted|].
    split_and!; [exact Hbound|exact Hmain|reflexivity|exact Hyielded].
Defined.

Lemma run_submits_before_set_total_witness :
  let P := Example.cpython "image/jpeg" "" in
  let self := Example.downloader [Example.page "1"] in
  let c := default (call Example.start)
             (exec (H := P) self DEFAULT_N_THREADS DEFAULT_N_CONNECTIONS
                Schedules.one_page (call Example.start)) in
  ∃ l,
    log (now c) = log Example.start ++ l ∧
    main_events l `prefix_of`
      (Submit <$> canvases self) ++
      SetTotal (gallery_length self) :: replicate (length (yielded c)) Update ++
      [PoolClosed; ExecutorJoined] ∧
    (∀ outcome, main c = Returned outcome →
       main_events l =
         (Submit <$> canvases self) ++
         SetTotal (gallery_length self) :: replicate (length (yielded c)) Update ++
         [PoolClosed; ExecutorJoined]).
Proof.
  intros P self c.
  apply (run_submits_before_set_total (H := P) self DEFAULT_N_THREADS
           DEFAULT_N_CONNECTIONS Example.start 13 c); [reflexivity|].
  by_exec P self DEFAULT_N_THREADS DEFAULT_N_CONNECTIONS Schedules.one_page.
Defined.

(** C7, as it is stated, fails: in the run of a single page the unit is
    submitted first and the sink initialised second. *)
Lemma set_total_after_submit :
  let P := Example.cpython "image/jpeg" "" in
  let self := Example.downloader [Example.page "1"] in
  let w' :=
    World {[ "pagina-1.jpg"%string := Example.ten_bytes ]}
          [Submit (Example.page "1"); SetTotal 1;
           Request HTTPSConnectionPool (Example.image_url "1");
           Update; PoolClosed; ExecutorJoined] [] true in
  run (H := P) self DEFAULT_N_THREADS DEFAULT_N_CONNECTIONS Schedules.one_page
    Example.start = Some (Ok 10, w') ∧
  ¬ sink_initialised_before_scheduling (log w').
Proof.
  intros P self w'. split; [by vm_compute|].
  intros Hclaim. specialize (Hclaim 1%nat 0%nat 1 (Example.page "1")).
  assert (1 < 0)%nat; [|lia]. by apply Hclaim.
Qed.

Lemma run_empty_witness :
  let P := Example.cpython "image/jpeg" "" in
  let self := Example.downloader [] in
  let five := [Statement; Statement; Statement; Statement; Statement] in
  let w' := World ∅ [SetTotal 0; PoolClosed; ExecutorJoined] [] true in
  let c := Config w' (Returned (Ok 0)) [] [] 0 0 0 in
  (5 ≤ 5)%nat ∧
  future_img c = [] ∧
  files (now c) = files Example.start ∧
  (∃ l, log (now c) = log Example.start ++ l ∧
        l `prefix_of` [SetTotal 0; PoolClosed; ExecutorJoined]) ∧
  (halted (H := P) self DEFAULT_N_THREADS DEFAULT_N_CONNECTIONS c →
   main c = Returned (Ok 0) ∧ now c = w') ∧
  run (H := P) self DEFAULT_N_THREADS DEFAULT_N_CONNECTIONS five Example.start =
    Some (Ok 0, w').
Proof.
  intros P self five w' c.
  apply (run_empty (H := P) self DEFAULT_N_THREADS DEFAULT_N_CONNECTIONS
           Example.start 5 c); [reflexivity..|].
  by_exec P self DEFAULT_N_THREADS DEFAULT_N_CONNECTIONS five.
Defined.

Lemma run_keeps_other_files_witness :
  let P := Example.cpython "image/jpeg" "2" in
  let self := Example.downloader Schedules.three_pages in
  let w := World {[ "info.csv"%string := Example.ten_bytes ]} [] [] false in
  let c := default (call w) (exec (H := P) self 2 1 Schedules.second_fails (call w)) in
  files (now c) !! "info.csv"%string = files w !! "info.csv"%string.
Proof.
  intros P self w c.
  apply (run_keeps_other_files (H := P) self 2 1 "info.csv" w 25 c).
  - repeat constructor; intros extension Heq;
      apply (f_equal (String.get 0)) in Heq; vm_compute in Heq; congruence.
  - by_exec P self 2 1 Schedules.second_fails.
Defined.


Lemma run_success_log_witness :
  let P := Example.cpython "image/jpeg" "" in
  let self := Example.downloader Schedules.three_pages in
  let c := default (call Example.start)
             (exec (H := P) self 2 1 Schedules.out_of_order (call Example.start)) in
  ∃ l,
    log (now c) = log Example.start ++ l ∧
    main_events l =
      (Submit <$> canvases self) ++
      SetTotal (gallery_length self) ::
      replicate (length (canvases self)) Update ++ [PoolClosed; ExecutorJoined] ∧
    worker_events l ≡ₚ
      (λ canvas, Request HTTPSConnectionPool (image_id canvas)) <$> canvases self ∧
    Forall (λ f, is_done f.2 = true) (future_img c) ∧
    pool_closed (now c) = true ∧
    ∀ canvas name content,
      canvas ∈ canvases self → writes (H := P) canvas name content →
      is_Some (files (now c) !! name).
Proof.
  intros P self c.
  apply (run_success_log (H := P) self 2 1 [10; 10; 10]) with (w := Example.start) (k := 29%nat).
  - repeat constructor; by apply (page_returns_ten _ "").
  - lia.
  - lia.
  - by_exec P self 2 1 Schedules.out_of_order.
  - by_is_halted.
Defined.

Lemma run_holds_page_witness :
  let P := Example.cpython "image/jpeg" "" in
  let self := Example.downloader Schedules.three_pages in
  let c := default (call Example.start)
             (exec (H := P) self 2 1 Schedules.out_of_order (call Example.start)) in
  files (now c) !! "pagina-3.jpg"%string = Some Example.ten_bytes.
Proof.
  intros P self c.
  apply (run_holds_page (H := P) self 2 1 2 (Example.page "3") "pagina-3.jpg"
           Example.ten_bytes) with (w := Example.start) (k := 29%nat).
  - reflexivity.
  - by apply (page_returns_ten "3" "").
  - intros [|[|[|j]]] canvas' Hj Hne extension Heq; simplify_eq/=;
      apply (f_equal (String.get 7)) in Heq; vm_compute in Heq; congruence.
  - lia.
  - by_exec P self 2 1 Schedules.out_of_order.
  - vm_compute. apply list_elem_of_here.
Defined.

End run_examples.


Section slug.
Import Text Slugify.

(** Facts about single characters, checked on all 256 of them. *)
Ltac by_cases_on_char c :=
  destruct c as [[] [] [] [] [] [] [] []]; vm_compute; try done; auto.

Lemma lower_char_not_upper c : isupper (lower_char c) = false.
Proof. by_cases_on_char c. Qed.

Lemma allowed_lower_is_slug_char c :
  is_allowed c = true → isupper c = false → is_slug_char c = true.
Proof. by_cases_on_char c. Qed.

Lemma slug_char_plain c :
  is_slug_char c = true →
  (code c <? 128)%N = true ∧ lower_char c = c ∧ is_allowed c = true.
Proof. by_cases_on_char c. Qed.

(** *** What [slugify] returns is a slug *)

Lemma map_lower_no_upper s :
  all_chars (λ c, negb (isupper c)) (map_chars lower_char s) = true.
Proof.
  induction s as [|c s IH]; [done|]. simpl.
  by rewrite all_chars_cons, lower_char_not_upper, IH.
Qed.

Lemma replace_disallowed_chars s : ∀ in_run,
  all_chars (λ c, negb (isupper c)) s = true →
  all_chars is_slug_char (replace_disallowed in_run s) = true.
Proof.
  induction s as [|c s IH]; intros in_run Hs; [done|].
  rewrite all_chars_cons in Hs. apply andb_prop in Hs as [Hc Hs].
  apply negb_true_iff in Hc. simpl.
  destruct (is_allowed c) eqn:Hallowed.
  - by rewrite all_chars_cons, allowed_lower_is_slug_char, IH.
  - destruct in_run; [by apply IH|]. rewrite all_chars_cons. by rewrite IH.
Qed.

Lemma collapse_dashes_chars p s : ∀ after_dash,
  all_chars p s = true → all_chars p (collapse_dashes after_dash s) = true.
Proof.
  induction s as [|c s IH]; intros after_dash Hs; [done|].
  rewrite all_chars_cons in Hs. apply andb_prop in Hs as [Hc Hs]. simpl.
  destruct (is_dash c), after_dash; rewrite ?all_chars_cons, ?Hc; simpl; auto.
Qed.

Lemma collapse_dashes_single s : ∀ after_dash,
  no_double_dash after_dash (collapse_dashes after_dash s) = true.
Proof.
  induction s as [|c s IH]; intros after_dash; [done|]. simpl.
  destruct (is_dash c) eqn:Hc; [destruct after_dash|]; simpl; rewrite ?Hc; auto.
Qed.

Lemma lstrip_dashes_chars p s :
  all_chars p s = true → all_chars p (lstrip_dashes s) = true.
Proof.
  induction s as [|c s IH]; [done|]. intros Hs. simpl.
  destruct (is_dash c); [|done].
  rewrite all_chars_cons in Hs. apply andb_prop in Hs as [_ Hs]. auto.
Qed.

Lemma lstrip_dashes_single s : ∀ after_dash,
  no_double_dash after_dash s = true → no_double_dash false (lstrip_dashes s) = true.
Proof.
  induction s as [|c s IH]; intros after_dash Hs; [done|]. simpl in *.
  destruct (is_dash c) eqn:Hc.
  - apply andb_prop in Hs as [_ Hs]. eauto.
  - simpl. by rewrite Hc.
Qed.

Lemma lstrip_dashes_start s : starts_with_dash (lstrip_dashes s) = false.
Proof.
  induction s as [|c s IH]; [done|]. simpl.
  destruct (is_dash c) eqn:Hc; [done|]. simpl. by rewrite Hc.
Qed.

Lemma rstrip_dashes_cons c s :
  rstrip_dashes (String c s) =
    match rstrip_dashes s with
    | EmptyString => if is_dash c then EmptyString else String c EmptyString
    | r => String c r
    end.
Proof. reflexivity. Qed.

Lemma rstrip_dashes_chars p s :
  all_chars p s = true → all_chars p (rstrip_dashes s) = true.
Proof.
  induction s as [|c s IH]; [done|]. intros Hs.
  rewrite all_chars_cons in Hs. apply andb_prop in Hs as [Hc Hs].
  rewrite rstrip_dashes_cons. specialize (IH Hs).
  destruct (rstrip_dashes s) as [|a r].
  - destruct (is_dash c); [done|]. by rewrite all_chars_cons, Hc.
  - by rewrite all_chars_cons, Hc, IH.
Qed.

Lemma rstrip_dashes_single s : ∀ after_dash,
  no_double_dash after_dash s = true →
  no_double_dash after_dash (rstrip_dashes s) = true.
Proof.
  induction s as [|c s IH]; intros after_dash Hs; [done|].
  rewrite rstrip_dashes_cons. simpl in Hs.
  destruct (is_dash c) eqn:Hc.
  - apply andb_prop in Hs as [Hb Hs]. specialize (IH true Hs).
    destruct (rstrip_dashes s) as [|a r]; [done|].
    change (no_double_dash after_dash (String c (String a r)))
      with (if is_dash c then negb after_dash && no_double_dash true (String a r)
            else no_double_dash false (String a r)).
    by rewrite Hc, Hb, IH.
  - specialize (IH false Hs).
    destruct (rstrip_dashes s) as [|a r]; [simpl; by rewrite Hc|].
    change (no_double_dash after_dash (String c (String a r)))
      with (if is_dash c then negb after_dash && no_double_dash true (String a r)
            else no_double_dash false (String a r)).
    by rewrite Hc, IH.
Qed.

Lemma rstrip_dashes_start s :
  starts_with_dash s = false → starts_with_dash (rstrip_dashes s) = false.
Proof.
  destruct s as [|c s]; [done|]. simpl. intros Hc.
  destruct (rstrip_dashes s); by rewrite ?Hc.
Qed.

Lemma rstrip_dashes_end s : ends_with_dash (rstrip_dashes s) = false.
Proof.
  induction s as [|c s IH]; [done|]. rewrite rstrip_dashes_cons.
  destruct (rstrip_dashes s) as [|a r].
  - destruct (is_dash c) eqn:Hc; [done|]. simpl. by rewrite Hc.
  - exact IH.
Qed.

(** *** [slugify] leaves a slug alone *)

Lemma replace_disallowed_id s : ∀ in_run,
  all_chars is_allowed s = true → replace_disallowed in_run s = s.
Proof.
  induction s as [|c s IH]; intros in_run Hs; [done|].
  rewrite all_chars_cons in Hs. apply andb_prop in Hs as [Hc Hs].
  simpl. by rewrite Hc, IH.
Qed.

Lemma collapse_dashes_id s : ∀ after_dash,
  no_double_dash after_dash s = true → collapse_dashes after_dash s = s.
Proof.
  induction s as [|c s IH]; intros after_dash Hs; [done|]. simpl in *.
  destruct (is_dash c).
  - apply andb_prop in Hs as [Hb Hs]. apply negb_true_iff in Hb. subst.
    by rewrite IH.
  - by rewrite IH.
Qed.

Lemma lstrip_dashes_id s : starts_with_dash s = false → lstrip_dashes s = s.
Proof. destruct s as [|c s]; [done|]. simpl. by intros ->. Qed.

Lemma rstrip_dashes_id s : ends_with_dash s = false → rstrip_dashes s = s.
Proof.
  induction s as [|c s IH]; [done|]. intros Hs. rewrite rstrip_dashes_cons.
  destruct s as [|a s].
  - simpl in *. by rewrite Hs.
  - rewrite IH by exact Hs. done.
Qed.

Section with_transliteration.
Variable transliterate : ascii → string.
Hypothesis transliterate_ascii :
  ∀ c, (code c < 128)%N → transliterate c = String c EmptyString.

Lemma slugify_is_slug text : is_slug (slugify transliterate text) = true.
Proof.
  unfold slugify, strip_dashes, is_slug.
  set (t := map_chars lower_char (concat_map transliterate text)).
  pose proof (replace_disallowed_chars t false (map_lower_no_upper _)) as Hchars.
  apply (collapse_dashes_chars _ _ false) in Hchars.
  pose proof (collapse_dashes_single (replace_disallowed false t) false) as Hsingle.
  rewrite rstrip_dashes_chars by by apply lstrip_dashes_chars.
  rewrite rstrip_dashes_single by by apply (lstrip_dashes_single _ false).
  by rewrite rstrip_dashes_start, rstrip_dashes_end by apply lstrip_dashes_start.
Qed.

Lemma transliterate_slug s :
  all_chars is_slug_char s = true → concat_map transliterate s = s.
Proof.
  induction s as [|c s IH]; [done|]. intros Hs.
  rewrite all_chars_cons in Hs. apply andb_prop in Hs as [Hc Hs].
  apply slug_char_plain in Hc as (Hascii & _ & _). apply N.ltb_lt in Hascii.
  simpl. by rewrite transliterate_ascii, IH.
Qed.

Lemma lower_slug s :
  all_chars is_slug_char s = true → map_chars lower_char s = s.
Proof.
  induction s as [|c s IH]; [done|]. intros Hs.
  rewrite all_chars_cons in Hs. apply andb_prop in Hs as [Hc Hs].
  apply slug_char_plain in Hc as (_ & Hlower & _).
  simpl. by rewrite Hlower, IH.
Qed.

Lemma allowed_slug s :
  all_chars is_slug_char s = true → all_chars is_allowed s = true.
Proof.
  induction s as [|c s IH]; [done|]. rewrite !all_chars_cons.
  intros [Hc Hs]%andb_prop. apply slug_char_plain in Hc as (_ & _ & ->). auto.
Qed.

Lemma slugify_slug s : is_slug s = true → slugify transliterate s = s.
Proof.
  unfold is_slug. intros Hs.
  apply andb_prop in Hs as [Hs Hend]. apply andb_prop in Hs as [Hs Hstart].
  apply andb_prop in Hs as [Hchars Hsingle].
  apply negb_true_iff in Hend, Hstart.
  unfold slugify, strip_dashes.
  rewrite transliterate_slug, lower_slug by done.
  rewrite replace_disallowed_id by by apply allowed_slug.
  rewrite collapse_dashes_id by done.
  by rewrite lstrip_dashes_id, rstrip_dashes_id.
Qed.

(** C8. Slugging a slug changes nothing: [slugify] applied twice gives
    what it gives applied once, for a transliteration that leaves
    ASCII characters as they are. *)
Theorem slugify_idempotent (x : string) :
  slugify transliterate (slugify transliterate x) = slugify transliterate x.
Proof. apply slugify_slug, slugify_is_slug. Qed.

End with_transliteration.

Lemma slugify_idempotent_witness :
  slugify Example.transliterate "Pagina 1" = "pagina-1"%string ∧
  slugify Example.transliterate (slugify Example.transliterate "Pagina 1")
    = slugify Example.transliterate "Pagina 1".
Proof.
  split; [reflexivity|].
  apply slugify_idempotent. intros c Hc%N.ltb_lt.
  unfold Example.transliterate. by rewrite Hc.
Defined.

End slug.

(** * More of the program *)

Section more_text.
Import Text AntenatiDownloader.

Ltac by_cases_on_char c :=
  destruct c as [[] [] [] [] [] [] [] []]; vm_compute; try done; auto.

Lemma is_quote_eq c : is_quote c = true → c = "'"%char.
Proof. by_cases_on_char c. Qed.

Lemma url_char_not_quote c : is_url_char c = true → is_quote c = false.
Proof. by_cases_on_char c. Qed.

Lemma quoted_body_sound s : ∀ u,
  quoted_body s = Some u →
  all_chars is_url_char u = true ∧ ∃ post, s = u +:+ "'" +:+ post.
Proof.
  induction s as [|c s IH]; intros u Hu; [done|]. simpl in Hu.
  destruct (is_quote c) eqn:Hq.
  - injection Hu as <-. apply is_quote_eq in Hq as ->. split; [done|]. by exists s.
  - destruct (is_url_char c) eqn:Hc; [|done].
    destruct (quoted_body s) as [u'|]; [|done]. injection Hu as <-.
    destruct (IH u' eq_refl) as (Hu' & post & ->).
    split; [by rewrite all_chars_cons, Hc, Hu'|]. by exists post.
Qed.

Lemma quoted_body_complete u post :
  all_chars is_url_char u = true → quoted_body (u +:+ "'" +:+ post) = Some u.
Proof.
  induction u as [|c u IH]; intros Hu; [done|].
  rewrite all_chars_cons in Hu. apply andb_prop in Hu as [Hc Hu].
  rewrite append_cons. simpl. by rewrite (url_char_not_quote c Hc), Hc, IH.
Qed.

Lemma search_quoted_sound s : ∀ u,
  search_quoted s = Some u →
  all_chars is_url_char u = true ∧ ∃ pre post, s = pre +:+ "'" +:+ u +:+ "'" +:+ post.
Proof.
  induction s as [|c s IH]; intros u Hu; [done|]. simpl in Hu.
  destruct (if is_quote c then quoted_body s else None) as [g|] eqn:Hhere.
  - injection Hu as ->. destruct (is_quote c) eqn:Hq; [|done].
    apply is_quote_eq in Hq as ->.
    apply quoted_body_sound in Hhere as (Hchars & post & ->).
    split; [done|]. by exists ""%string, post.
  - destruct (IH u Hu) as (Hchars & pre & post & ->).
    split; [done|]. by exists (String c pre), post.
Qed.

Lemma search_quoted_complete pre : ∀ u post,
  all_chars is_url_char u = true →
  search_quoted (pre +:+ "'" +:+ u +:+ "'" +:+ post) ≠ None.
Proof.
  induction pre as [|c pre IH]; intros u post Hu.
  - rewrite append_nil. change ("'" +:+ u +:+ "'" +:+ post)
      with (String "'" (u +:+ "'" +:+ post)).
    simpl. by rewrite quoted_body_complete.
  - rewrite append_cons. simpl.
    destruct (if is_quote c then _ else None); [done|]. by apply IH.
Qed.

(** The search for the quoted locator finds something exactly when the
    line has a quoted run of locator characters, and what it finds is such
    a run: it consists of locator characters only and stands between two
    quotes in the line. *)
Theorem search_quoted_finds (line : string) :
  (∀ u, search_quoted line = Some u →
        all_chars is_url_char u = true ∧
        ∃ pre post, line = pre +:+ "'" +:+ u +:+ "'" +:+ post) ∧
  (search_quoted line = None ↔
     ∀ pre u post, all_chars is_url_char u = true →
                   line ≠ pre +:+ "'" +:+ u +:+ "'" +:+ post).
Proof.
  split; [apply search_quoted_sound|]. split.
  - intros Hnone pre u post Hu ->. by apply (search_quoted_complete pre u post).
  - intros Hno. destruct (search_quoted line) as [u|] eqn:Hsearch; [|done].
    apply search_quoted_sound in Hsearch as (Hu & pre & post & ->).
    by destruct (Hno pre u post Hu).
Qed.

Lemma digit_runs_tokens s toks :
  digit_runs s toks →
  Forall (λ t, t ≠ ""%string ∧ all_chars isdigit t = true ∧
               ∃ pre post, s = pre +:+ t +:+ post) toks.
Proof.
  induction 1 as [s H|pre tok rest toks Hpre Hne Htok Hrest _ IH]; [done|].
  constructor.
  - split; [done|]. split; [done|]. by exists pre, rest.
  - eapply Forall_impl; [exact IH|]. simpl.
    intros t (Ht & Hdigits & pre' & post' & ->).
    split; [done|]. split; [done|]. exists (pre +:+ tok +:+ pre'), post'.
    by rewrite !app_assoc'.
Qed.

(** The archive identifier, when there is one, is a number: a non-empty
    run of digits that occurs in the locator. *)
Theorem get_archive_id_numeric (url archive_id : string) :
  get_archive_id url = Ok archive_id →
  archive_id ≠ ""%string ∧
  all_chars isdigit archive_id = true ∧
  ∃ pre post, url = pre +:+ archive_id +:+ post.
Proof.
  unfold get_archive_id. intros Hget.
  destruct (length (findall_digits url) <? 2)%nat; [done|].
  destruct (findall_digits url !! 1%nat) as [t|] eqn:Hlookup; [|done].
  injection Hget as ->.
  pose proof (digit_runs_tokens _ _ (digit_runs_findall url)) as Htoks.
  by apply (Forall_lookup_1 _ _ _ _ Htoks Hlookup).
Qed.

Lemma get_archive_id_numeric_witness :
  "19944535"%string ≠ ""%string ∧
  all_chars isdigit "19944535" = true ∧
  ∃ pre post, Example.landing_url = pre +:+ "19944535" +:+ post.
Proof. apply (get_archive_id_numeric Example.landing_url "19944535"). reflexivity. Defined.

(** *** The item range *)

(** Whatever the two indices are, negative or beyond the end, the selected
    canvases are a run of consecutive canvases of the manifest, in the
    order of the manifest. *)
Theorem slice_segment {A} (l : list A) (first : Z) (last : option Z) :
  ∃ before after, l = before ++ slice l first last ++ after.
Proof.
  unfold slice.
  set (start := Z.to_nat (slice_index (Z.of_nat (length l)) first)).
  set (n := Z.to_nat _).
  exists (take start l), (drop n (drop start l)).
  by rewrite (take_drop n), (take_drop start).
Qed.

(** The defaults of the command line, first 0 and no last, select the
    whole gallery. *)
Theorem slice_defaults {A} (l : list A) : slice l 0 None = l.
Proof.
  unfold slice, slice_index. simpl.
  rewrite Z.min_l, Z.sub_0_r, Nat2Z.id by lia. simpl. apply firstn_all.
Qed.

(** A negative first index counts from the end: [-k] selects the last [k]
    canvases. *)
Theorem slice_last_pages {A} (l : list A) (k : Z) :
  0 < k → k ≤ Z.of_nat (length l) →
  slice l (- k) None = drop (length l - Z.to_nat k) l ∧
  Z.of_nat (length (slice l (- k) None)) = k.
Proof.
  intros Hpos Hle. unfold slice, slice_index.
  destruct (Z.ltb_spec (- k) 0) as [_|?]; [|lia].
  rewrite Z.max_l by lia.
  replace (Z.to_nat (- k + Z.of_nat (length l))) with (length l - Z.to_nat k)%nat by lia.
  assert (take (Z.to_nat (Z.of_nat (length l) - (- k + Z.of_nat (length l))))
            (drop (length l - Z.to_nat k) l) = drop (length l - Z.to_nat k) l) as ->.
  { apply take_ge. rewrite length_drop. lia. }
  split; [done|]. rewrite length_drop. lia.
Qed.

Lemma slice_last_pages_witness :
  slice ["a"; "b"; "c"; "d"; "e"]%string (- 2) None = ["d"; "e"]%string ∧
  Z.of_nat (length (slice ["a"; "b"; "c"; "d"; "e"]%string (- 2) None)) = 2.
Proof. apply (slice_last_pages ["a"; "b"; "c"; "d"; "e"]%string 2); simpl; lia. Defined.

(** A range that starts at or after the end of the gallery, or that ends
    where it starts or before, selects nothing; it is not an error. *)
Theorem slice_nothing {A} (l : list A) (first : Z) (last : option Z) :
  0 ≤ first →
  Z.of_nat (length l) ≤ first ∨ (∃ stop, last = Some stop ∧ 0 ≤ stop ∧ stop ≤ first) →
  slice l first last = [].
Proof.
  intros Hfirst Hrange. unfold slice, slice_index.
  destruct (Z.ltb_spec first 0) as [?|_]; [lia|].
  destruct Hrange as [Hbeyond|(stop & -> & Hstop & Hle)].
  - rewrite drop_ge by lia. apply take_nil.
  - destruct (Z.ltb_spec stop 0) as [?|_]; [lia|].
    replace (Z.to_nat _) with 0%nat by lia. done.
Qed.

Lemma slice_nothing_witness :
  slice ["a"; "b"; "c"]%string 3 None = [] ∧
  slice ["a"; "b"; "c"]%string 2 (Some 1) = [].
Proof.
  split.
  - apply (slice_nothing ["a"; "b"; "c"]%string 3 None); [lia|]. left. simpl. lia.
  - apply (slice_nothing ["a"; "b"; "c"]%string 2 (Some 1)); [lia|]. right.
    exists 1. split; [reflexivity|lia].
Defined.

End more_text.

Section discovery.
Import Text AntenatiDownloader.
Context `{Platform}.

(** The landing page is answered with another status than 200: the
    discovery fails with the upstream failure of that status, and the
    manifest is never asked for. *)
Theorem get_iiif_manifest_landing_error (url : string) (page : HTTPResponse) (w : world) :
  manager_request url = Ok page →
  status page ≠ 200 →
  get_iiif_manifest url w =
    (Raise (UpstreamError url (status page)),
     World (files w) (log w ++ [Request PoolManager url]) (pending w) (pool_closed w)).
Proof.
  intros Hpage Hstatus%Z.eqb_neq. unfold get_iiif_manifest.
  by rewrite bind_run, request_manager, Hpage, Hstatus.
Qed.

(** No line of the landing page contains the marker: the discovery fails
    with the manifest-not-found failure after its one request. *)
Theorem get_iiif_manifest_no_marker (url : string) (page : HTTPResponse)
    (header text : string) (w : world) :
  manager_request url = Ok page →
  status page = 200 →
  content_type_header page = Some header →
  decode (message_content_charset header) (data page) = Ok text →
  Forall (λ line, contains "manifestId" line = false) (splitlines text) →
  get_iiif_manifest url w =
    (Raise (ManifestNotFound url),
     World (files w) (log w ++ [Request PoolManager url]) (pending w) (pool_closed w)).
Proof.
  intros Hpage Hstatus Hheader Hdecode Hlines. unfold get_iiif_manifest.
  rewrite bind_run, request_manager, Hpage, Hstatus.
  unfold get_content_charset, content_type_of. rewrite Hheader.
  run_monad. rewrite Hdecode.
  apply find_no_match in Hlines. by rewrite Hlines.
Qed.

(** Only the first line with the marker counts.  When it holds no quoted
    locator the discovery fails with the malformed-line failure, whatever
    the lines after it hold. *)
Theorem get_iiif_manifest_malformed_line (url : string) (page : HTTPResponse)
    (header text : string) (before : list string) (line : string)
    (after : list string) (w : world) :
  manager_request url = Ok page →
  status page = 200 →
  content_type_header page = Some header →
  decode (message_content_charset header) (data page) = Ok text →
  splitlines text = before ++ line :: after →
  Forall (λ l, contains "manifestId" l = false) before →
  contains "manifestId" line = true →
  search_quoted line = None →
  get_iiif_manifest url w =
    (Raise (MalformedManifestLine url),
     World (files w) (log w ++ [Request PoolManager url]) (pending w) (pool_closed w)).
Proof.
  intros Hpage Hstatus Hheader Hdecode Hlines Hbefore Hline Hsearch.
  unfold get_iiif_manifest.
  rewrite bind_run, request_manager, Hpage, Hstatus.
  unfold get_content_charset, content_type_of. rewrite Hheader.
  run_monad. rewrite Hdecode.
  assert (find (contains "manifestId") (splitlines text) = Some line) as ->.
  { apply find_first_match. by exists before, after. }
  assert (truthy (Some line) = Some line) as -> by by destruct line.
  by rewrite Hsearch.
Qed.

(** Both requests answered with 200: the manifest is what [json.loads]
    makes of the decoded second reply, and the two requests, the landing
    page and then the locator found in it, are all that happened. *)
Theorem get_iiif_manifest_found (url : string) (page : HTTPResponse)
    (header text line manifest_url : string) (reply : HTTPResponse)
    (header' text' : string) (w : world) :
  manager_request url = Ok page →
  status page = 200 →
  content_type_header page = Some header →
  decode (message_content_charset header) (data page) = Ok text →
  find (contains "manifestId") (splitlines text) = Some line →
  search_quoted line = Some manifest_url →
  manager_request manifest_url = Ok reply →
  status reply = 200 →
  content_type_header reply = Some header' →
  decode (message_content_charset header') (data reply) = Ok text' →
  get_iiif_manifest url w =
    (loads text',
     World (files w)
           (log w ++ [Request PoolManager url; Request PoolManager manifest_url])
           (pending w) (pool_closed w)).
Proof.
  intros Hpage Hstatus Hheader Hdecode Hline Hsearch Hreply Hstatus' Hheader' Hdecode'.
  unfold get_iiif_manifest.
  rewrite bind_run, request_manager, Hpage, Hstatus.
  unfold get_content_charset, content_type_of. rewrite Hheader.
  run_monad. rewrite Hdecode, Hline.
  assert (truthy (Some line) = Some line) as ->.
  { apply find_some in Hline as [_ Hcontains]. by destruct line. }
  rewrite Hsearch, Hreply, Hstatus', Hheader'. simpl. rewrite Hdecode'.
  by rewrite <- app_assoc.
Qed.

(** What the discovery does to the world, however it ends. *)
Lemma get_iiif_manifest_world url w :
  ∃ reqs,
    snd (get_iiif_manifest url w) =
      World (files w) (log w ++ reqs) (pending w) (pool_closed w) ∧
    ((reqs = [Request PoolManager url] ∧ ∃ e, fst (get_iiif_manifest url w) = Raise e) ∨
     ∃ line u, reqs = [Request PoolManager url; Request PoolManager u] ∧
               contains "manifestId" line = true ∧ search_quoted line = Some u).
Proof.
  unfold get_iiif_manifest. rewrite bind_run, request_manager.
  destruct (manager_request url) as [page|e];
    [|eexists; split; [reflexivity|left; split; [done|by eexists]]].
  destruct (negb _); [eexists; split; [reflexivity|left; split; [done|by eexists]]|].
  unfold get_content_charset, content_type_of.
  destruct (content_type_header page) as [header|]; run_monad;
    [|eexists; split; [reflexivity|left; split; [done|by eexists]]].
  destruct (decode _ _) as [text|e];
    [|eexists; split; [reflexivity|left; split; [done|by eexists]]].
  destruct (find _ _) as [line|] eqn:Hfind;
    [|eexists; split; [reflexivity|left; split; [done|by eexists]]].
  apply find_some in Hfind as [_ Hcontains].
  assert (truthy (Some line) = Some line) as -> by by destruct line.
  destruct (search_quoted line) as [u|] eqn:Hsearch;
    [|eexists; split; [reflexivity|left; split; [done|by eexists]]].
  exists [Request PoolManager url; Request PoolManager u].
  split; [|right; by exists line, u].
  replace (log w ++ [Request PoolManager url; Request PoolManager u])
    with ((log w ++ [Request PoolManager url]) ++ [Request PoolManager u])
    by by rewrite <- app_assoc.
  destruct (manager_request u) as [reply|e]; [|done].
  destruct (negb _); [done|].
  destruct (content_type_header reply); simpl; [|done].
  by destruct (decode _ _).
Qed.

(** However the discovery ends, it has made one request or two and done
    nothing else: no file is touched.  The first request goes to the
    locator given; the second, if there is one, goes to a string made of
    letters, digits, dots, colons, slashes and hyphens only. *)
Theorem get_iiif_manifest_requests (url : string) (w : world) :
  ∃ reqs,
    snd (get_iiif_manifest url w) =
      World (files w) (log w ++ reqs) (pending w) (pool_closed w) ∧
    (reqs = [Request PoolManager url] ∨
     ∃ u, reqs = [Request PoolManager url; Request PoolManager u] ∧
          all_chars is_url_char u = true).
Proof.
  destruct (get_iiif_manifest_world url w) as (reqs & Hworld & [[-> _]|Htwo]).
  - exists [Request PoolManager url]. split; [done|]. by left.
  - destruct Htwo as (line & u & -> & _ & Hsearch).
    exists [Request PoolManager url; Request PoolManager u]. split; [done|].
    right. exists u. split; [done|]. by apply search_quoted_sound in Hsearch as [? _].
Qed.

End discovery.

Section discovery_witnesses.
Import Text AntenatiDownloader.

Lemma get_iiif_manifest_landing_error_witness :
  let P := Example.platform (Cases.portal_with (Example.error 503)) Cases.images in
  get_iiif_manifest (H := P) Example.landing_url Example.start =
    (Raise (UpstreamError Example.landing_url 503),
     World ∅ [Request PoolManager Example.landing_url] [] false).
Proof.
  intros P.
  apply (get_iiif_manifest_landing_error (H := P) Example.landing_url (Example.error 503)
           Example.start); [reflexivity|simpl; lia].
Defined.

Lemma get_iiif_manifest_no_marker_witness :
  let P := Example.platform (Cases.portal_with (Example.html "<p>closed</p>")) Cases.images in
  get_iiif_manifest (H := P) Example.landing_url Example.start =
    (Raise (ManifestNotFound Example.landing_url),
     World ∅ [Request PoolManager Example.landing_url] [] false).
Proof.
  intros P.
  apply (get_iiif_manifest_no_marker (H := P) Example.landing_url
           (Example.html "<p>closed</p>") "text/html; charset=utf-8" "<p>closed</p>"
           Example.start); try reflexivity.
  by repeat constructor.
Defined.

Lemma get_iiif_manifest_malformed_line_witness :
  let P := Example.platform
             (Cases.portal_with (Example.html Cases.page_without_locator)) Cases.images in
  get_iiif_manifest (H := P) Example.landing_url Example.start =
    (Raise (MalformedManifestLine Example.landing_url),
     World ∅ [Request PoolManager Example.landing_url] [] false).
Proof.
  intros P.
  apply (get_iiif_manifest_malformed_line (H := P) Example.landing_url
           (Example.html Cases.page_without_locator) "text/html; charset=utf-8"
           Cases.page_without_locator ["<script>"%string] "    manifestId: undefined,"
           ["</script>"%string] Example.start); try reflexivity.
  by repeat constructor.
Defined.

Lemma get_iiif_manifest_found_witness :
  let P := Example.cpython "image/jpeg" "" in
  get_iiif_manifest (H := P) Example.landing_url Example.start =
    (Ok Example.gallery,
     World ∅ [Request PoolManager Example.landing_url;
              Request PoolManager Example.manifest_url] [] false).
Proof.
  intros P.
  apply (get_iiif_manifest_found (H := P) Example.landing_url
           (Example.html Example.landing_page) "text/html; charset=utf-8"
           Example.landing_page
           ("    manifestId: '" +:+ Example.manifest_url +:+ "',")
           Example.manifest_url (Example.json Example.manifest_text)
           "application/json;charset=UTF-8" Example.manifest_text Example.start);
    reflexivity.
Defined.

End discovery_witnesses.

Section opening.
Import Text AntenatiDownloader.
Context `{Platform}.

Lemma metadata_present m lbl w :
  (∃ e, e ∈ metadata m ∧ label e = lbl) →
  ∃ v, get_metadata_content m lbl w = (Ok v, w).
Proof.
  intros (e & He & Hlabel). unfold get_metadata_content.
  destruct (find _ _) as [i|] eqn:Hfind; [by eexists|].
  apply find_no_match in Hfind.
  apply (proj1 (Forall_forall _ _) Hfind) in He.
  apply String.eqb_neq in He. done.
Qed.

Lemma metadata_absent m lbl w :
  Forall (λ e, label e ≠ lbl) (metadata m) →
  get_metadata_content m lbl w = (Raise (MetadataFieldMissing lbl), w).
Proof.
  intros Habsent. unfold get_metadata_content.
  destruct (find _ _) as [i|] eqn:Hfind; [|done].
  apply find_some in Hfind as [Hin Heq]. apply String.eqb_eq in Heq.
  apply list_elem_of_In in Hin.
  by apply (proj1 (Forall_forall _ _) Habsent) in Hin.
Qed.

Lemma metadata_outcome m lbl w :
  (∃ e, e ∈ metadata m ∧ label e = lbl ∧
        get_metadata_content m lbl w = (Ok (value e), w)) ∨
  (Forall (λ e, label e ≠ lbl) (metadata m) ∧
   get_metadata_content m lbl w = (Raise (MetadataFieldMissing lbl), w)).
Proof.
  unfold get_metadata_content.
  destruct (find _ _) as [i|] eqn:Hfind.
  - left. apply find_some in Hfind as [Hin Heq]. apply String.eqb_eq in Heq.
    apply list_elem_of_In in Hin. by exists i.
  - right. split; [|done]. apply find_no_match in Hfind.
    eapply Forall_impl; [exact Hfind|]. intros e. apply String.eqb_neq.
Qed.

(** The directory name needs three fields of the manifest, asked for in
    the order archival context, title, typology; the first of them that
    the manifest does not have is the one the failure names. *)
Theorem generate_dirname_first_missing (m : Manifest) (archive_id : string)
    (present : list string) (missing : string) (rest : list string) (w : world) :
  ["Contesto archivistico"; "Titolo"; "Tipologia"]%string = present ++ missing :: rest →
  Forall (λ lbl, ∃ e, e ∈ metadata m ∧ label e = lbl) present →
  Forall (λ e, label e ≠ missing) (metadata m) →
  generate_dirname m archive_id w = (Raise (MetadataFieldMissing missing), w).
Proof.
  intros Hlabels Hpresent Hmissing. unfold generate_dirname.
  destruct present as [|l1 [|l2 [|l3 present]]]; simplify_eq/=.
  - by rewrite bind_run, metadata_absent.
  - apply Forall_cons in Hpresent as [H1 _].
    rewrite bind_run. destruct (metadata_present m _ w H1) as [v1 ->].
    by rewrite bind_run, metadata_absent.
  - apply Forall_cons in Hpresent as [H1 [H2 _]%Forall_cons].
    rewrite bind_run. destruct (metadata_present m _ w H1) as [v1 ->].
    rewrite bind_run. destruct (metadata_present m _ w H2) as [v2 ->].
    by rewrite bind_run, metadata_absent.
  - by destruct present.
Qed.

Lemma generate_dirname_inv m a w d w' :
  generate_dirname m a w = (Ok d, w') →
  w' = w ∧
  ∃ context year typology,
    get_metadata_content m "Contesto archivistico" w = (Ok context, w) ∧
    get_metadata_content m "Titolo" w = (Ok year, w) ∧
    get_metadata_content m "Tipologia" w = (Ok typology, w) ∧
    d = slugify (context +:+ "-" +:+ year +:+ "-" +:+ typology +:+ "-" +:+ a).
Proof.
  unfold generate_dirname. rewrite bind_run.
  destruct (metadata_outcome m "Contesto archivistico" w) as [(e1 & _ & _ & H1)|[_ H1]];
    rewrite H1; [|done].
  rewrite bind_run.
  destruct (metadata_outcome m "Titolo" w) as [(e2 & _ & _ & H2)|[_ H2]];
    rewrite H2; [|done].
  rewrite bind_run.
  destruct (metadata_outcome m "Tipologia" w) as [(e3 & _ & _ & H3)|[_ H3]];
    rewrite H3; [|done].
  intros [= <- <-]. split; [done|]. by exists (value e1), (value e2), (value e3).
Qed.

Lemma generate_dirname_world m a w : snd (generate_dirname m a w) = w.
Proof.
  unfold generate_dirname. rewrite bind_run.
  destruct (metadata_outcome m "Contesto archivistico" w) as [(e1 & _ & _ & H1)|[_ H1]];
    rewrite H1; [|done].
  rewrite bind_run.
  destruct (metadata_outcome m "Titolo" w) as [(e2 & _ & _ & H2)|[_ H2]];
    rewrite H2; [|done].
  rewrite bind_run.
  by destruct (metadata_outcome m "Tipologia" w) as [(e3 & _ & _ & H3)|[_ H3]];
    rewrite H3.
Qed.

(** A locator without an archive identifier is refused before anything is
    asked of the network. *)
Theorem init_refuses_locator (url : string) (first : Z) (last : option Z)
    (e : exn) (w : world) :
  get_archive_id url = Raise e →
  init url first last w = (Raise e, w).
Proof. intros Hid. unfold init. rewrite bind_run. unfold lift at 1. by rewrite Hid. Qed.

(** Opening a gallery never downloads a page: however [__init__] ends, it
    has made at most two requests, both through the pool manager, and has
    written no file. *)
Theorem init_downloads_nothing (url : string) (first : Z) (last : option Z) (w : world) :
  ∃ reqs,
    snd (init url first last w) =
      World (files w) (log w ++ reqs) (pending w) (pool_closed w) ∧
    (length reqs ≤ 2)%nat ∧
    Forall (λ ev, ∃ u, ev = Request PoolManager u) reqs.
Proof.
  unfold init. rewrite bind_run. unfold lift at 1.
  destruct (get_archive_id url) as [a|e].
  2: { exists []. rewrite app_nil_r. destruct w. split; [done|]. split; [simpl; lia|done]. }
  rewrite bind_run.
  destruct (get_iiif_manifest_world url w) as (reqs & Hworld & Hreqs).
  destruct (get_iiif_manifest url w) as [[m|e] w1]; simpl in Hworld; subst w1.
  - exists reqs. split.
    + rewrite bind_run.
      pose proof (generate_dirname_world m a
                    (World (files w) (log w ++ reqs) (pending w) (pool_closed w))) as Hd.
      destruct (generate_dirname m a _) as [[d|e] w2]; simpl in Hd; by subst w2.
    + destruct Hreqs as [[-> _]|(line & u & -> & _)]; (split; [simpl; lia|]);
        repeat constructor; by eexists.
  - exists reqs. split; [done|].
    destruct Hreqs as [[-> _]|(line & u & -> & _)]; (split; [simpl; lia|]);
      repeat constructor; by eexists.
Qed.

Lemma init_inv (url : string) (first : Z) (last : option Z) (w : world)
    (self : t) (w' : world) :
  init url first last w = (Ok self, w') →
  AntenatiDownloader.url self = url ∧
  get_archive_id url = Ok (archive_id self) ∧
  canvases self = slice (sequence_canvases (manifest self)) first last ∧
  gallery_length self = Z.of_nat (length (canvases self)) ∧
  Forall (λ lbl, ∃ e, e ∈ metadata (manifest self) ∧ label e = lbl)
         ["Contesto archivistico"; "Titolo"; "Tipologia"]%string ∧
  ∃ u, w' = World (files w)
                  (log w ++ [Request PoolManager url; Request PoolManager u])
                  (pending w) (pool_closed w).
Proof.
  unfold init. rewrite bind_run. unfold lift at 1.
  destruct (get_archive_id url) as [a|e]; [|done]. rewrite bind_run.
  destruct (get_iiif_manifest_world url w) as (reqs & Hworld & Hreqs).
  destruct (get_iiif_manifest url w) as [[m|e] w1]; [|done].
  simpl in Hworld. subst w1. rewrite bind_run.
  destruct (generate_dirname m a _) as [[d|e] w2] eqn:Hd; [|done].
  apply generate_dirname_inv in Hd as (-> & c & y & ty & Hc & Hy & Hty & ->).
  intros [= <- <-]. simpl. repeat split.
  - repeat constructor.
    + destruct (metadata_outcome m "Contesto archivistico"
                  (World (files w) (log w ++ reqs) (pending w) (pool_closed w)))
        as [(e1 & ? & ? & _)|[_ Hno]]; [by exists e1|congruence].
    + destruct (metadata_outcome m "Titolo"
                  (World (files w) (log w ++ reqs) (pending w) (pool_closed w)))
        as [(e1 & ? & ? & _)|[_ Hno]]; [by exists e1|congruence].
    + destruct (metadata_outcome m "Tipologia"
                  (World (files w) (log w ++ reqs) (pending w) (pool_closed w)))
        as [(e1 & ? & ? & _)|[_ Hno]]; [by exists e1|congruence].
  - destruct Hreqs as [[_ [e He]]|(line & u & -> & _)]; [done|]. by exists u.
Qed.

(** What a downloader is when [__init__] succeeds: the archive identifier
    is the one of the locator; the canvases are the slice of the
    manifest's canvases and the gallery length is their number; the three
    fields of the directory name are in the manifest; and exactly two
    requests were made. *)
Theorem init_opens (url : string) (first : Z) (last : option Z) (w : world)
    (self : t) (w' : world) :
  init url first last w = (Ok self, w') →
  AntenatiDownloader.url self = url ∧
  get_archive_id url = Ok (archive_id self) ∧
  canvases self = slice (sequence_canvases (manifest self)) first last ∧
  gallery_length self = Z.of_nat (length (canvases self)) ∧
  Forall (λ lbl, ∃ e, e ∈ metadata (manifest self) ∧ label e = lbl)
         ["Contesto archivistico"; "Titolo"; "Tipologia"]%string ∧
  ∃ u, w' = World (files w)
                  (log w ++ [Request PoolManager url; Request PoolManager u])
                  (pending w) (pool_closed w).
Proof. apply init_inv. Qed.

(** *** The description of the gallery *)

Lemma gallery_info_cases (self : t) (w : world) :
  (∃ subtitles category director comments actors,
     gallery_info self w =
       (Ok [("url", AntenatiDownloader.url self); ("subtitles", subtitles);
            ("category", category); ("director", director);
            ("comments", comments); ("actors", actors)]%string, w)) ∨
  (∃ lbl, lbl ∈ ["Titolo"; "Tipologia"; "Datazione"; "Contesto archivistico";
                 "Conservato da"]%string ∧
          Forall (λ e, label e ≠ lbl) (metadata (manifest self)) ∧
          gallery_info self w = (Raise (MetadataFieldMissing lbl), w)).
Proof.
  unfold gallery_info. rewrite bind_run.
  destruct (metadata_outcome (manifest self) "Titolo" w) as [(e1 & _ & _ & H1)|[Hno H1]];
    rewrite H1; [|right; eexists; split; [|done]; set_solver].
  rewrite bind_run.
  destruct (metadata_outcome (manifest self) "Tipologia" w) as [(e2 & _ & _ & H2)|[Hno H2]];
    rewrite H2; [|right; eexists; split; [|done]; set_solver].
  rewrite bind_run.
  destruct (metadata_outcome (manifest self) "Datazione" w) as [(e3 & _ & _ & H3)|[Hno H3]];
    rewrite H3; [|right; eexists; split; [|done]; set_solver].
  rewrite bind_run.
  destruct (metadata_outcome (manifest self) "Contesto archivistico" w)
    as [(e4 & _ & _ & H4)|[Hno H4]];
    rewrite H4; [|right; eexists; split; [|done]; set_solver].
  rewrite bind_run.
  destruct (metadata_outcome (manifest self) "Conservato da" w)
    as [(e5 & _ & _ & H5)|[Hno H5]];
    rewrite H5; [|right; eexists; split; [|done]; set_solver].
  left. by exists (value e1), (value e2), (value e3), (value e4), (value e5).
Qed.


Lemma gallery_info_inv (self : t) (w : world) items w' :
  gallery_info self w = (Ok items, w') →
  w' = w ∧
  ∃ subtitles category director comments actors,
    items = [("url", AntenatiDownloader.url self); ("subtitles", subtitles);
             ("category", category); ("director", director);
             ("comments", comments); ("actors", actors)]%string.
Proof.
  destruct (gallery_info_cases self w)
    as [(s1 & s2 & s3 & s4 & s5 & ->)|(lbl & _ & _ & ->)]; [|done].
  intros [= <- <-]. split; [done|]. by exists s1, s2, s3, s4, s5.
Qed.

(** The table for the CSV file is rectangular: eight columns in the header
    and in every row, one row for each selected canvas, in the order of
    the canvases.  A row begins with the locator of the gallery and ends
    with the slug of the label and the locator of the image. *)
Theorem info_table_rectangular (self : t) (w : world)
    (header : list string) (body : list (list string)) (w' : world) :
  info_table self w = (Ok (header, body), w') →
  w' = w ∧
  header = ["url"; "subtitles"; "category"; "director"; "comments"; "actors";
            "mediatype"; "Languages"]%string ∧
  length body = length (canvases self) ∧
  ∀ i row, body !! i = Some row →
    length row = 8%nat ∧
    row !! 0%nat = Some (AntenatiDownloader.url self) ∧
    ∃ canvas, canvases self !! i = Some canvas ∧
              row !! 6%nat = Some (slugify (canvas_label canvas)) ∧
              row !! 7%nat = Some (image_id canvas).
Proof.
  unfold info_table. rewrite bind_run.
  destruct (gallery_info self w) as [[items|e] w1] eqn:Hinfo; [|done].
  apply gallery_info_inv in Hinfo as (-> & s1 & s2 & s3 & s4 & s5 & ->).
  rewrite bind_run.
  destruct (gallery_info self w) as [[items'|e] w1] eqn:Hinfo'; [|done].
  apply gallery_info_inv in Hinfo' as (-> & t1 & t2 & t3 & t4 & t5 & ->).
  intros [= <- <- <-]. split; [done|]. split; [done|].
  split; [by rewrite !length_fmap|].
  intros i row Hrow. rewrite <- list_fmap_compose in Hrow.
  apply list_lookup_fmap_Some in Hrow as (canvas & -> & Hcanvas).
  simpl. split; [done|]. split; [done|]. by exists canvas.
Qed.

End opening.

Section opening_witnesses.
Import Text AntenatiDownloader.

Lemma generate_dirname_first_missing_witness :
  let P := Example.cpython "image/jpeg" "" in
  let m := {| metadata := [ {| label := "Contesto archivistico"; value := "Stato civile" |};
                            {| label := "Titolo"; value := "Registro 1810" |} ];
              sequence_canvases := [] |} in
  generate_dirname (H := P) m "19944535" Example.start =
    (Raise (MetadataFieldMissing "Tipologia"), Example.start).
Proof.
  intros P m.
  apply (generate_dirname_first_missing (H := P) m "19944535"
           ["Contesto archivistico"; "Titolo"]%string "Tipologia" [] Example.start).
  - reflexivity.
  - repeat constructor.
    + exists {| label := "Contesto archivistico"; value := "Stato civile" |}.
      split; [by left|reflexivity].
    + exists {| label := "Titolo"; value := "Registro 1810" |}.
      split; [by right; left|reflexivity].
  - by repeat constructor.
Defined.

Lemma init_refuses_locator_witness :
  let P := Example.cpython "image/jpeg" "" in
  init (H := P) "https://antenati.cultura.gov.it/ark:/12657/an_ua/x" 0 None Example.start =
    (Raise (MalformedLocator "https://antenati.cultura.gov.it/ark:/12657/an_ua/x"),
     Example.start).
Proof.
  intros P.
  apply (init_refuses_locator (H := P)
           "https://antenati.cultura.gov.it/ark:/12657/an_ua/x" 0 None
           (MalformedLocator "https://antenati.cultura.gov.it/ark:/12657/an_ua/x")
           Example.start).
  reflexivity.
Defined.

Lemma init_opens_witness :
  let P := Example.cpython "image/jpeg" "" in
  let self := Example.downloader [Example.page "2"; Example.page "3"] in
  AntenatiDownloader.url self = Example.landing_url ∧
  get_archive_id Example.landing_url = Ok (archive_id self) ∧
  canvases self = slice (sequence_canvases (manifest self)) 1 None ∧
  gallery_length self = Z.of_nat (length (canvases self)) ∧
  Forall (λ lbl, ∃ e, e ∈ metadata (manifest self) ∧ label e = lbl)
         ["Contesto archivistico"; "Titolo"; "Tipologia"]%string ∧
  ∃ u, World ∅ [Request PoolManager Example.landing_url;
                Request PoolManager Example.manifest_url] [] false =
       World (files Example.start)
             (log Example.start ++ [Request PoolManager Example.landing_url;
                                    Request PoolManager u])
             (pending Example.start) (pool_closed Example.start).
Proof.
  intros P self.
  apply (init_opens (H := P) Example.landing_url 1 None Example.start self).
  by vm_compute.
Defined.


(** Computed: the gallery without a date opens, and then cannot be
    described. *)
Example sparse_gallery_opens_and_is_not_described :
  ∃ self w,
    init (H := Cases.sparse_platform) Example.landing_url 0 None Example.start = (Ok self, w) ∧
    gallery_info self w =
      (Raise (MetadataFieldMissing "Datazione"), w).
Proof. eexists _, _. split; by vm_compute. Qed.

Lemma info_table_rectangular_witness :
  let P := Example.cpython "image/jpeg" "" in
  let self := Example.downloader [Example.page "1"; Example.page "2"] in
  let header := ["url"; "subtitles"; "category"; "director"; "comments"; "actors";
                 "mediatype"; "Languages"]%string in
  let body := [ [Example.landing_url; "Registro 1810"; "Nati"; "1810";
                 "Stato civile napoleonico > Firenze"; "Archivio di Stato di Firenze";
                 "pagina-1"; Example.image_url "1"];
                [Example.landing_url; "Registro 1810"; "Nati"; "1810";
                 "Stato civile napoleonico > Firenze"; "Archivio di Stato di Firenze";
                 "pagina-2"; Example.image_url "2"] ]%string in
  info_table (H := P) self Example.start = (Ok (header, body), Example.start) ∧
  length body = length (canvases self) ∧
  ∀ i row, body !! i = Some row → length row = 8%nat.
Proof.
  intros P self header body.
  assert (info_table (H := P) self Example.start = (Ok (header, body), Example.start))
    as Htable by by vm_compute.
  split; [exact Htable|].
  destruct (info_table_rectangular (H := P) self Example.start header body Example.start
              Htable) as (_ & _ & Hlength & Hrows).
  split; [exact Hlength|]. intros i row Hrow. by destruct (Hrows i row Hrow).
Defined.

End opening_witnesses.

Section one_unit.
Import Text AntenatiDownloader.
Context `{Platform}.

(** All that a unit can do. *)
Lemma thread_main_cases canvas w :
  let w1 := World (files w) (log w ++ [Request HTTPSConnectionPool (image_id canvas)])
                  (pending w) (pool_closed w) in
  (∃ e, thread_main canvas w = (Raise e, w1)) ∨
  (∃ reply header extension,
     https_request (pool_closed w) (image_id canvas) = Ok reply ∧
     status reply = 200 ∧
     content_type_header reply = Some header ∧
     guess_extension (message_content_type header) = Some extension ∧
     extension ≠ ""%string ∧
     thread_main canvas w =
       (Ok (Z.of_nat (length (data reply))),
        World (<[slugify (canvas_label canvas) +:+ extension := data reply]> (files w))
              (log w ++ [Request HTTPSConnectionPool (image_id canvas)])
              (pending w) (pool_closed w))).
Proof.
  intros w1. unfold thread_main. rewrite bind_run, request_https.
  destruct (https_request _ _) as [reply|e] eqn:Hreply; [|left; by eexists].
  destruct (status reply =? 200) eqn:Hstatus; simpl; [|left; by eexists].
  apply Z.eqb_eq in Hstatus.
  unfold get_content_type, content_type_of.
  destruct (content_type_header reply) as [header|] eqn:Hheader; run_monad;
    [|left; by eexists].
  destruct (guess_extension (message_content_type header)) as [[|c extension]|] eqn:Hext;
    simpl; [left; by eexists| |left; by eexists].
  right. exists reply, header, (String c extension). by rewrite Hheader, Hext.
Qed.


(** A unit that succeeds got a 200 whose media type has an extension, has
    written the whole payload to the one file named by the slug of the
    label and that extension, and returns the length of what it wrote. *)
Theorem thread_main_success (canvas : Canvas) (w : world) (size : Z) (w' : world) :
  thread_main canvas w = (Ok size, w') →
  ∃ reply header extension,
    https_request (pool_closed w) (image_id canvas) = Ok reply ∧
    status reply = 200 ∧
    content_type_header reply = Some header ∧
    guess_extension (message_content_type header) = Some extension ∧
    extension ≠ ""%string ∧
    files w' = <[slugify (canvas_label canvas) +:+ extension := data reply]> (files w) ∧
    size = Z.of_nat (length (data reply)) ∧
    0 ≤ size.
Proof.
  intros Hrun.
  destruct (thread_main_cases canvas w)
    as [[e' Hfail]|(reply & header & ext & Hreply & Hstatus & Hheader & Hext & Hne & Hok)];
    [congruence|].
  rewrite Hok in Hrun. injection Hrun as <- <-.
  exists reply, header, ext. repeat split; try done. lia.
Qed.

(** A reply without a Content-Type header makes the unit fail with a
    [KeyError], not with one of the failures the program words itself; the
    key it names is the header's name in lower case, as urllib3 looks it
    up.  Nothing is written. *)
Theorem thread_main_missing_header (canvas : Canvas) (reply : HTTPResponse) (w : world) :
  https_request (pool_closed w) (image_id canvas) = Ok reply →
  status reply = 200 →
  content_type_header reply = None →
  thread_main canvas w =
    (Raise (KeyError "content-type"),
     World (files w) (log w ++ [Request HTTPSConnectionPool (image_id canvas)])
           (pending w) (pool_closed w)).
Proof.
  intros Hreply Hstatus Hheader. unfold thread_main.
  rewrite bind_run, request_https, Hreply, Hstatus.
  unfold get_content_type, content_type_of. rewrite Hheader. by run_monad.
Qed.

(** What the request raises, the unit raises: there is no second try. *)
Theorem thread_main_request_fails (canvas : Canvas) (e : exn) (w : world) :
  https_request (pool_closed w) (image_id canvas) = Raise e →
  thread_main canvas w =
    (Raise e,
     World (files w) (log w ++ [Request HTTPSConnectionPool (image_id canvas)])
           (pending w) (pool_closed w)).
Proof.
  intros Hreply. unfold thread_main. by rewrite bind_run, request_https, Hreply.
Qed.

(** A reply with another status than 200 makes the unit fail with the
    upstream failure that names the image's own locator and that status;
    the payload of such a reply is not written. *)
Theorem thread_main_not_200 (canvas : Canvas) (reply : HTTPResponse) (w : world) :
  https_request (pool_closed w) (image_id canvas) = Ok reply →
  status reply ≠ 200 →
  thread_main canvas w =
    (Raise (UpstreamError (image_id canvas) (status reply)),
     World (files w) (log w ++ [Request HTTPSConnectionPool (image_id canvas)])
           (pending w) (pool_closed w)).
Proof.
  intros Hreply Hstatus%Z.eqb_neq. unfold thread_main.
  by rewrite bind_run, request_https, Hreply, Hstatus.
Qed.

Lemma thread_main_other_names canvas w name :
  (∀ extension, name ≠ slugify (canvas_label canvas) +:+ extension) →
  files (snd (thread_main canvas w)) !! name = files w !! name.
Proof.
  intros Hname.
  destruct (thread_main_cases canvas w)
    as [[e' ->]|(reply & header & ext & _ & _ & _ & _ & _ & ->)]; [done|].
  simpl. rewrite lookup_insert_ne; [done|]. intros Heq. by apply (Hname ext).
Qed.

(** A unit touches no file but its own: a name that is not the slug of
    its label followed by something holds after the unit what it held
    before. *)
Theorem thread_main_touches_own_file_only (canvas : Canvas) (w : world) (name : string) :
  (∀ extension, name ≠ slugify (canvas_label canvas) +:+ extension) →
  files (snd (thread_main canvas w)) !! name = files w !! name.
Proof. apply thread_main_other_names. Qed.



End one_unit.

Section one_unit_witnesses.
Import Text AntenatiDownloader.


Lemma thread_main_success_witness :
  let P := Example.cpython "image/jpeg" "" in
  let w' := snd (thread_main (H := P) (Example.page "1") Example.start) in
  ∃ reply header extension,
    https_request (Platform := P) (pool_closed Example.start)
      (image_id (Example.page "1")) = Ok reply ∧
    status reply = 200 ∧
    content_type_header reply = Some header ∧
    guess_extension (Platform := P) (message_content_type (Platform := P) header)
      = Some extension ∧
    extension ≠ ""%string ∧
    files w' = <[slugify (Platform := P) (canvas_label (Example.page "1")) +:+ extension
                 := data reply]> (files Example.start) ∧
    10 = Z.of_nat (length (data reply)) ∧
    0 ≤ 10.
Proof.
  intros P w'.
  apply (thread_main_success (H := P) (Example.page "1") Example.start 10 w').
  by vm_compute.
Defined.

Lemma thread_main_missing_header_witness :
  let P := Example.platform (Example.portal 200) Cases.untyped_host in
  thread_main (H := P) (Example.page "1") Example.start =
    (Raise (KeyError "content-type"),
     World ∅ [Request HTTPSConnectionPool (Example.image_url "1")] [] false).
Proof.
  intros P.
  apply (thread_main_missing_header (H := P) (Example.page "1")
           {| status := 200; content_type_header := None; data := Example.ten_bytes |}
           Example.start); reflexivity.
Defined.

Lemma thread_main_request_fails_witness :
  let P := Example.platform (Example.portal 200) Cases.unreachable_host in
  thread_main (H := P) (Example.page "1") Example.start =
    (Raise (LibraryError "MaxRetryError"),
     World ∅ [Request HTTPSConnectionPool (Example.image_url "1")] [] false).
Proof.
  intros P.
  apply (thread_main_request_fails (H := P) (Example.page "1")
           (LibraryError "MaxRetryError") Example.start).
  reflexivity.
Defined.

Lemma thread_main_not_200_witness :
  let P := Example.cpython "image/jpeg" "2" in
  thread_main (H := P) (Example.page "2") Example.start =
    (Raise (UpstreamError (Example.image_url "2") 404),
     World ∅ [Request HTTPSConnectionPool (Example.image_url "2")] [] false).
Proof.
  intros P.
  apply (thread_main_not_200 (H := P) (Example.page "2") (Example.error 404) Example.start);
    [reflexivity|simpl; lia].
Defined.

Lemma thread_main_touches_own_file_only_witness :
  let P := Example.cpython "image/jpeg" "" in
  let w := World {[ "info.csv"%string := Example.ten_bytes ]} [] [] false in
  files (snd (thread_main (H := P) (Example.page "1") w)) !! "info.csv"%string =
    files w !! "info.csv"%string.
Proof.
  intros P w.
  apply (thread_main_touches_own_file_only (H := P) (Example.page "1") w "info.csv").
  intros extension Heq.
  apply (f_equal (String.get 0)) in Heq. vm_compute in Heq. congruence.
Defined.


End one_unit_witnesses.

Section csv.
Import Text Csv AntenatiDownloader.

Lemma not_special c :
  is_special c = false →
  is_delimiter c = false ∧ is_dquote c = false ∧ is_cr c = false ∧ is_lf c = false.
Proof.
  unfold is_special. intros Hc.
  apply orb_false_elim in Hc as [Hc Hlf]. apply orb_false_elim in Hc as [Hc Hcr].
  by apply orb_false_elim in Hc as [Hd Hq].
Qed.

Lemma read_unquoted field : ∀ acc row rest,
  needs_quotes field = false →
  read Unquoted acc row (field +:+ rest) = read Unquoted (acc +:+ field) row rest.
Proof.
  induction field as [|c field IH]; intros acc row rest Hfield.
  - by rewrite append_nil, app_empty_r.
  - simpl in Hfield. apply orb_false_elim in Hfield as [Hc Hfield].
    apply not_special in Hc as (Hd & _ & Hcr & _).
    rewrite append_cons. simpl. rewrite Hd, Hcr, IH by done. by rewrite app_snoc.
Qed.

Lemma read_quoted field : ∀ acc row rest,
  read Quoted acc row (double_quotes field +:+ dquote +:+ rest) =
    read QuoteSeen (acc +:+ field) row rest.
Proof.
  induction field as [|c field IH]; intros acc row rest.
  - by rewrite append_nil, app_empty_r.
  - simpl. destruct (is_dquote c) eqn:Hc.
    + rewrite !append_cons. simpl. rewrite Hc, IH. by rewrite app_snoc.
    + rewrite append_cons. simpl. rewrite Hc, IH. by rewrite app_snoc.
Qed.

(** A field and the delimiter after it. *)
Lemma read_field_delimiter st x row field rest :
  st = RowStart ∨ st = FieldStart →
  read st x row (write_field field +:+ ";" +:+ rest) =
    read FieldStart "" (row ++ [field]) rest.
Proof.
  intros Hst. unfold write_field. destruct (needs_quotes field) eqn:Hq.
  - rewrite !app_assoc'.
    change (dquote +:+ double_quotes field +:+ dquote +:+ ";" +:+ rest)
      with (String (ascii_of_N 34) (double_quotes field +:+ dquote +:+ String ";" rest)).
    assert (read st x row
              (String (ascii_of_N 34) (double_quotes field +:+ dquote +:+ String ";" rest)) =
            read Quoted "" row (double_quotes field +:+ dquote +:+ String ";" rest)) as ->
      by by destruct Hst as [-> | ->].
    by rewrite read_quoted, append_nil.
  - destruct field as [|c field].
    + by destruct Hst as [-> | ->].
    + simpl in Hq. apply orb_false_elim in Hq as [Hc Hq].
      apply not_special in Hc as (Hd & Hdq & Hcr & _).
      rewrite append_cons.
      assert (read st x row (String c (field +:+ ";" +:+ rest)) =
              read Unquoted (String c "") row (field +:+ ";" +:+ rest)) as ->
        by (destruct Hst as [-> | ->]; simpl; by rewrite Hdq, Hd, Hcr).
      by rewrite read_unquoted.
Qed.

(** A field and the end of the row after it; a row is not ended by an
    unquoted empty field that is its only one. *)
Lemma read_field_end st x row field rest :
  st = FieldStart ∨ (st = RowStart ∧ field ≠ ""%string) →
  read st x row (write_field field +:+ crlf +:+ rest) =
    (row ++ [field]) :: read RowStart "" [] rest.
Proof.
  intros Hst. unfold write_field. destruct (needs_quotes field) eqn:Hq.
  - rewrite !app_assoc'.
    change (dquote +:+ double_quotes field +:+ dquote +:+ crlf +:+ rest)
      with (String (ascii_of_N 34) (double_quotes field +:+ dquote +:+ crlf +:+ rest)).
    assert (read st x row
              (String (ascii_of_N 34) (double_quotes field +:+ dquote +:+ crlf +:+ rest)) =
            read Quoted "" row (double_quotes field +:+ dquote +:+ crlf +:+ rest)) as ->
      by by destruct Hst as [-> | [-> _]].
    by rewrite read_quoted, append_nil.
  - destruct field as [|c field].
    + by destruct Hst as [-> | [_ ?]].
    + simpl in Hq. apply orb_false_elim in Hq as [Hc Hq].
      apply not_special in Hc as (Hd & Hdq & Hcr & _).
      rewrite append_cons.
      assert (read st x row (String c (field +:+ crlf +:+ rest)) =
              read Unquoted (String c "") row (field +:+ crlf +:+ rest)) as ->
        by (destruct Hst as [-> | [-> _]]; simpl; by rewrite Hdq, Hd, Hcr).
      by rewrite read_unquoted.
Qed.

Lemma join_cons field field' fields :
  join (field :: field' :: fields) = field +:+ ";" +:+ join (field' :: fields).
Proof. reflexivity. Qed.

Lemma read_fields fields : ∀ field st x row rest,
  st = FieldStart ∨ (st = RowStart ∧ (field ≠ ""%string ∨ fields ≠ [])) →
  read st x row (join (write_field <$> field :: fields) +:+ crlf +:+ rest) =
    (row ++ field :: fields) :: read RowStart "" [] rest.
Proof.
  induction fields as [|field' fields IH]; intros field st x row rest Hst.
  - simpl. apply read_field_end.
    destruct Hst as [->|[-> [?|?]]]; [by left|by right|done].
  - rewrite !fmap_cons, join_cons, !app_assoc'.
    rewrite read_field_delimiter by (destruct Hst as [->|[-> _]]; auto).
    rewrite <- !fmap_cons, IH by by left.
    by rewrite <- app_assoc.
Qed.

Lemma read_row row rest :
  read RowStart "" [] (writerow row +:+ rest) = row :: read RowStart "" [] rest.
Proof.
  destruct row as [|field fields]; [done|].
  destruct (decide (field = ""%string ∧ fields = [])) as [[-> ->]|Hrow]; [done|].
  assert (writerow (field :: fields) = join (write_field <$> field :: fields) +:+ crlf) as ->.
  { destruct field; [|done]. destruct fields; [by destruct Hrow|done]. }
  rewrite app_assoc', read_fields; [done|].
  right. split; [done|].
  destruct (decide (field = ""%string)) as [->|?]; [|by left].
  right. intros ->. by apply Hrow.
Qed.

(** Reading what [csv.writer] wrote gives back the rows. *)
Lemma reader_writerows (rows : list (list string)) :
  reader (writerows rows) = rows.
Proof.
  unfold reader. induction rows as [|row rows IH]; [done|].
  simpl. by rewrite read_row, IH.
Qed.

Lemma un_utf8_char c rest : un_utf8 (utf8_char c ++ rest) = String c (un_utf8 rest).
Proof. destruct c as [[] [] [] [] [] [] [] []]; reflexivity. Qed.

Lemma un_utf8_utf8 text : un_utf8 (utf8 text) = text.
Proof.
  induction text as [|c text IH]; [done|]. simpl. by rewrite un_utf8_char, IH.
Qed.

(** Nothing is lost in the CSV file.  [save_csv_file] writes one file and
    nothing else; the file holds, in UTF-8, the header and then the rows,
    each as [writerow] writes it; and no other table gives the same file,
    whatever semicolons, quotes or line breaks the fields contain. *)
Theorem save_csv_file_holds_table (filename : string) (header : list string)
    (body : list (list string)) (w : world) :
  save_csv_file filename header body w =
    (Ok tt, World (<[filename := utf8 (writerows (header :: body))]> (files w))
                  (log w) (pending w) (pool_closed w)) ∧
  ∀ header' body',
    utf8 (writerows (header' :: body')) = utf8 (writerows (header :: body)) →
    header' = header ∧ body' = body.
Proof.
  split; [done|]. intros header' body' Hsame.
  apply (f_equal un_utf8) in Hsame. rewrite !un_utf8_utf8 in Hsame.
  apply (f_equal reader) in Hsame. rewrite !reader_writerows in Hsame.
  by injection Hsame.
Qed.

Example writerow_quotes :
  writerow ["a;b"; "plain"; ""; "line" +:+ crlf +:+ "break"]%string =
    dquote +:+ "a;b" +:+ dquote +:+ ";plain;;" +:+ dquote +:+ "line" +:+ crlf
    +:+ "break" +:+ dquote +:+ crlf ∧
  writerow ["say " +:+ dquote +:+ "hi" +:+ dquote] =
    dquote +:+ "say " +:+ dquote +:+ dquote +:+ "hi" +:+ dquote +:+ dquote
    +:+ dquote +:+ crlf ∧
  writerow [] = crlf ∧
  writerow [""%string] = dquote +:+ dquote +:+ crlf ∧
  writerow [""; ""]%string = ";" +:+ crlf.
Proof. by repeat split. Qed.

Example print_gallery_info_example :
  print_gallery_info (Example.downloader [Example.page "1"]) =
    ["Titolo                   Registro 1810";
     "Tipologia                Nati";
     "Contesto archivistico    Stato civile napoleonico > Firenze";
     "Datazione                1810";
     "Conservato da            Archivio di Stato di Firenze";
     "1 images found."]%string.
Proof. by vm_compute. Qed.

End csv.
